(** * ColorGradient.h: a verification development

    The header defines [struct rgb] (three 8-bit channels and an
    [operator==]), the static [INVALID_COLOR] and the class [Gradient]
    with [initialize], two constructors, the private [interpolate] and the
    query [getRgb].  This file embeds that code and settles the properties
    stated about it.

    Platform conventions fixed by the embedding:
    - [uint8_t], [uint16_t], [int] and [size_t] are 8, 16, 32 and 64 bits
      wide; they are integers of [Z] with the wrap-around written out.
    - [float] is IEEE 754 binary32 and [double] is binary64, every
      operation rounded to nearest-even in its own format.  The operations
      are the Standard Library's executable [SpecFloat] ones.
    - Reading a [std::vector] outside its bounds and converting a
      floating-point value that does not fit the integer type are undefined
      behaviour; the embedding reports them as a [fault]. *)

From Stdlib Require Import ZArith List Bool Lia SpecFloat Reals Lra.
From stdpp Require Import gmap.

Local Open Scope Z_scope.

(* ===================================================================== *)
(** * Part I: definitions                                                *)
(* ===================================================================== *)

(** ** Outcomes of a call *)

Inductive fault :=
| OutOfBounds      (* std::vector read outside [0, size) *)
| FloatToInt       (* floating value not representable in the integer type *)
| SignedOverflow   (* int arithmetic leaving the int range *).

Inductive result (A : Type) :=
| Ret (a : A)
| Undefined (f : fault).

Arguments Ret {A} a.
Arguments Undefined {A} f.

#[global] Instance result_ret : MRet result := @Ret.

#[global] Instance result_bind : MBind result :=
  fun A B (k : A -> result B) (r : result A) =>
    match r with
    | Ret a => k a
    | Undefined f => Undefined f
    end.

(** ** Machine integers *)

Definition uint16 (z : Z) : Z := z mod 2 ^ 16.
Definition size_t (z : Z) : Z := z mod 2 ^ 64.
Definition INT_MIN : Z := - 2 ^ 31.
Definition INT_MAX : Z := 2 ^ 31 - 1.
Definition is_uint8 (z : Z) : Prop := 0 <= z <= 255.

(** ** Floating-point formats *)

Definition f32_of_Z (z : Z) : spec_float := binary_normalize 24 128 z 0 false.
Definition f64_of_Z (z : Z) : spec_float := binary_normalize 53 1024 z 0 false.
Definition f32_div : spec_float -> spec_float -> spec_float := SFdiv 24 128.
Definition f32_mul : spec_float -> spec_float -> spec_float := SFmul 24 128.
Definition f32_sub : spec_float -> spec_float -> spec_float := SFsub 24 128.
Definition f64_add : spec_float -> spec_float -> spec_float := SFadd 53 1024.
Definition f64_sub : spec_float -> spec_float -> spec_float := SFsub 53 1024.
Definition f64_mul : spec_float -> spec_float -> spec_float := SFmul 53 1024.
Definition f64_leb : spec_float -> spec_float -> bool := SFleb.

(** The promotion [float -> double] keeps the value and renormalises the
    mantissa to 53 bits. *)
Definition f64_of_f32 (x : spec_float) : spec_float :=
  match x with
  | S754_finite s m e => binary_round 53 1024 s m e
  | _ => x
  end.

Definition f64_zero : spec_float := S754_zero false.
Definition f64_one : spec_float := f64_of_Z 1.

(** Discarding the fractional part (C++ [conv.fpint]): the magnitude
    [m * 2^e] is floored, then the sign is put back. *)
Definition SFtrunc (x : spec_float) : option Z :=
  match x with
  | S754_zero _ => Some 0
  | S754_finite s m e => Some (cond_Zopp s (Z.shiftl (Z.pos m) e))
  | S754_infinity _ => None
  | S754_nan => None
  end.

Definition float_to_int (x : spec_float) : result Z :=
  match SFtrunc x with
  | Some z => if (INT_MIN <=? z) && (z <=? INT_MAX) then Ret z else Undefined FloatToInt
  | None => Undefined FloatToInt
  end.

Definition double_to_uint8 (x : spec_float) : result Z :=
  match SFtrunc x with
  | Some z => if (0 <=? z) && (z <=? 255) then Ret z else Undefined FloatToInt
  | None => Undefined FloatToInt
  end.

(** ** [struct rgb] *)

Record rgb := mk_rgb { red : Z; green : Z; blue : Z }.

Definition rgb_wf (c : rgb) : Prop :=
  is_uint8 (red c) /\ is_uint8 (green c) /\ is_uint8 (blue c).

(** Value equality of colours, the comparison the data model asks for. *)
Definition rgb_same (a b : rgb) : bool :=
  (red a =? red b) && (green a =? green b) && (blue a =? blue b).

(** Objects have addresses.  [operator==] takes its argument by value, so
    [lhr] is a new object: it is given storage that no live object
    occupies, and the body compares [this] with the address of that
    storage. *)
Definition addr := positive.

Definition pass_by_value (live : gset addr) : addr := fresh live.

Definition rgb_operator_eq (live : gset addr) (this : addr) (self arg : rgb) : bool :=
  let lhr := pass_by_value live in
  bool_decide (this = lhr).

Definition INVALID_COLOR : rgb := mk_rgb 0 0 0.

(** ** [class Gradient] *)

Record Gradient := mk_Gradient {
  m_min : Z;
  m_minColor : rgb;
  m_minOutlierColor : rgb;
  m_max : Z;
  m_maxColor : rgb;
  m_maxOutlierColor : rgb;
  m_stops : list rgb
}.

(** Where a [Gradient] object lives: the addresses of the two members that
    [getRgb] applies [operator==] to, and the storage of all other objects
    that are live during the call. *)
Record placement := mk_placement {
  at_minOutlierColor : addr;
  at_maxOutlierColor : addr;
  elsewhere : gset addr
}.

Definition live (pl : placement) : gset addr :=
  {[ at_minOutlierColor pl ]} ∪ {[ at_maxOutlierColor pl ]} ∪ elsewhere pl.

(** Member functions thread the object: a call returns its outcome and the
    object as the call leaves it. *)
Definition M (A : Type) : Type := Gradient -> result A * Gradient.

(** [std::vector] reads. *)
Definition vec_at (v : list rgb) (i : Z) : result rgb :=
  if 0 <=? i then
    match nth_error v (Z.to_nat i) with
    | Some c => Ret c
    | None => Undefined OutOfBounds
    end
  else Undefined OutOfBounds.

Definition vec_front (v : list rgb) : result rgb := vec_at v 0.
Definition vec_back (v : list rgb) : result rgb := vec_at v (Z.of_nat (length v) - 1).

(** [rgb interpolate(rgb c1, rgb c2, float normalized_value)]

    One channel of the blend
    [(1.0 - normalized_value)*c1.ch + normalized_value*c2.ch], with the
    usual arithmetic conversions of C++:
    - [1.0 - normalized_value] is [double - float]: the float is promoted
      and the difference is a binary64 one;
    - its product with [c1.ch] is [double * uint8_t], a binary64 product;
    - [normalized_value*c2.ch] is [float * uint8_t]: the channel is
      converted to [float] and the product is a binary32 one, rounded to
      24 bits;
    - the sum is [double + float]: the binary32 product is promoted and
      the sum is a binary64 one. *)
Definition blend (t : spec_float) (a b : Z) : spec_float :=
  f64_add (f64_mul (f64_sub f64_one (f64_of_f32 t)) (f64_of_Z a))
          (f64_of_f32 (f32_mul t (f32_of_Z b))).

(** The comparisons with [0.0] and [1.0] are made in binary64, on the
    promoted [normalized_value]. *)
Definition interpolate (c1 c2 : rgb) (normalized_value : spec_float) : result rgb :=
  let t := f64_of_f32 normalized_value in
  if f64_leb t f64_zero then Ret c1
  else if f64_leb f64_one t then Ret c2
  else
    r ← double_to_uint8 (blend normalized_value (red c1) (red c2));
    g ← double_to_uint8 (blend normalized_value (green c1) (green c2));
    b ← double_to_uint8 (blend normalized_value (blue c1) (blue c2));
    Ret (mk_rgb r g b).

(** [Gradient() {}]: the scalar and [rgb] members keep whatever the storage
    held ([junk]); the vector member is default-constructed, hence empty. *)
Definition Gradient_default (junk : Gradient) : Gradient :=
  mk_Gradient (m_min junk) (m_minColor junk) (m_minOutlierColor junk)
              (m_max junk) (m_maxColor junk) (m_maxOutlierColor junk) [].

(** [void initialize(min, max, stops, minOutlierColor, maxOutlierColor)] *)
Definition initialize (min max : Z) (stops : list rgb)
    (minOutlierColor maxOutlierColor : rgb) : M unit :=
  fun g =>
    (Ret tt,
     mk_Gradient min (m_minColor g) minOutlierColor
                 max (m_maxColor g) maxOutlierColor stops).

(** [Gradient(min, max, stops, minOutlierColor, maxOutlierColor)]: the
    members are default-initialised, then the body calls [initialize]. *)
Definition Gradient_init (min max : Z) (stops : list rgb)
    (minOutlierColor maxOutlierColor : rgb) (junk : Gradient) : Gradient :=
  snd (initialize min max stops minOutlierColor maxOutlierColor
         (Gradient_default junk)).

(** The first four statements of the in-range part of [getRgb]. *)
Definition getRgb_range (g : Gradient) : Z := uint16 (m_max g - m_min g).
Definition getRgb_v (g : Gradient) (value : Z) : Z := uint16 (value - m_min g).
Definition getRgb_step (g : Gradient) : spec_float :=
  f32_div (f32_of_Z (getRgb_range g))
          (f32_of_Z (size_t (Z.of_nat (length (m_stops g)) - 1))).
Definition getRgb_bin (g : Gradient) (value : Z) : result Z :=
  float_to_int (f32_div (f32_of_Z (getRgb_v g value)) (getRgb_step g)).

Definition getRgb_normalized (g : Gradient) (value bin : Z) : spec_float :=
  let step := getRgb_step g in
  f32_div (f32_sub (f32_of_Z (getRgb_v g value)) (f32_mul (f32_of_Z bin) step)) step.

(** The same bin computation as a function of [range], of
    [n = stops.size() - 1] and of [v]. *)
Definition bin_of (range n v : Z) : result Z :=
  float_to_int (f32_div (f32_of_Z v) (f32_div (f32_of_Z range) (f32_of_Z n))).

Definition int_succ (i : Z) : result Z :=
  if i + 1 <=? INT_MAX then Ret (i + 1) else Undefined SignedOverflow.

(** [rgb getRgb(uint16_t value)] *)
Definition getRgb (pl : placement) (value : Z) : M rgb :=
  fun g =>
    if value <? m_min g then
      ((if rgb_operator_eq (live pl) (at_minOutlierColor pl)
             (m_minOutlierColor g) INVALID_COLOR
        then vec_front (m_stops g)
        else Ret (m_minOutlierColor g)), g)
    else if m_max g <? value then
      ((if rgb_operator_eq (live pl) (at_maxOutlierColor pl)
             (m_maxOutlierColor g) INVALID_COLOR
        then vec_back (m_stops g)
        else Ret (m_maxOutlierColor g)), g)
    else
      (bin ← getRgb_bin g value;
       let normalized_v := getRgb_normalized g value bin in
       c1 ← vec_at (m_stops g) bin;
       bin1 ← int_succ bin;
       c2 ← vec_at (m_stops g) bin1;
       interpolate c1 c2 normalized_v,
       g).





(** ** Real-number reading of the floating-point formats

    Used to state and prove properties only; the program is evaluated with
    the [SpecFloat] operations above. *)

Definition bpow (e : Z) : R := powerRZ 2 e.
Definition F2R (m e : Z) : R := (IZR m * bpow e)%R.

(** The value of a float; infinities and NaN have none and read as [0]. *)
Definition SF2R (x : spec_float) : R :=
  match x with
  | S754_finite s m e => F2R (cond_Zopp s (Z.pos m)) e
  | _ => 0%R
  end.

(** [located X m l]: the position [l] of the real [X] inside [m, m+1). *)
Definition located (X : R) (m : Z) (l : location) : Prop :=
  match l with
  | loc_Exact => X = IZR m
  | loc_Inexact Lt => (IZR m < X < IZR m + / 2)%R
  | loc_Inexact Eq => X = (IZR m + / 2)%R
  | loc_Inexact Gt => (IZR m + / 2 < X < IZR m + 1)%R
  end.

Definition located_rec (X : R) (r : shr_record) : Prop :=
  located X (shr_m r) (loc_of_shr_record r).

(** [nearest prec x f]: [f] is a multiple of the unit in the last place of
    the binade of [x > 0], at distance at most half that unit from [x]. *)
Definition nearest (prec : Z) (x f : R) : Prop :=
  exists e0 M,
    (bpow (prec - 1 + e0) <= x < bpow (prec + e0))%R /\
    f = F2R M e0 /\
    (Rabs (f - x) <= bpow e0 / 2)%R.

(** [normal prec emax s f v]: [f] is a normal number of the format with
    sign [s] and magnitude [v]. *)
Definition normal (prec emax : Z) (s : bool) (f : spec_float) (v : R) : Prop :=
  exists m e,
    f = S754_finite s m e /\ Zdigits2 (Z.pos m) = prec /\
    emin prec emax <= e <= emax - prec /\ v = F2R (Z.pos m) e.

(** Magnitudes that neither underflow nor overflow when rounded. *)
Definition in_range (prec emax : Z) (x : R) : Prop :=
  (bpow (emin prec emax + prec) <= x < bpow (emax - 1))%R.

(** ** Error model of the bin computation *)

(** The value [step] as a function of [range] and [n = stops.size() - 1]. *)
Definition step_of (range n : Z) : spec_float :=
  f32_div (f32_of_Z range) (f32_of_Z n).

(** [step_model range n S]: the value [S] of [step] for a range and a
    divisor [n = stops.size() - 1], both roundings accounted for. *)
Definition step_model (range n S : R) : Prop :=
  exists N : R,
    (n * (1 - / 16777216) <= N <= n * (1 + / 16777216))%R /\
    (range * (1 - / 16777216) <= S * N <= range * (1 + / 16777216))%R /\
    (0 < N)%R /\ (0 < S)%R.

Definition quot_model (v S Q : R) : Prop :=
  (v * (1 - / 16777216) <= Q * S <= v * (1 + / 16777216))%R.


(** ** Reading of [interpolate]'s tests and result *)

(** [t <= 0.0] and [t >= 1.0] as IEEE 754 orders them: false for NaN,
    decided by the sign for infinities, by the value otherwise. *)
Definition float_le_0 (t : spec_float) : Prop :=
  match t with
  | S754_nan => False
  | S754_infinity s => s = true
  | S754_zero _ => True
  | S754_finite _ _ _ => (SF2R t <= 0)%R
  end.

Definition float_ge_1 (t : spec_float) : Prop :=
  match t with
  | S754_nan => False
  | S754_infinity s => s = false
  | S754_zero _ => False
  | S754_finite _ _ _ => (1 <= SF2R t)%R
  end.

(** The linear blend of two channels in exact arithmetic. *)
Definition exact_blend (T : R) (a b : Z) : R := ((1 - T) * IZR a + T * IZR b)%R.

(** [n] is the non-negative value [x] with its fractional part discarded. *)
Definition truncated (x : R) (n : Z) : Prop := (IZR n <= x < IZR n + 1)%R.

(** The rounding of nearest-or-even to an integer would give [n]. *)
Definition rounded_to_nearest (x : R) (n : Z) : Prop := (Rabs (x - IZR n) <= / 2)%R.

(** The roundings of [blend] keep it within [2^-16] of the exact blend:
    the binary32 product [t * c2.ch] alone may be off by nearly
    [255 * 2^-24]. *)
Definition blend_accurate (x exact : R) : Prop :=
  (Rabs (x - exact) <= / 65536)%R.

(** A value of [double] that is [+0] or positive and normal. *)
Definition nonneg64 (f : spec_float) : Prop :=
  f = S754_zero false \/ normal 53 1024 false f (SF2R f).

(** [r] lies between the channels [a] and [b], or one unit below the
    smaller of them. *)
Definition channel_between (a b r : Z) : Prop :=
  Z.min a b - 1 <= r <= Z.max a b.

Definition rgb_between (c1 c2 c : rgb) : Prop :=
  channel_between (red c1) (red c2) (red c) /\
  channel_between (green c1) (green c2) (green c) /\
  channel_between (blue c1) (blue c2) (blue c).

(** [r] is the exact value [x] with its fractional part discarded, up to
    an error of [2^-15] on [x]. *)
Definition channel_accurate (x : R) (r : Z) : Prop :=
  (x - 1 - / 32768 < IZR r <= x + / 32768)%R.

(** The colour [c] is the linear interpolation of [c1] and [c2] at the
    position [q], channel by channel. *)
Definition rgb_accurate (q : R) (c1 c2 c : rgb) : Prop :=
  channel_accurate (exact_blend q (red c1) (red c2)) (red c) /\
  channel_accurate (exact_blend q (green c1) (green c2)) (green c) /\
  channel_accurate (exact_blend q (blue c1) (blue c2)) (blue c).

(** The binary32 number [2^-54 * (1 + 2^-23)]. *)
Definition f32_tiny : spec_float := S754_finite false 8388609 (-77).

(** The binary32 number [0.1f], that is [13421773 * 2^-27]. *)
Definition f32_tenth : spec_float := S754_finite false 13421773 (-27).

(** The binary32 number 0.25. *)
Definition f32_quarter : spec_float := S754_finite false 8388608 (-25).

(** ** Sample objects *)

Definition junk0 : Gradient :=
  mk_Gradient 7 (mk_rgb 9 9 9) (mk_rgb 8 8 8) 3 (mk_rgb 7 7 7) (mk_rgb 6 6 6) [].
Definition pl0 : placement := mk_placement 11%positive 12%positive {[ 1%positive; 13%positive ]}.
Definition white : rgb := mk_rgb 255 255 255.
Definition black : rgb := mk_rgb 0 0 0.
Definition g_two : Gradient :=
  Gradient_init 0 100 [mk_rgb 1 2 3; mk_rgb 4 5 6] INVALID_COLOR INVALID_COLOR junk0.
Definition g_same : Gradient :=
  Gradient_init 0 7 [mk_rgb 10 20 30; mk_rgb 10 20 30] INVALID_COLOR INVALID_COLOR junk0.
Definition g_eight : Gradient :=
  Gradient_init 0 1 (repeat black 8) INVALID_COLOR INVALID_COLOR junk0.
Definition g_five : Gradient :=
  Gradient_init 0 1 [black; white; black; white; black] INVALID_COLOR INVALID_COLOR junk0.

(* ===================================================================== *)
(** * Part II: floating-point rounding                                   *)
(* ===================================================================== *)

Lemma bpow_pos e : (0 < bpow e)%R.
Proof. apply powerRZ_lt. lra. Qed.

Lemma bpow_add a b : bpow (a + b) = (bpow a * bpow b)%R.
Proof. apply powerRZ_add. lra. Qed.

Lemma bpow_0 : bpow 0 = 1%R.
Proof. reflexivity. Qed.

Lemma bpow_1 : bpow 1 = 2%R.
Proof. unfold bpow. simpl. lra. Qed.

Lemma bpow_m1 : bpow (-1) = (/ 2)%R.
Proof. unfold bpow. simpl. lra. Qed.

Lemma bpow_succ e : bpow (e + 1) = (2 * bpow e)%R.
Proof. rewrite bpow_add, bpow_1. lra. Qed.

Lemma bpow_opp e : bpow (- e) = (/ bpow e)%R.
Proof. apply powerRZ_neg'. Qed.

Lemma bpow_IZR e : 0 <= e -> bpow e = IZR (2 ^ e).
Proof.
  intros He. unfold bpow.
  destruct e as [|p|p]; try lia.
  - simpl. reflexivity.
  - change (2 ^ Z.pos p) with (Z.pow_pos 2 p).
    now rewrite Zpower_pos_powerRZ.
Qed.

Lemma bpow_le a b : a <= b -> (bpow a <= bpow b)%R.
Proof.
  intros Hab. replace b with (a + (b - a)) by lia.
  rewrite bpow_add. rewrite (bpow_IZR (b - a)) by lia.
  assert (1 <= 2 ^ (b - a)) by (apply (Z.pow_le_mono_r 2 0); lia).
  apply IZR_le in H. pose proof (bpow_pos a). nra.
Qed.

Lemma bpow_lt a b : a < b -> (bpow a < bpow b)%R.
Proof.
  intros Hab. replace b with (a + (b - a)) by lia.
  rewrite bpow_add. rewrite (bpow_IZR (b - a)) by lia.
  assert (2 <= 2 ^ (b - a)) by (apply (Z.pow_le_mono_r 2 1); lia).
  apply IZR_le in H. pose proof (bpow_pos a). nra.
Qed.

Lemma bpow_lt_inv a b : (bpow a < bpow b)%R -> a < b.
Proof.
  intros H. destruct (Z_lt_le_dec a b) as [|Hle]; [assumption|].
  apply bpow_le in Hle. lra.
Qed.

(** digits *)
Lemma digits2_pos_size p : digits2_pos p = Pos.size p.
Proof. induction p; simpl; congruence. Qed.

Lemma digits2_pos_bounds p :
  2 ^ (Z.pos (digits2_pos p) - 1) <= Z.pos p < 2 ^ Z.pos (digits2_pos p).
Proof.
  rewrite digits2_pos_size.
  pose proof (Pos.size_gt p) as Hgt. pose proof (Pos.size_le p) as Hle.
  apply Pos2Z.pos_lt_pos in Hgt. apply Pos2Z.pos_le_pos in Hle.
  rewrite Pos2Z.inj_pow in Hgt, Hle.
  split; [|exact Hgt].
  replace (Z.pos (Pos.size p)) with ((Z.pos (Pos.size p) - 1) + 1) in Hle by lia.
  rewrite Z.pow_add_r in Hle by lia.
  change (Z.pos p~0) with (2 * Z.pos p) in Hle. lia.
Qed.

Lemma Zdigits2_bounds m : 0 < m ->
  2 ^ (Zdigits2 m - 1) <= m < 2 ^ Zdigits2 m.
Proof.
  destruct m as [|p|p]; try lia. intros _. apply digits2_pos_bounds.
Qed.

Lemma Zdigits2_unique m k : 0 < m -> 2 ^ (k - 1) <= m < 2 ^ k -> Zdigits2 m = k.
Proof.
  intros Hm [Hlo Hhi].
  pose proof (Zdigits2_bounds m Hm) as [Dlo Dhi].
  assert (0 < Zdigits2 m) by (destruct m; simpl; lia).
  assert (0 < k).
  { destruct (Z_lt_le_dec 0 k); [assumption|].
    exfalso. destruct k; [simpl in Hhi; lia| lia |]. 
    rewrite Z.pow_neg_r in Hhi by lia. lia. }
  destruct (Z_lt_le_dec (Zdigits2 m) k).
  - assert (2 ^ (Zdigits2 m) <= 2 ^ (k - 1)) by (apply Z.pow_le_mono_r; lia). lia.
  - destruct (Z_lt_le_dec k (Zdigits2 m)); [|lia].
    assert (2 ^ k <= 2 ^ (Zdigits2 m - 1)) by (apply Z.pow_le_mono_r; lia). lia.
Qed.

Lemma Zdigits2_pos m : 0 < m -> 0 < Zdigits2 m.
Proof. destruct m; simpl; lia. Qed.

(** shifting right with sticky bits *)
Lemma loc_of_record_of_loc m l : loc_of_shr_record (shr_record_of_loc m l) = l.
Proof. destruct l as [|[]]; reflexivity. Qed.

Lemma shr_m_record_of_loc m l : shr_m (shr_record_of_loc m l) = m.
Proof. destruct l as [|[]]; reflexivity. Qed.

Lemma IZR_xI p : IZR (Z.pos p~1) = (2 * IZR (Z.pos p) + 1)%R.
Proof. rewrite Pos2Z.inj_xI, plus_IZR, mult_IZR. reflexivity. Qed.

Lemma IZR_xO p : IZR (Z.pos p~0) = (2 * IZR (Z.pos p))%R.
Proof. rewrite Pos2Z.inj_xO, mult_IZR. reflexivity. Qed.

Lemma shr_1_located X r :
  0 <= shr_m r -> located_rec X r ->
  0 <= shr_m (shr_1 r) /\ located_rec (X / 2) (shr_1 r).
Proof.
  destruct r as [m rb sb]. unfold located_rec. cbn [shr_m loc_of_shr_record].
  intros Hm H.
  destruct m as [|[p|p|]|p]; try lia;
    destruct rb, sb; cbn [shr_1 shr_m loc_of_shr_record located orb] in *;
    try rewrite (IZR_xI p) in H; try rewrite (IZR_xO p) in H;
    (split; [lia | lra]).
Qed.

Lemma iter_shr_1_located p : forall X r,
  0 <= shr_m r -> located_rec X r ->
  0 <= shr_m (SpecFloat.iter_pos shr_1 p r) /\
  located_rec (X * bpow (- Z.pos p)) (SpecFloat.iter_pos shr_1 p r).
Proof.
  induction p as [p IH|p IH|]; intros X r Hm H; cbn [SpecFloat.iter_pos].
  - destruct (shr_1_located X r Hm H) as [H1 H2].
    destruct (IH _ _ H1 H2) as [H3 H4].
    destruct (IH _ _ H3 H4) as [H5 H6].
    split; [assumption|].
    replace (X * bpow (- Z.pos p~1))%R with (X / 2 * bpow (- Z.pos p) * bpow (- Z.pos p))%R; [assumption|].
    replace (- Z.pos p~1) with (- Z.pos p + - Z.pos p + -1) by lia.
    rewrite !bpow_add, bpow_m1. field.
  - destruct (IH _ _ Hm H) as [H3 H4].
    destruct (IH _ _ H3 H4) as [H5 H6].
    split; [assumption|].
    replace (X * bpow (- Z.pos p~0))%R with (X * bpow (- Z.pos p) * bpow (- Z.pos p))%R; [assumption|].
    replace (- Z.pos p~0) with (- Z.pos p + - Z.pos p) by lia.
    rewrite !bpow_add. ring.
  - destruct (shr_1_located X r Hm H) as [H1 H2].
    split; [assumption|].
    change (bpow (- Z.pos 1)) with (bpow (-1)). rewrite bpow_m1. exact H2.
Qed.

Lemma located_bounds X m l : located X m l -> (IZR m <= X < IZR m + 1)%R.
Proof. destruct l as [|[]]; simpl; lra. Qed.

Lemma IZR_pow2_bpow e : 0 <= e -> IZR (2 ^ e) = bpow e.
Proof. intros. now rewrite bpow_IZR. Qed.

Lemma Rabs_le_inv a b : (Rabs a <= b)%R -> (- b <= a <= b)%R.
Proof.
  intros H. pose proof (Rle_abs a). pose proof (Rle_abs (- a)) as H1.
  rewrite Rabs_Ropp in H1. lra.
Qed.

Lemma round_nearest_even_spec X m l :
  located X m l ->
  (round_nearest_even m l = m \/ round_nearest_even m l = m + 1) /\
  (Rabs (IZR (round_nearest_even m l) - X) <= / 2)%R.
Proof.
  intros H. destruct l as [|[]]; simpl in *.
  - split; [now left|]. subst X. rewrite Rminus_diag. rewrite Rabs_R0. lra.
  - destruct (Z.even m).
    + split; [now left|]. subst X.
      replace (IZR m - (IZR m + / 2))%R with (- / 2)%R by ring.
      rewrite Rabs_Ropp, Rabs_pos_eq; lra.
    + split; [now right|]. subst X. rewrite plus_IZR.
      replace (IZR m + 1 - (IZR m + / 2))%R with (/ 2)%R by field.
      rewrite Rabs_pos_eq; lra.
  - split; [now left|]. rewrite Rabs_left1; lra.
  - split; [now right|]. rewrite plus_IZR. rewrite Rabs_pos_eq; lra.
Qed.

Section Rounding.
Variables prec emax : Z.
Hypothesis Hprec : 0 < prec.

#[local] Abbreviation emin := (SpecFloat.emin prec emax).
#[local] Abbreviation fexp := (SpecFloat.fexp prec emax).
#[local] Abbreviation nearest := (nearest prec).
#[local] Abbreviation normal := (normal prec emax).
#[local] Abbreviation in_range := (in_range prec emax).

(** First alignment: a mantissa with at least [prec] digits is cut down
    to exactly [prec] digits. *)
Lemma shr_fexp_cut mx ex lx x :
  0 < mx ->
  located (x * bpow (- ex)) mx lx ->
  prec <= Zdigits2 mx ->
  emin <= Zdigits2 mx + ex - prec ->
  exists r1,
    shr_fexp prec emax mx ex lx = (r1, Zdigits2 mx + ex - prec) /\
    located_rec (x * bpow (- (Zdigits2 mx + ex - prec))) r1 /\
    2 ^ (prec - 1) <= shr_m r1 < 2 ^ prec.
Proof.
  intros Hmx Hloc Hd Hmin.
  set (d := Zdigits2 mx) in *.
  set (e1 := d + ex - prec).
  assert (Hr : exists r1, shr_fexp prec emax mx ex lx = (r1, e1) /\
               0 <= shr_m r1 /\ located_rec (x * bpow (- e1)) r1).
  { unfold shr_fexp. fold d. unfold SpecFloat.fexp.
    rewrite Z.max_l by (fold e1; lia).
    replace (d + ex - prec - ex) with (d - prec) by lia.
    unfold shr.
    destruct (d - prec) as [|p|p] eqn:Hn; try lia.
    - exists (shr_record_of_loc mx lx).
      replace e1 with ex by (unfold e1; lia).
      split; [reflexivity|].
      unfold located_rec. rewrite shr_m_record_of_loc, loc_of_record_of_loc.
      split; [lia | assumption].
    - destruct (iter_shr_1_located p (x * bpow (- ex)) (shr_record_of_loc mx lx))
        as [H1 H2].
      + rewrite shr_m_record_of_loc. lia.
      + unfold located_rec. now rewrite shr_m_record_of_loc, loc_of_record_of_loc.
      + exists (SpecFloat.iter_pos shr_1 p (shr_record_of_loc mx lx)).
        replace (ex + Z.pos p) with e1 by (unfold e1; lia).
        split; [reflexivity|]. split; [assumption|].
        replace (x * bpow (- e1))%R with (x * bpow (- ex) * bpow (- Z.pos p))%R;
          [assumption|].
        rewrite Rmult_assoc, <- bpow_add. f_equal; try f_equal; unfold e1; lia. }
  destruct Hr as (r1 & Hshr & Hpos & Hloc1).
  exists r1. split; [exact Hshr|]. split; [exact Hloc1|].
  pose proof (located_bounds _ _ _ Hloc) as [B1 B2].
  pose proof (located_bounds _ _ _ Hloc1) as [C1 C2].
  pose proof (Zdigits2_bounds mx Hmx) as [D1 D2]. fold d in D1, D2.
  assert (Hd0 : 0 < d) by (apply Zdigits2_pos; assumption).
  apply IZR_le in D1. assert (D2' : mx + 1 <= 2 ^ d) by lia.
  apply IZR_le in D2'. rewrite plus_IZR in D2'.
  rewrite IZR_pow2_bpow in D1, D2' by lia.
  (* x * bpow (-e1) lies in [bpow (prec - 1), bpow prec) *)
  assert (E : (x * bpow (- e1) = x * bpow (- ex) * bpow (prec - d))%R).
  { rewrite Rmult_assoc, <- bpow_add. f_equal; try f_equal; unfold e1; lia. }
  pose proof (bpow_pos (prec - d)) as Hp.
  assert (F1 : (bpow (prec - 1) <= x * bpow (- e1))%R).
  { rewrite E. replace (prec - 1) with ((d - 1) + (prec - d)) by lia.
    rewrite bpow_add. apply Rmult_le_compat_r; lra. }
  assert (F2 : (x * bpow (- e1) < bpow prec)%R).
  { rewrite E. replace prec with (d + (prec - d)) at 2 by lia.
    rewrite bpow_add. apply Rmult_lt_compat_r; lra. }
  rewrite <- (IZR_pow2_bpow (prec - 1)) in F1 by lia.
  rewrite <- (IZR_pow2_bpow prec) in F2 by lia.
  split.
  - assert (IZR (2 ^ (prec - 1)) < IZR (shr_m r1 + 1))%R by (rewrite plus_IZR; lra).
    apply lt_IZR in H. lia.
  - apply lt_IZR. lra.
Qed.

(** Second alignment: after rounding, a carry into bit [prec] is shifted
    out again. *)
Lemma shr_fexp_carry M e1 :
  emin <= e1 ->
  2 ^ (prec - 1) <= M <= 2 ^ prec ->
  exists r2 e2,
    shr_fexp prec emax M e1 loc_Exact = (r2, e2) /\
    2 ^ (prec - 1) <= shr_m r2 < 2 ^ prec /\
    e1 <= e2 <= e1 + 1 /\
    F2R (shr_m r2) e2 = F2R M e1.
Proof.
  intros Hmin [HM1 HM2].
  assert (Hpow : 0 < 2 ^ (prec - 1)) by (apply Z.pow_pos_nonneg; lia).
  assert (Hpp : 2 ^ prec = 2 * 2 ^ (prec - 1)).
  { replace prec with ((prec - 1) + 1) at 1 by lia. rewrite Z.pow_add_r by lia. lia. }
  destruct (Z_lt_le_dec M (2 ^ prec)) as [Hlt|Hge].
  - exists (shr_record_of_loc M loc_Exact), e1.
    unfold shr_fexp.
    rewrite (Zdigits2_unique M prec) by lia.
    unfold SpecFloat.fexp. rewrite Z.max_l by lia.
    replace (prec + e1 - prec - e1) with 0 by lia.
    simpl. repeat split; lia.
  - assert (HM : M = 2 ^ prec) by lia. subst M.
    unfold shr_fexp.
    rewrite (Zdigits2_unique (2 ^ prec) (prec + 1)).
    2: lia.
    2:{ replace (prec + 1 - 1) with prec by lia. split; [lia|].
        rewrite Z.pow_add_r by lia. lia. }
    unfold SpecFloat.fexp. rewrite Z.max_l by lia.
    replace (prec + 1 + e1 - prec - e1) with 1 by lia.
    unfold shr. cbn [SpecFloat.iter_pos].
    destruct (shr_1_located (IZR (2 ^ prec)) (shr_record_of_loc (2 ^ prec) loc_Exact))
      as [H1 H2].
    + simpl. lia.
    + unfold located_rec. simpl. reflexivity.
    + exists (shr_1 (shr_record_of_loc (2 ^ prec) loc_Exact)), (e1 + 1).
      unfold located_rec in H2. apply located_bounds in H2.
      set (m2 := shr_m (shr_1 (shr_record_of_loc (2 ^ prec) loc_Exact))) in *.
      rewrite Hpp in H2. rewrite mult_IZR in H2.
      replace (2 * IZR (2 ^ (prec - 1)) / 2)%R with (IZR (2 ^ (prec - 1))) in H2 by field.
      destruct H2 as [H2 H3].
      apply le_IZR in H2.
      assert (IZR (2 ^ (prec - 1)) < IZR (m2 + 1))%R by (rewrite plus_IZR; lra).
      apply lt_IZR in H.
      assert (Hm2 : m2 = 2 ^ (prec - 1)) by lia.
      split; [reflexivity|].
      split; [lia|]. split; [lia|].
      unfold F2R. rewrite Hm2, bpow_succ, Hpp, mult_IZR. ring.
Qed.

Lemma binary_round_aux_nearest sx mx ex lx x :
  0 < mx ->
  located (x * bpow (- ex)) mx lx ->
  prec <= Zdigits2 mx ->
  emin <= Zdigits2 mx + ex - prec ->
  Zdigits2 mx + ex < emax ->
  exists m e,
    binary_round_aux prec emax sx mx ex lx = S754_finite sx m e /\
    Zdigits2 (Z.pos m) = prec /\
    Zdigits2 mx + ex - prec <= e <= Zdigits2 mx + ex - prec + 1 /\
    nearest x (F2R (Z.pos m) e).
Proof.
  intros Hmx Hloc Hd Hmin Hmax.
  destruct (shr_fexp_cut mx ex lx x Hmx Hloc Hd Hmin) as (r1 & Hs1 & Hloc1 & Hm1).
  set (e1 := Zdigits2 mx + ex - prec) in *.
  unfold located_rec in Hloc1.
  destruct (round_nearest_even_spec _ _ _ Hloc1) as [HM Habs].
  set (M := round_nearest_even (shr_m r1) (loc_of_shr_record r1)) in *.
  assert (HMr : 2 ^ (prec - 1) <= M <= 2 ^ prec) by lia.
  destruct (shr_fexp_carry M e1 Hmin HMr) as (r2 & e2 & Hs2 & Hm2 & He2 & Hval).
  unfold binary_round_aux. rewrite Hs1. fold M. rewrite Hs2.
  assert (Hpow : 0 < 2 ^ (prec - 1)) by (apply Z.pow_pos_nonneg; lia).
  destruct (shr_m r2) as [|m|m] eqn:Hr2; try lia.
  assert (Hle : (e2 <=? emax - prec) = true) by (apply Z.leb_le; lia).
  rewrite Hle.
  exists m, e2. split; [reflexivity|].
  split; [apply Zdigits2_unique; lia|].
  split; [lia|].
  exists e1, M.
  pose proof (located_bounds _ _ _ Hloc1) as [C1 C2].
  destruct Hm1 as [Hm1a Hm1b].
  apply IZR_le in Hm1a. assert (Hm1c : shr_m r1 + 1 <= 2 ^ prec) by lia.
  apply IZR_le in Hm1c. rewrite plus_IZR in Hm1c.
  rewrite !IZR_pow2_bpow in * by lia.
  pose proof (bpow_pos e1) as He1.
  set (X1 := (x * bpow (- e1))%R) in *.
  assert (Hx : x = (X1 * bpow e1)%R).
  { unfold X1. rewrite Rmult_assoc, <- bpow_add. replace (- e1 + e1) with 0 by lia.
    rewrite bpow_0. ring. }
  clearbody X1. subst x.
  split; [|split].
  - rewrite !bpow_add.
    split.
    + apply Rmult_le_compat_r; lra.
    + apply Rmult_lt_compat_r; lra.
  - exact Hval.
  - rewrite Hval. unfold F2R.
    rewrite <- Rmult_minus_distr_r, Rabs_mult.
    rewrite (Rabs_pos_eq (bpow e1)) by lra.
    apply Rle_trans with (/ 2 * bpow e1)%R; [|lra].
    apply Rmult_le_compat_r; lra.
Qed.


(** *** Consequences of [nearest] *)

Lemma nearest_range x f :
  nearest x f ->
  exists e0, (bpow (prec - 1 + e0) <= x < bpow (prec + e0))%R /\
             (bpow (prec - 1 + e0) <= f <= bpow (prec + e0))%R.
Proof.
  intros (e0 & M & [Hx1 Hx2] & Hf & Habs).
  exists e0. split; [split; assumption|].
  pose proof (bpow_pos e0) as He0.
  apply Rabs_le_inv in Habs.
  rewrite !bpow_add in *.
  subst f. unfold F2R in *.
  rewrite (bpow_IZR (prec - 1)) in * by lia.
  rewrite (bpow_IZR prec) in * by lia.
  split.
  - apply Rmult_le_compat_r; [lra|].
    apply IZR_le.
    assert (IZR (2 ^ (prec - 1)) < IZR (M + 1))%R; [|apply lt_IZR in H; lia].
    rewrite plus_IZR. apply Rmult_lt_reg_r with (bpow e0); [assumption|]. lra.
  - apply Rmult_le_compat_r; [lra|].
    apply IZR_le.
    assert (IZR M < IZR (2 ^ prec + 1))%R; [|apply lt_IZR in H; lia].
    rewrite plus_IZR. apply Rmult_lt_reg_r with (bpow e0); [assumption|]. lra.
Qed.

Lemma nearest_pos x f : nearest x f -> (0 < x /\ 0 < f)%R.
Proof.
  intros H. destruct (nearest_range x f H) as (e0 & [H1 H2] & [H3 H4]).
  pose proof (bpow_pos (prec - 1 + e0)). lra.
Qed.

(** The standard model: the relative error is at most [2^-prec]. *)
Lemma nearest_error x f :
  nearest x f -> (Rabs (f - x) <= x * bpow (- prec))%R.
Proof.
  intros (e0 & M & [Hx1 Hx2] & Hf & Habs).
  apply Rle_trans with (1 := Habs).
  apply Rle_trans with (bpow (prec - 1 + e0) * bpow (- prec))%R.
  - rewrite <- bpow_add. replace (prec - 1 + e0 + - prec) with (e0 + -1) by lia.
    rewrite bpow_add, bpow_m1. lra.
  - apply Rmult_le_compat_r; [|assumption]. pose proof (bpow_pos (- prec)). lra.
Qed.

Lemma nearest_upper x f : nearest x f -> (f <= x * (1 + bpow (- prec)))%R.
Proof. intros H. apply nearest_error in H. apply Rabs_le_inv in H. lra. Qed.

Lemma nearest_lower x f : nearest x f -> (x * (1 - bpow (- prec)) <= f)%R.
Proof. intros H. apply nearest_error in H. apply Rabs_le_inv in H. lra. Qed.


(** A number with at most [prec] significant bits is its own rounding. *)
Lemma nearest_exact K e f :
  0 < K < 2 ^ prec ->
  nearest (F2R K e) f -> f = F2R K e.
Proof.
  intros [HK1 HK2] (e0 & M & [Hx1 Hx2] & Hf & Habs).
  pose proof (bpow_pos e0) as He0. pose proof (bpow_pos e) as He.
  assert (Hle : e0 <= e).
  { destruct (Z_lt_le_dec e e0) as [Hl|]; [exfalso|assumption].
    assert (bpow (prec + e) <= bpow (prec - 1 + e0))%R by (apply bpow_le; lia).
    assert (F2R K e < bpow (prec + e))%R; [|lra].
    unfold F2R. rewrite bpow_add. apply Rmult_lt_compat_r; [assumption|].
    rewrite <- IZR_pow2_bpow by lia. now apply IZR_lt. }
  assert (HF : F2R K e = F2R (K * 2 ^ (e - e0)) e0).
  { unfold F2R. rewrite mult_IZR, IZR_pow2_bpow by lia.
    rewrite Rmult_assoc, <- bpow_add. f_equal; try f_equal; lia. }
  rewrite HF in *. subst f. unfold F2R in *.
  rewrite <- Rmult_minus_distr_r, Rabs_mult, (Rabs_pos_eq (bpow e0)) in Habs by lra.
  assert (Rabs (IZR M - IZR (K * 2 ^ (e - e0))) <= / 2)%R.
  { apply Rmult_le_reg_r with (bpow e0); [assumption|]. lra. }
  rewrite <- minus_IZR in H.
  assert (M - K * 2 ^ (e - e0) = 0); [|replace M with (K * 2 ^ (e - e0)) by lia; reflexivity].
  apply Rabs_le_inv in H. destruct H as [H1 H2].
  assert (IZR (-1) < IZR (M - K * 2 ^ (e - e0)))%R by (simpl; lra).
  assert (IZR (M - K * 2 ^ (e - e0)) < IZR 1)%R by (simpl; lra).
  apply lt_IZR in H, H0. lia.
Qed.


(** *** Normal numbers and the operations on them *)

Lemma normal_bounds s f v :
  normal s f v -> exists e, emin <= e <= emax - prec /\
                            (bpow (prec - 1 + e) <= v < bpow (prec + e))%R.
Proof.
  intros (m & e & _ & Hd & He & Hv).
  exists e. split; [assumption|].
  pose proof (Zdigits2_bounds (Z.pos m) ltac:(lia)) as [D1 D2].
  rewrite Hd in D1, D2.
  apply IZR_le in D1. apply IZR_lt in D2.
  rewrite !IZR_pow2_bpow in * by lia.
  pose proof (bpow_pos e).
  subst v. unfold F2R. rewrite !bpow_add.
  split; [apply Rmult_le_compat_r | apply Rmult_lt_compat_r]; lra.
Qed.

Lemma normal_pos s f v : normal s f v -> (0 < v)%R.
Proof.
  intros H. destruct (normal_bounds s f v H) as (e & _ & H1 & _).
  pose proof (bpow_pos (prec - 1 + e)). lra.
Qed.

Lemma binary_round_aux_normal sx mx ex lx x :
  0 < mx ->
  located (x * bpow (- ex)) mx lx ->
  prec <= Zdigits2 mx ->
  in_range x ->
  exists z, normal sx (binary_round_aux prec emax sx mx ex lx) z /\ nearest x z.
Proof.
  intros Hmx Hloc Hd [R1 R2].
  pose proof (located_bounds _ _ _ Hloc) as [B1 B2].
  pose proof (Zdigits2_bounds mx Hmx) as [D1 D2].
  pose proof (Zdigits2_pos mx Hmx) as Hd0.
  set (d := Zdigits2 mx) in *.
  apply IZR_le in D1. assert (D2' : mx + 1 <= 2 ^ d) by lia.
  apply IZR_le in D2'. rewrite plus_IZR in D2'.
  rewrite !IZR_pow2_bpow in * by lia.
  pose proof (bpow_pos ex) as Hex.
  assert (Hx : x = (x * bpow (- ex) * bpow ex)%R).
  { rewrite Rmult_assoc, <- bpow_add. replace (- ex + ex) with 0 by lia.
    rewrite bpow_0. ring. }
  assert (X1 : (bpow (d - 1 + ex) <= x)%R).
  { rewrite Hx, bpow_add. apply Rmult_le_compat_r; lra. }
  assert (X2 : (x < bpow (d + ex))%R).
  { rewrite Hx, bpow_add. apply Rmult_lt_compat_r; lra. }
  assert (E1 : emin + prec < d + ex) by (apply bpow_lt_inv; lra).
  assert (E2 : d - 1 + ex < emax - 1) by (apply bpow_lt_inv; lra).
  destruct (binary_round_aux_nearest sx mx ex lx x Hmx Hloc Hd) as (m & e & Hr & Hdm & He & Hn).
  - fold d. lia.
  - fold d. lia.
  - exists (F2R (Z.pos m) e). split; [|exact Hn].
    exists m, e. fold d in He. repeat split; try assumption; lia.
Qed.

Lemma shl_align_spec mx ex ex' :
  ex' <= ex ->
  exists mz, shl_align mx ex ex' = (mz, ex') /\ Z.pos mz = Z.pos mx * 2 ^ (ex - ex').
Proof.
  intros Hle. unfold shl_align.
  destruct (ex' - ex) as [|k|k] eqn:Hk; try lia.
  - exists mx. replace ex' with ex by lia. rewrite Z.sub_diag. split; [reflexivity | simpl; lia].
  - exists (Pos.iter xO mx k). split; [reflexivity|].
    change (Pos.iter xO mx k) with (shift_pos k mx).
    rewrite shift_pos_correct. replace (ex - ex') with (Z.pos k) by lia.
    change (2 ^ Z.pos k) with (Z.pow_pos 2 k). lia.
Qed.

Lemma shl_align_keep mx ex ex' :
  ex <= ex' -> shl_align mx ex ex' = (mx, ex).
Proof.
  intros Hle. unfold shl_align.
  destruct (ex' - ex) as [|k|k] eqn:Hk; try lia; reflexivity.
Qed.

Lemma Zdigits2_shift m k : 0 < m -> 0 <= k -> Zdigits2 (m * 2 ^ k) = Zdigits2 m + k.
Proof.
  intros Hm Hk.
  pose proof (Zdigits2_bounds m Hm) as [D1 D2].
  pose proof (Zdigits2_pos m Hm).
  assert (0 < 2 ^ k) by (apply Z.pow_pos_nonneg; lia).
  apply Zdigits2_unique; [nia|].
  replace (Zdigits2 m + k - 1) with ((Zdigits2 m - 1) + k) by lia.
  rewrite !Z.pow_add_r by lia. split; nia.
Qed.

Lemma binary_round_normal sx mx ex :
  in_range (F2R (Z.pos mx) ex) ->
  exists z, normal sx (binary_round prec emax sx mx ex) z /\
            nearest (F2R (Z.pos mx) ex) z.
Proof.
  intros HR. pose proof HR as [R1 R2].
  set (d := Zdigits2 (Z.pos mx)).
  pose proof (Zdigits2_bounds (Z.pos mx) ltac:(lia)) as [D1 D2]. fold d in D1, D2.
  pose proof (Zdigits2_pos (Z.pos mx) ltac:(lia)) as Hd0. fold d in Hd0.
  apply IZR_le in D1. apply IZR_lt in D2.
  rewrite !IZR_pow2_bpow in * by lia.
  pose proof (bpow_pos ex) as Hex.
  assert (X2 : (F2R (Z.pos mx) ex < bpow (d + ex))%R).
  { unfold F2R. rewrite bpow_add. apply Rmult_lt_compat_r; lra. }
  assert (E1 : emin + prec < d + ex) by (apply bpow_lt_inv; lra).
  unfold binary_round. change (Z.pos (digits2_pos mx)) with d.
  unfold SpecFloat.fexp. rewrite Z.max_l by lia.
  destruct (Z_lt_le_dec d prec) as [Hlt|Hge].
  - destruct (shl_align_spec mx ex (d + ex - prec) ltac:(lia)) as (mz & Hs & Hmz).
    rewrite Hs.
    assert (Hk : 0 < ex - (d + ex - prec)) by lia.
    apply binary_round_aux_normal; try assumption; try lia.
    + cbn [located]. rewrite Hmz, mult_IZR, IZR_pow2_bpow by lia.
      unfold F2R. rewrite Rmult_assoc, <- bpow_add. f_equal; try f_equal; lia.
    + rewrite Hmz, Zdigits2_shift by lia. fold d. lia.
  - rewrite shl_align_keep by lia.
    apply binary_round_aux_normal; try assumption; try lia.
    cbn [located]. unfold F2R. rewrite Rmult_assoc, <- bpow_add.
    replace (ex + - ex) with 0 by lia. rewrite bpow_0. ring.
Qed.

Lemma binary_round_exact sx mx ex :
  Z.pos mx < 2 ^ prec ->
  in_range (F2R (Z.pos mx) ex) ->
  normal sx (binary_round prec emax sx mx ex) (F2R (Z.pos mx) ex).
Proof.
  intros Hm HR.
  destruct (binary_round_normal sx mx ex HR) as (z & Hz & Hn).
  apply nearest_exact in Hn; [|lia]. now subst z.
Qed.

(** Location of a quotient from the remainder. *)
Lemma new_location_located my q r X :
  0 < my -> 0 <= r < my ->
  (X * IZR my = IZR q * IZR my + IZR r)%R ->
  located X q (new_location my r).
Proof.
  intros Hmy [Hr1 Hr2] HX.
  assert (Hmy' : (0 < IZR my)%R) by (apply IZR_lt; assumption).
  unfold new_location.
  destruct (Z.even my) eqn:Hev;
    [unfold new_location_even | unfold new_location_odd];
    (destruct (Z.eqb_spec r 0) as [Hr0|Hr0]; [subst r; cbn [located]; nra|]);
    assert (Hrp : (0 < IZR r)%R) by (apply IZR_lt; lia).
  - destruct (Z.compare_spec (2 * r) my) as [Hc|Hc|Hc].
    + apply (f_equal IZR) in Hc. rewrite mult_IZR in Hc. cbn [located].
      apply Rmult_eq_reg_r with (IZR my); [nra | lra].
    + apply IZR_lt in Hc. rewrite mult_IZR in Hc. cbn [located]. split; nra.
    + apply IZR_lt in Hc. rewrite mult_IZR in Hc. apply IZR_lt in Hr2.
      cbn [located]. split; nra.
  - assert (Hodd : 2 * r <> my).
    { intros E. rewrite <- E, Z.even_mul in Hev. discriminate. }
    destruct (Z.compare_spec (2 * r + 1) my) as [Hc|Hc|Hc].
    + assert (Hc' : 2 * r < my) by lia. apply IZR_lt in Hc'.
      rewrite mult_IZR in Hc'. cbn [located]. split; nra.
    + assert (Hc' : 2 * r < my) by lia. apply IZR_lt in Hc'.
      rewrite mult_IZR in Hc'. cbn [located]. split; nra.
    + assert (Hc' : my < 2 * r) by lia. apply IZR_lt in Hc'.
      rewrite mult_IZR in Hc'. apply IZR_lt in Hr2. cbn [located]. split; nra.
Qed.


Lemma match_Zpos {A : Type} (s : Z) (a b c : A) :
  0 < s -> match s with Z.pos _ => a | Z0 => b | Z.neg _ => c end = a.
Proof. destruct s; intros; try lia; reflexivity. Qed.

Lemma SFdiv_core_binary_spec mx ex my ey :
  Zdigits2 (Z.pos mx) = prec -> Zdigits2 (Z.pos my) = prec ->
  emin <= ex - ey - prec ->
  exists q r,
    SFdiv_core_binary prec emax (Z.pos mx) ex (Z.pos my) ey
      = (q, ex - ey - prec, new_location (Z.pos my) r) /\
    Z.pos mx * 2 ^ prec = Z.pos my * q + r /\ 0 <= r < Z.pos my.
Proof.
  intros Hdx Hdy Hmin.
  unfold SFdiv_core_binary. rewrite Hdx, Hdy.
  unfold SpecFloat.fexp.
  replace (prec + ex - (prec + ey) - prec) with (ex - ey - prec) by lia.
  rewrite Z.max_l by lia. rewrite Z.min_l by lia.
  replace (ex - ey - (ex - ey - prec)) with prec by lia.
  rewrite (match_Zpos prec) by assumption.
  rewrite Z.shiftl_mul_pow2 by lia.
  pose proof (Z_div_mod (Z.pos mx * 2 ^ prec) (Z.pos my) ltac:(lia)) as Hdm.
  destruct (Z.div_eucl (Z.pos mx * 2 ^ prec) (Z.pos my)) as [q r].
  exists q, r. split; [reflexivity | exact Hdm].
Qed.

Lemma SFdiv_normal sx sy X Y x y :
  normal sx X x -> normal sy Y y -> in_range (x / y) ->
  exists z, normal (xorb sx sy) (SFdiv prec emax X Y) z /\ nearest (x / y) z.
Proof.
  intros HX HY HR.
  pose proof (normal_bounds _ _ _ HX) as (ex' & _ & X1 & X2).
  pose proof (normal_bounds _ _ _ HY) as (ey' & _ & Y1 & Y2).
  destruct HX as (mx & ex & -> & Hdx & Hex & Hx).
  destruct HY as (my & ey & -> & Hdy & Hey & Hy).
  clear ex' ey' X1 X2 Y1 Y2.
  pose proof (Zdigits2_bounds (Z.pos mx) ltac:(lia)) as [Dx1 Dx2].
  pose proof (Zdigits2_bounds (Z.pos my) ltac:(lia)) as [Dy1 Dy2].
  rewrite Hdx in Dx1, Dx2. rewrite Hdy in Dy1, Dy2.
  assert (Hpp : 2 ^ prec = 2 * 2 ^ (prec - 1)).
  { replace prec with ((prec - 1) + 1) at 1 by lia. rewrite Z.pow_add_r by lia. lia. }
  assert (Hp1 : 0 < 2 ^ (prec - 1)) by (apply Z.pow_pos_nonneg; lia).
  pose proof (bpow_pos ex) as Bex. pose proof (bpow_pos ey) as Bey.
  assert (Hmx : (0 < IZR (Z.pos mx))%R) by (apply IZR_lt; lia).
  assert (Hmy : (0 < IZR (Z.pos my))%R) by (apply IZR_lt; lia).
  assert (Hypos : (0 < y)%R) by (subst y; unfold F2R; nra).
  (* the quotient is below 2^(ex - ey + 1) *)
  assert (Hq : (x / y < bpow (ex - ey + 1))%R).
  { apply Rmult_lt_reg_r with y; [assumption|].
    replace (x / y * y)%R with x by (field; lra).
    subst x y. unfold F2R.
    apply IZR_lt in Dx2. apply IZR_le in Dy1.
    rewrite !IZR_pow2_bpow in * by lia.
    replace (ex - ey + 1) with (ex + (1 + - ey)) by lia.
    rewrite !bpow_add, bpow_1, bpow_opp.
    assert (bpow prec = 2 * bpow (prec - 1))%R.
    { replace prec with ((prec - 1) + 1) at 1 by lia. rewrite bpow_add, bpow_1. ring. }
    replace (bpow ex * (2 * / bpow ey) * (IZR (Z.pos my) * bpow ey))%R
      with (2 * IZR (Z.pos my) * bpow ex)%R by (field; lra).
    apply Rmult_lt_compat_r; [assumption|]. lra. }
  destruct HR as [R1 R2].
  assert (Hmin : emin <= ex - ey - prec).
  { assert (emin + prec < ex - ey + 1) by (apply bpow_lt_inv; lra). lia. }
  destruct (SFdiv_core_binary_spec mx ex my ey Hdx Hdy Hmin) as (q & r & Hcore & Hqr & Hr).
  cbn [SFdiv]. rewrite Hcore.
  assert (Hq1 : 2 ^ (prec - 1) <= q) by nia.
  apply binary_round_aux_normal.
  - lia.
  - apply new_location_located; [lia | assumption |].
    apply (f_equal IZR) in Hqr.
    rewrite plus_IZR, !mult_IZR, IZR_pow2_bpow in Hqr by lia.
    rewrite (Rmult_comm (IZR q)), <- Hqr.
    subst x y. unfold F2R.
    replace (- (ex - ey - prec)) with (prec + ey + - ex) by lia.
    rewrite !bpow_add, bpow_opp. field. lra.
  - destruct (Z_lt_le_dec (Zdigits2 q) prec) as [Hlt|]; [exfalso|assumption].
    pose proof (Zdigits2_bounds q ltac:(lia)) as [_ D2].
    assert (2 ^ Zdigits2 q <= 2 ^ (prec - 1)) by (apply Z.pow_le_mono_r; lia).
    lia.
  - split; assumption.
Qed.

Lemma SFmul_normal sx sy X Y x y :
  normal sx X x -> normal sy Y y -> in_range (x * y) ->
  exists z, normal (xorb sx sy) (SFmul prec emax X Y) z /\ nearest (x * y) z.
Proof.
  intros HX HY HR.
  destruct HX as (mx & ex & -> & Hdx & Hex & Hx).
  destruct HY as (my & ey & -> & Hdy & Hey & Hy).
  pose proof (Zdigits2_bounds (Z.pos mx) ltac:(lia)) as [Dx1 Dx2].
  pose proof (Zdigits2_bounds (Z.pos my) ltac:(lia)) as [Dy1 Dy2].
  rewrite Hdx in Dx1, Dx2. rewrite Hdy in Dy1, Dy2.
  assert (Hp1 : 1 <= 2 ^ (prec - 1)) by (apply (Z.pow_le_mono_r 2 0); lia).
  cbn [SFmul].
  apply binary_round_aux_normal.
  - lia.
  - cbn [located]. subst x y. unfold F2R.
    rewrite Pos2Z.inj_mul, mult_IZR.
    replace (- (ex + ey)) with (- ex + - ey) by lia.
    rewrite bpow_add, !bpow_opp.
    pose proof (bpow_pos ex). pose proof (bpow_pos ey). field. lra.
  - destruct (Z_lt_le_dec (Zdigits2 (Z.pos (mx * my))) prec) as [Hlt|]; [exfalso|assumption].
    pose proof (Zdigits2_bounds (Z.pos (mx * my)) ltac:(lia)) as [_ D2].
    set (d := Zdigits2 (Z.pos (mx * my))) in *.
    assert (2 ^ d <= 2 ^ (prec - 1)) by (apply Z.pow_le_mono_r; lia).
    rewrite Pos2Z.inj_mul in D2. nia.
  - assumption.
Qed.

Lemma SFadd_finite mx ex my ey :
  in_range (F2R (Z.pos mx) ex + F2R (Z.pos my) ey) ->
  exists z,
    normal false (SFadd prec emax (S754_finite false mx ex) (S754_finite false my ey)) z /\
    nearest (F2R (Z.pos mx) ex + F2R (Z.pos my) ey) z.
Proof.
  intros HR. cbn [SFadd cond_Zopp].
  destruct (shl_align_spec mx ex (Z.min ex ey) ltac:(lia)) as (ax & Hax & Vax).
  destruct (shl_align_spec my ey (Z.min ex ey) ltac:(lia)) as (ay & Hay & Vay).
  rewrite Hax, Hay. cbn [fst binary_normalize Z.add].
  assert (E : (F2R (Z.pos mx) ex + F2R (Z.pos my) ey)%R
              = F2R (Z.pos (ax + ay)) (Z.min ex ey)).
  { unfold F2R. rewrite Pos2Z.inj_add, plus_IZR, Vax, Vay, !mult_IZR.
    rewrite !IZR_pow2_bpow by lia.
    rewrite Rmult_plus_distr_r, !Rmult_assoc, <- !bpow_add.
    f_equal; f_equal; f_equal; lia. }
  rewrite E in *. now apply binary_round_normal.
Qed.

Lemma SFsub_finite mx ex my ey :
  in_range (F2R (Z.pos mx) ex - F2R (Z.pos my) ey) ->
  exists z,
    normal false (SFsub prec emax (S754_finite false mx ex) (S754_finite false my ey)) z /\
    nearest (F2R (Z.pos mx) ex - F2R (Z.pos my) ey) z.
Proof.
  intros HR. cbn [SFsub cond_Zopp].
  destruct (shl_align_spec mx ex (Z.min ex ey) ltac:(lia)) as (ax & Hax & Vax).
  destruct (shl_align_spec my ey (Z.min ex ey) ltac:(lia)) as (ay & Hay & Vay).
  rewrite Hax, Hay. cbn [fst].
  assert (E : (F2R (Z.pos mx) ex - F2R (Z.pos my) ey)%R
              = F2R (Z.pos ax - Z.pos ay) (Z.min ex ey)).
  { unfold F2R. rewrite minus_IZR, Vax, Vay, !mult_IZR.
    rewrite !IZR_pow2_bpow by lia.
    rewrite Rmult_minus_distr_r, !Rmult_assoc, <- !bpow_add.
    f_equal; f_equal; f_equal; lia. }
  rewrite E in *.
  assert (Hpos : 0 < Z.pos ax - Z.pos ay).
  { destruct HR as [R1 _]. pose proof (bpow_pos (emin + prec)).
    pose proof (bpow_pos (Z.min ex ey)). unfold F2R in R1.
    apply lt_IZR. nra. }
  destruct (Z.pos ax - Z.pos ay) as [|k|k] eqn:Hk; try lia.
  cbn [binary_normalize]. now apply binary_round_normal.
Qed.

(** Conversion of a positive integer. *)
Lemma binary_normalize_Z n :
  0 < n -> in_range (IZR n) ->
  exists z, normal false (binary_normalize prec emax n 0 false) z /\ nearest (IZR n) z.
Proof.
  intros Hn HR. destruct n as [|p|p]; try lia.
  cbn [binary_normalize].
  replace (IZR (Z.pos p)) with (F2R (Z.pos p) 0) in * by (unfold F2R; rewrite bpow_0; ring).
  now apply binary_round_normal.
Qed.

Lemma binary_normalize_Z_exact n :
  0 < n < 2 ^ prec -> in_range (IZR n) ->
  normal false (binary_normalize prec emax n 0 false) (IZR n).
Proof.
  intros Hn HR. destruct n as [|p|p]; try lia.
  cbn [binary_normalize].
  replace (IZR (Z.pos p)) with (F2R (Z.pos p) 0) in * by (unfold F2R; rewrite bpow_0; ring).
  apply binary_round_exact; [lia | assumption].
Qed.

(** Comparison of normal numbers follows the order of their values. *)
Lemma SFcompare_normal X Y x y :
  normal false X x -> normal false Y y ->
  SFcompare X Y = Some (if Rlt_dec x y then Lt else if Rlt_dec y x then Gt else Eq).
Proof.
  intros HX HY.
  destruct HX as (mx & ex & -> & Hdx & Hex & Hx).
  destruct HY as (my & ey & -> & Hdy & Hey & Hy).
  pose proof (Zdigits2_bounds (Z.pos mx) ltac:(lia)) as [Dx1 Dx2].
  pose proof (Zdigits2_bounds (Z.pos my) ltac:(lia)) as [Dy1 Dy2].
  rewrite Hdx in Dx1, Dx2. rewrite Hdy in Dy1, Dy2.
  apply IZR_le in Dx1, Dy1. apply IZR_lt in Dx2, Dy2.
  rewrite !IZR_pow2_bpow in * by lia.
  pose proof (bpow_pos ex) as Bex. pose proof (bpow_pos ey) as Bey.
  assert (Hpp : (bpow prec = 2 * bpow (prec - 1))%R).
  { replace prec with ((prec - 1) + 1) at 1 by lia. rewrite bpow_add, bpow_1. ring. }
  cbn [SFcompare]. f_equal.
  destruct (Z.compare_spec ex ey) as [He|He|He].
  - subst ey. rewrite Pos.compare_cont_spec. cbn [Pos.switch_Eq].
    subst x y. unfold F2R.
    destruct (Pos.compare_spec mx my) as [Hm|Hm|Hm].
    + subst my. destruct (Rlt_dec _ _); [lra|]. reflexivity.
    + apply Pos2Z.pos_lt_pos in Hm. apply IZR_lt in Hm.
      destruct (Rlt_dec _ _) as [|Hn]; [reflexivity|]. exfalso. apply Hn. nra.
    + apply Pos2Z.pos_lt_pos in Hm. apply IZR_lt in Hm.
      destruct (Rlt_dec _ _) as [Hl|_]; [exfalso; nra|].
      destruct (Rlt_dec _ _) as [|Hn]; [reflexivity|]. exfalso. apply Hn. nra.
  - assert (Hb : (bpow (prec + ex) <= bpow (prec - 1 + ey))%R) by (apply bpow_le; lia).
    rewrite !bpow_add in Hb.
    assert (x < y)%R by (subst x y; unfold F2R; nra).
    destruct (Rlt_dec x y); [reflexivity | contradiction].
  - assert (Hb : (bpow (prec + ey) <= bpow (prec - 1 + ex))%R) by (apply bpow_le; lia).
    rewrite !bpow_add in Hb.
    assert (y < x)%R by (subst x y; unfold F2R; nra).
    destruct (Rlt_dec x y); [lra|].
    destruct (Rlt_dec y x); [reflexivity | contradiction].
Qed.

End Rounding.

(** Truncation is the floor of a non-negative value. *)
Lemma SFtrunc_floor m e :
  exists z, SFtrunc (S754_finite false m e) = Some z /\ 0 <= z /\
            (IZR z <= F2R (Z.pos m) e < IZR z + 1)%R.
Proof.
  cbn [SFtrunc cond_Zopp]. eexists. split; [reflexivity|].
  unfold F2R.
  destruct (Z_lt_le_dec e 0) as [Hneg|Hpos].
  - rewrite Z.shiftl_div_pow2 by lia.
    assert (Hp : 0 < 2 ^ (- e)) by (apply Z.pow_pos_nonneg; lia).
    pose proof (Z.div_mod (Z.pos m) (2 ^ (- e)) ltac:(lia)) as Hdm.
    pose proof (Z.mod_pos_bound (Z.pos m) (2 ^ (- e)) Hp) as [Hm1 Hm2].
    set (q := Z.pos m / 2 ^ (- e)) in *. set (r := Z.pos m mod 2 ^ (- e)) in *.
    split; [apply Z.div_pos; lia|].
    assert (Hb : bpow e = (/ IZR (2 ^ (- e)))%R).
    { rewrite <- bpow_IZR, <- bpow_opp by lia. f_equal. lia. }
    rewrite Hb. clear Hb.
    apply (f_equal IZR) in Hdm. rewrite plus_IZR, mult_IZR in Hdm. rewrite Hdm.
    apply IZR_le in Hm1. apply IZR_lt in Hm2. apply IZR_lt in Hp.
    set (P := IZR (2 ^ (- e))) in *.
    replace ((P * IZR q + IZR r) * / P)%R with (IZR q + IZR r * / P)%R by (field; lra).
    assert (0 <= IZR r * / P < 1)%R; [|lra].
    split.
    + apply Rmult_le_pos; [lra|]. left. apply Rinv_0_lt_compat. lra.
    + apply Rmult_lt_reg_r with P; [lra|].
      replace (IZR r * / P * P)%R with (IZR r) by (field; lra). lra.
  - rewrite Z.shiftl_mul_pow2 by lia.
    assert (Hp : 0 < 2 ^ e) by (apply Z.pow_pos_nonneg; lia).
    split; [lia|].
    rewrite mult_IZR, IZR_pow2_bpow by lia. lra.
Qed.

(** *** Underflow *)

(** Below the normal range the mantissa is cut at the smallest exponent:
    the result is [+-0] or a number with fewer than [prec] digits (or the
    smallest normal number), at most half a unit of that exponent away. *)
Lemma binary_round_aux_underflow prec emax sx mx ex lx x :
  0 < prec ->
  0 < mx ->
  located (x * bpow (- ex)) mx lx ->
  ex <= emin prec emax ->
  Zdigits2 mx + ex - prec < emin prec emax ->
  emin prec emax <= emax - prec ->
  exists M,
    0 <= M <= 2 ^ (prec - 1) /\
    binary_round_aux prec emax sx mx ex lx
    = match M with
      | Z0 => S754_zero sx
      | Zpos m => S754_finite sx m (emin prec emax)
      | Zneg _ => S754_nan
      end /\
    (Rabs (F2R M (emin prec emax) - x) <= bpow (emin prec emax) / 2)%R.
Proof.
  intros Hprec Hmx Hloc Hex Hd Hem.
  set (em := emin prec emax) in *.
  set (d := Zdigits2 mx) in *.
  assert (Hr : exists r1, shr_fexp prec emax mx ex lx = (r1, em) /\
               0 <= shr_m r1 /\ located_rec (x * bpow (- em)) r1).
  { unfold shr_fexp. fold d. unfold SpecFloat.fexp. fold em.
    rewrite Z.max_r by lia.
    unfold shr.
    destruct (em - ex) as [|p|p] eqn:Hn; try lia.
    - exists (shr_record_of_loc mx lx).
      replace em with ex by lia.
      split; [reflexivity|].
      unfold located_rec. rewrite shr_m_record_of_loc, loc_of_record_of_loc.
      split; [lia | assumption].
    - destruct (iter_shr_1_located p (x * bpow (- ex)) (shr_record_of_loc mx lx))
        as [H1 H2].
      + rewrite shr_m_record_of_loc. lia.
      + unfold located_rec. now rewrite shr_m_record_of_loc, loc_of_record_of_loc.
      + exists (SpecFloat.iter_pos shr_1 p (shr_record_of_loc mx lx)).
        replace (ex + Z.pos p) with em by lia.
        split; [reflexivity|]. split; [assumption|].
        replace (x * bpow (- em))%R with (x * bpow (- ex) * bpow (- Z.pos p))%R;
          [assumption|].
        rewrite Rmult_assoc, <- bpow_add. f_equal; try f_equal; lia. }
  destruct Hr as (r1 & Hs1 & Hpos & Hloc1).
  unfold located_rec in Hloc1.
  pose proof (located_bounds _ _ _ Hloc) as [B1 B2].
  pose proof (located_bounds _ _ _ Hloc1) as [C1 C2].
  pose proof (Zdigits2_bounds mx Hmx) as [D1 D2]. fold d in D1, D2.
  assert (Hd0 : 0 < d) by (apply Zdigits2_pos; assumption).
  assert (D2' : mx + 1 <= 2 ^ d) by lia.
  apply IZR_le in D2'. rewrite plus_IZR in D2'.
  rewrite IZR_pow2_bpow in D2' by lia.
  assert (E : (x * bpow (- em) = x * bpow (- ex) * bpow (ex - em))%R).
  { rewrite Rmult_assoc, <- bpow_add. f_equal; try f_equal; lia. }
  pose proof (bpow_pos (ex - em)) as Hp.
  assert (F2 : (x * bpow (- em) < bpow (prec - 1))%R).
  { rewrite E.
    apply Rlt_le_trans with (bpow d * bpow (ex - em))%R.
    - apply Rmult_lt_compat_r; lra.
    - rewrite <- bpow_add. apply bpow_le. lia. }
  rewrite <- (IZR_pow2_bpow (prec - 1)) in F2 by lia.
  assert (Hm1 : shr_m r1 < 2 ^ (prec - 1)) by (apply lt_IZR; lra).
  destruct (round_nearest_even_spec _ _ _ Hloc1) as [HM Habs].
  set (M := round_nearest_even (shr_m r1) (loc_of_shr_record r1)) in *.
  assert (HMr : 0 <= M <= 2 ^ (prec - 1)) by lia.
  assert (Hs2 : shr_fexp prec emax M em loc_Exact = (shr_record_of_loc M loc_Exact, em)).
  { unfold shr_fexp. unfold SpecFloat.fexp. fold em.
    assert (HdM : Zdigits2 M <= prec).
    { destruct (Z.eq_dec M 0) as [->|Hne]; [simpl; lia|].
      pose proof (Zdigits2_bounds M ltac:(lia)) as [E1 _].
      destruct (Z_lt_le_dec prec (Zdigits2 M)) as [Hgt|]; [exfalso|assumption].
      assert (2 ^ prec <= 2 ^ (Zdigits2 M - 1)) by (apply Z.pow_le_mono_r; lia).
      assert (2 ^ (prec - 1) < 2 ^ prec) by (apply Z.pow_lt_mono_r; lia).
      lia. }
    rewrite Z.max_r by lia.
    rewrite Z.sub_diag. reflexivity. }
  exists M. split; [exact HMr|].
  split.
  - unfold binary_round_aux. rewrite Hs1. fold M. rewrite Hs2.
    rewrite shr_m_record_of_loc.
    destruct M as [|m|m]; try reflexivity.
    assert (Hle : (em <=? emax - prec) = true) by (apply Z.leb_le; lia).
    rewrite Hle. reflexivity.
  - pose proof (bpow_pos em) as Hem'.
    set (X1 := (x * bpow (- em))%R) in *.
    assert (Hx : x = (X1 * bpow em)%R).
    { unfold X1. rewrite Rmult_assoc, <- bpow_add. replace (- em + em) with 0 by lia.
      rewrite bpow_0. ring. }
    rewrite Hx. unfold F2R.
    rewrite <- Rmult_minus_distr_r, Rabs_mult.
    rewrite (Rabs_pos_eq (bpow em)) by lra.
    apply Rle_trans with (/ 2 * bpow em)%R; [|lra].
    apply Rmult_le_compat_r; lra.
Qed.

(** The product of two positive numbers, the second one normal, is [+0]
    or a positive number of the format; it misses the exact product by
    the relative error of a normal rounding, or by half the smallest
    unit when it underflows. *)
Lemma SFmul_positive prec emax mx ex my ey :
  1 < prec -> emin prec emax <= emax - prec ->
  Zdigits2 (Z.pos my) = prec ->
  (F2R (Z.pos mx) ex * F2R (Z.pos my) ey < bpow (emax - 1))%R ->
  exists M e,
    0 <= M < 2 ^ prec /\ emin prec emax <= e <= emax - prec /\
    (M <> 0 -> SpecFloat.fexp prec emax (Zdigits2 M + e) = e) /\
    SFmul prec emax (S754_finite false mx ex) (S754_finite false my ey)
    = match M with
      | Z0 => S754_zero false
      | Zpos m => S754_finite false m e
      | Zneg _ => S754_nan
      end /\
    (Rabs (F2R M e - F2R (Z.pos mx) ex * F2R (Z.pos my) ey)
     <= F2R (Z.pos mx) ex * F2R (Z.pos my) ey * bpow (- prec)
        + bpow (emin prec emax) / 2)%R.
Proof.
  intros Hprec Hem Hdy Hlt.
  set (x := (F2R (Z.pos mx) ex * F2R (Z.pos my) ey)%R) in *.
  set (em := emin prec emax) in *.
  assert (Hloc : located (x * bpow (- (ex + ey))) (Z.pos (mx * my)) loc_Exact).
  { cbn [located]. unfold x, F2R.
    rewrite Pos2Z.inj_mul, mult_IZR.
    replace (- (ex + ey)) with (- ex + - ey) by lia.
    rewrite bpow_add, !bpow_opp.
    pose proof (bpow_pos ex). pose proof (bpow_pos ey). field. lra. }
  pose proof (Zdigits2_bounds (Z.pos my) ltac:(lia)) as [Dy1 Dy2].
  rewrite Hdy in Dy1, Dy2.
  assert (Hp1 : 0 < 2 ^ (prec - 1)) by (apply Z.pow_pos_nonneg; lia).
  set (d := Zdigits2 (Z.pos (mx * my))).
  pose proof (Zdigits2_bounds (Z.pos (mx * my)) ltac:(lia)) as [D1 D2]. fold d in D1, D2.
  assert (Hd : prec <= d).
  { destruct (Z_lt_le_dec d prec) as [Hl|]; [exfalso|assumption].
    assert (2 ^ d <= 2 ^ (prec - 1)) by (apply Z.pow_le_mono_r; lia).
    rewrite Pos2Z.inj_mul in D2. nia. }
  assert (Hxpos : (0 < x)%R).
  { unfold x, F2R. pose proof (bpow_pos ex). pose proof (bpow_pos ey).
    assert (0 < IZR (Z.pos mx))%R by (apply IZR_lt; lia).
    assert (0 < IZR (Z.pos my))%R by (apply IZR_lt; lia).
    apply Rmult_lt_0_compat; apply Rmult_lt_0_compat; assumption. }
  pose proof (bpow_pos em) as Hbem. pose proof (bpow_pos (- prec)) as Hbp.
  cbn [SFmul xorb].
  destruct (Z_lt_le_dec (d + (ex + ey) - prec) em) as [Hu|Hn].
  - (* underflow *)
    destruct (binary_round_aux_underflow prec emax false (Z.pos (mx * my)) (ex + ey)
                loc_Exact x ltac:(lia) ltac:(lia) Hloc ltac:(fold d; fold em; lia)
                ltac:(fold d; fold em; lia) Hem) as (M & HM & Hr & Habs).
    fold em in Hr, Habs.
    exists M, em. split; [|split; [lia|split; [|split; [exact Hr|]]]].
    + assert (2 ^ (prec - 1) < 2 ^ prec) by (apply Z.pow_lt_mono_r; lia). lia.
    + intros Hne. unfold SpecFloat.fexp. fold em.
      pose proof (Zdigits2_bounds M ltac:(lia)) as [E1 _].
      assert (Zdigits2 M <= prec).
      { destruct (Z_lt_le_dec prec (Zdigits2 M)) as [Hgt|]; [exfalso|assumption].
        assert (2 ^ prec <= 2 ^ (Zdigits2 M - 1)) by (apply Z.pow_le_mono_r; lia).
        assert (2 ^ (prec - 1) < 2 ^ prec) by (apply Z.pow_lt_mono_r; lia).
        lia. }
      lia.
    + apply Rle_trans with (1 := Habs).
      assert (0 <= x * bpow (- prec))%R by (apply Rmult_le_pos; lra). lra.
  - (* normal range *)
    assert (Hmax : d + (ex + ey) < emax).
    { pose proof (located_bounds _ _ _ Hloc) as [B1 _].
      apply IZR_le in D1. rewrite IZR_pow2_bpow in D1 by lia.
      pose proof (bpow_pos (ex + ey)) as Hbe.
      assert (Hx : x = (x * bpow (- (ex + ey)) * bpow (ex + ey))%R).
      { rewrite Rmult_assoc, <- bpow_add. replace (- (ex + ey) + (ex + ey)) with 0 by lia.
        rewrite bpow_0. ring. }
      assert (X1 : (bpow (d - 1 + (ex + ey)) <= x)%R).
      { rewrite Hx, bpow_add. apply Rmult_le_compat_r; lra. }
      assert (d - 1 + (ex + ey) < emax - 1) by (apply bpow_lt_inv; lra).
      lia. }
    destruct (binary_round_aux_nearest prec emax ltac:(lia) false (Z.pos (mx * my))
                (ex + ey) loc_Exact x ltac:(lia) Hloc Hd ltac:(fold d; fold em; lia)
                ltac:(fold d; lia)) as (m & e & Hr & Hdm & He & Hnear).
    fold d in He.
    exists (Z.pos m), e. split; [|split; [fold em; lia|split; [|split; [exact Hr|]]]].
    + pose proof (Zdigits2_bounds (Z.pos m) ltac:(lia)) as [_ E2].
      rewrite Hdm in E2. lia.
    + intros _. rewrite Hdm. unfold SpecFloat.fexp. fold em. lia.
    + apply (nearest_error prec) in Hnear.
      apply Rle_trans with (1 := Hnear). lra.
Qed.
(* ===================================================================== *)
(** * Part III: the bin computation in binary32                          *)
(* ===================================================================== *)

Lemma Rdiv_mul_id x y : (y <> 0)%R -> (x / y * y)%R = x.
Proof. intros. field. assumption. Qed.

Lemma bpow_m24 : bpow (-24) = (/ 16777216)%R.
Proof. unfold bpow. simpl. lra. Qed.

Lemma bpow_m40 : bpow (-40) = (/ 1099511627776)%R.
Proof. unfold bpow. simpl. lra. Qed.

Lemma bpow_60 : bpow 60 = 1152921504606846976%R.
Proof. unfold bpow. simpl. lra. Qed.

Lemma in_range32_intro x :
  (/ 1099511627776 <= x < 1152921504606846976)%R -> in_range 24 128 x.
Proof.
  intros [H1 H2]. unfold in_range.
  change (emin 24 128 + 24) with (-125). change (128 - 1) with 127.
  assert (bpow (-125) <= bpow (-40))%R by (apply bpow_le; lia).
  assert (bpow 60 <= bpow 127)%R by (apply bpow_le; lia).
  rewrite bpow_m40 in *. rewrite bpow_60 in *. lra.
Qed.

(** The error model of one binary32 operation. *)
Lemma nearest32_bounds x f :
  nearest 24 x f ->
  (0 < x /\ x * (1 - / 16777216) <= f <= x * (1 + / 16777216))%R.
Proof.
  intros H. rewrite <- bpow_m24.
  split; [apply (nearest_pos 24 ltac:(lia) x f H)|].
  split.
  - exact (nearest_lower 24 x f H).
  - exact (nearest_upper 24 x f H).
Qed.

Lemma quot_below_count range n S v Q :
  step_model range n S -> quot_model v S Q ->
  (1 <= n)%R -> (1 <= range <= 65535)%R -> (0 <= v <= range - 1)%R ->
  (Q < n)%R.
Proof.
  intros (N & [HN1 HN2] & [HS1 HS2] & HNpos & HSpos) [HQ1 HQ2] Hn Hr Hv.
  destruct (Rlt_le_dec Q n) as [|Hge]; [assumption|exfalso].
  assert (A1 : (Q * S * N <= (range - 1) * (1 + / 16777216) * N)%R).
  { apply Rmult_le_compat_r; [lra|]. lra. }
  assert (A2 : ((range - 1) * (1 + / 16777216) * N
                <= (range - 1) * (1 + / 16777216) * (n * (1 + / 16777216)))%R).
  { apply Rmult_le_compat_l; [|lra]. apply Rmult_le_pos; lra. }
  assert (A3 : (n * (range * (1 - / 16777216)) <= Q * (S * N))%R).
  { apply Rmult_le_compat; lra. }
  assert (A4 : (0 < range * (1 - / 16777216)
                    - (range - 1) * (1 + / 16777216) * (1 + / 16777216))%R) by lra.
  assert (A5 : (n * (range * (1 - / 16777216)
                     - (range - 1) * (1 + / 16777216) * (1 + / 16777216)) <= 0)%R) by lra.
  assert (A6 : (0 < n * (range * (1 - / 16777216)
                     - (range - 1) * (1 + / 16777216) * (1 + / 16777216)))%R).
  { apply Rmult_lt_0_compat; lra. }
  lra.
Qed.

Lemma quot_below_int range n S v Q :
  step_model range n S -> quot_model v S Q ->
  (1 <= n <= 1073741824)%R -> (1 <= range <= 65535)%R -> (0 <= v <= range)%R ->
  (Q < 2147483648)%R.
Proof.
  intros (N & [HN1 HN2] & [HS1 HS2] & HNpos & HSpos) [HQ1 HQ2] Hn Hr Hv.
  destruct (Rlt_le_dec Q 2147483648) as [|Hge]; [assumption|exfalso].
  assert (A1 : (Q * S * N <= range * (1 + / 16777216) * N)%R).
  { apply Rmult_le_compat_r; [lra|]. nra. }
  assert (A2 : (range * (1 + / 16777216) * N
                <= range * (1 + / 16777216) * (1073741824 * (1 + / 16777216)))%R).
  { apply Rmult_le_compat_l; [|nra]. apply Rmult_le_pos; lra. }
  assert (A3 : (2147483648 * (range * (1 - / 16777216)) <= Q * (S * N))%R).
  { apply Rmult_le_compat; lra. }
  lra.
Qed.

Lemma step_quot_range range n S v :
  step_model range n S ->
  (1 <= n <= 1073741824)%R -> (1 <= range <= 65535)%R -> (1 <= v <= 65535)%R ->
  (/ 1099511627776 <= v / S < 1152921504606846976)%R.
Proof.
  intros (N & [HN1 HN2] & [HS1 HS2] & HNpos & HSpos) Hn Hr Hv.
  (* S lies between 2^-32 and 2^18 *)
  assert (B1 : (S * N <= 131072)%R) by lra.
  assert (B2 : (/ 2 <= N <= 2147483648)%R) by lra.
  assert (B3 : (S <= 262144)%R).
  { destruct (Rle_lt_dec S 262144); [assumption|exfalso].
    assert (262144 * / 2 < S * N)%R; [|lra].
    apply Rmult_le_0_lt_compat; lra. }
  assert (B4 : (/ 4294967296 <= S)%R).
  { destruct (Rle_lt_dec (/ 4294967296) S); [assumption|exfalso].
    assert (S * N <= / 4294967296 * 2147483648)%R; [|lra].
    apply Rmult_le_compat; lra. }
  split.
  - apply Rmult_le_reg_r with S; [assumption|].
    rewrite Rdiv_mul_id by lra. nra.
  - apply Rmult_lt_reg_r with S; [assumption|].
    rewrite Rdiv_mul_id by lra. nra.
Qed.

(** *** The operations of [getRgb] up to [bin] *)

Lemma f32_of_Z_exact v :
  1 <= v <= 65535 -> normal 24 128 false (f32_of_Z v) (IZR v).
Proof.
  intros Hv. apply binary_normalize_Z_exact; try lia.
  apply in_range32_intro.
  assert (1 <= IZR v <= 65535)%R by (split; apply IZR_le; lia). lra.
Qed.

Lemma f32_of_Z_count n :
  1 <= n <= 2 ^ 30 ->
  exists N, normal 24 128 false (f32_of_Z n) N /\ nearest 24 (IZR n) N.
Proof.
  intros Hn. apply binary_normalize_Z; try lia.
  apply in_range32_intro.
  assert (1 <= IZR n <= 1073741824)%R by (split; apply IZR_le; lia). lra.
Qed.

Lemma normal_SF2R prec emax f v : normal prec emax false f v -> v = SF2R f.
Proof. intros (m & e & -> & _ & _ & ->). reflexivity. Qed.

Lemma step_normal range n :
  1 <= range <= 65535 -> 1 <= n <= 2 ^ 30 ->
  normal 24 128 false (step_of range n) (SF2R (step_of range n)) /\
  step_model (IZR range) (IZR n) (SF2R (step_of range n)).
Proof.
  intros Hr Hn.
  pose proof (f32_of_Z_exact range Hr) as HR.
  destruct (f32_of_Z_count n Hn) as (N & HN & HNn).
  apply nearest32_bounds in HNn. destruct HNn as (Hnpos & HN1 & HN2).
  assert (Hr' : (1 <= IZR range <= 65535)%R) by (split; apply IZR_le; lia).
  assert (Hn' : (1 <= IZR n <= 1073741824)%R) by (split; apply IZR_le; lia).
  assert (HNpos : (0 < N)%R) by lra.
  assert (HNb : (/ 2 <= N <= 2147483648)%R) by lra.
  destruct (SFdiv_normal 24 128 ltac:(lia) false false _ _ _ _ HR HN) as (S & HS & HSn).
  - apply in_range32_intro. split.
    + apply Rmult_le_reg_r with N; [assumption|].
      rewrite Rdiv_mul_id by lra. nra.
    + apply Rmult_lt_reg_r with N; [assumption|].
      rewrite Rdiv_mul_id by lra. nra.
  - cbn [xorb] in HS. fold f32_div in HS. fold (step_of range n) in HS.
    rewrite <- (normal_SF2R _ _ _ _ HS).
    split; [exact HS|].
    apply nearest32_bounds in HSn. destruct HSn as (Hqpos & HS1 & HS2).
    exists N. split; [lra|]. split.
    + split.
      * apply Rle_trans with (IZR range / N * (1 - / 16777216) * N)%R;
          [right; field; lra | apply Rmult_le_compat_r; lra].
      * apply Rle_trans with (IZR range / N * (1 + / 16777216) * N)%R;
          [apply Rmult_le_compat_r; lra | right; field; lra].
    + split; [assumption|].
      apply Rlt_le_trans with (2 := HS1). apply Rmult_lt_0_compat; lra.
Qed.

Lemma float_to_int_finite m e :
  (F2R (Z.pos m) e < 2147483648)%R ->
  exists z, float_to_int (S754_finite false m e) = Ret z /\ 0 <= z /\
            (IZR z <= F2R (Z.pos m) e < IZR z + 1)%R.
Proof.
  intros Hlt. destruct (SFtrunc_floor m e) as (z & Hz & Hz0 & Hz1 & Hz2).
  exists z. unfold float_to_int. rewrite Hz.
  assert (z < 2147483648) by (apply lt_IZR; lra).
  assert (Hb : (INT_MIN <=? z) && (z <=? INT_MAX) = true).
  { unfold INT_MIN, INT_MAX. apply andb_true_intro. split; apply Z.leb_le; lia. }
  rewrite Hb. repeat split; assumption.
Qed.

(** The bin of a value [v >= 1]: a quotient within the error model, then
    its floor. *)
Lemma bin_of_positive range n v :
  1 <= range <= 65535 -> 1 <= n <= 2 ^ 30 -> 1 <= v <= range ->
  exists Q z,
    nearest 24 (IZR v / SF2R (step_of range n)) Q /\
    bin_of range n v = Ret z /\ 0 <= z /\ (IZR z <= Q < IZR z + 1)%R.
Proof.
  intros Hr Hn Hv.
  destruct (step_normal range n Hr Hn) as (HS & HSm).
  set (S := SF2R (step_of range n)) in *.
  pose proof (f32_of_Z_exact v ltac:(lia)) as HV.
  assert (Hr' : (1 <= IZR range <= 65535)%R) by (split; apply IZR_le; lia).
  assert (Hn' : (1 <= IZR n <= 1073741824)%R) by (split; apply IZR_le; lia).
  assert (Hv' : (1 <= IZR v <= IZR range)%R) by (split; apply IZR_le; lia).
  destruct (SFdiv_normal 24 128 ltac:(lia) false false _ _ _ _ HV HS) as (Q & HQ & HQn).
  { apply in_range32_intro.
    apply (step_quot_range (IZR range) (IZR n) S (IZR v) HSm); lra. }
  pose proof HQn as HQb. apply nearest32_bounds in HQb.
  destruct HQb as (Hxpos & HQ1 & HQ2).
  assert (HSpos : (0 < S)%R) by (destruct HSm as (N & _ & _ & _ & H); exact H).
  assert (HQm : quot_model (IZR v) S Q).
  { unfold quot_model.
    split.
    - apply Rle_trans with (IZR v / S * (1 - / 16777216) * S)%R;
        [right; field; lra | apply Rmult_le_compat_r; lra].
    - apply Rle_trans with (IZR v / S * (1 + / 16777216) * S)%R;
        [apply Rmult_le_compat_r; lra | right; field; lra]. }
  assert (HQlt : (Q < 2147483648)%R).
  { apply (quot_below_int (IZR range) (IZR n) S (IZR v) Q HSm HQm); lra. }
  destruct HQ as (m & e & HQe & _ & _ & HQv).
  rewrite HQv in HQlt.
  destruct (float_to_int_finite m e HQlt) as (z & Hz & Hz0 & Hz1).
  exists Q, z. split; [exact HQn|].
  unfold bin_of. fold (step_of range n). fold f32_div in HQe.
  rewrite HQe. rewrite HQv. repeat split; tauto.
Qed.

Lemma bin_of_zero range n :
  1 <= range <= 65535 -> 1 <= n <= 2 ^ 30 -> bin_of range n 0 = Ret 0.
Proof.
  intros Hr Hn.
  destruct (step_normal range n Hr Hn) as ((m & e & HS & _) & _).
  unfold bin_of. fold (step_of range n). rewrite HS. reflexivity.
Qed.

Lemma bin_of_defined range n v :
  1 <= range <= 65535 -> 1 <= n <= 2 ^ 30 -> 0 <= v <= range ->
  exists z, bin_of range n v = Ret z /\ 0 <= z.
Proof.
  intros Hr Hn Hv.
  destruct (Z.eq_dec v 0) as [->|Hne].
  - exists 0. split; [now apply bin_of_zero | lia].
  - destruct (bin_of_positive range n v Hr Hn ltac:(lia)) as (Q & z & _ & Hz & Hz0 & _).
    exists z. split; assumption.
Qed.


Lemma bin_of_below range n v z :
  1 <= range <= 65535 -> 1 <= n <= 2 ^ 30 -> 0 <= v < range ->
  bin_of range n v = Ret z -> 0 <= z <= n - 1.
Proof.
  intros Hr Hn Hv Hz.
  destruct (Z.eq_dec v 0) as [->|Hne].
  { rewrite bin_of_zero in Hz by assumption. injection Hz as <-. lia. }
  destruct (bin_of_positive range n v Hr Hn ltac:(lia)) as (Q & z' & HQ & Hz' & Hz0 & Hf).
  rewrite Hz' in Hz. injection Hz as <-.
  destruct (step_normal range n Hr Hn) as (_ & HSm).
  assert (Hr' : (1 <= IZR range <= 65535)%R) by (split; apply IZR_le; lia).
  assert (Hn' : (1 <= IZR n)%R) by (apply IZR_le; lia).
  assert (Hv' : (0 <= IZR v <= IZR range - 1)%R).
  { split; [apply IZR_le; lia|]. rewrite <- minus_IZR. apply IZR_le. lia. }
  assert (HSpos : (0 < SF2R (step_of range n))%R)
    by (destruct HSm as (N & _ & _ & _ & H); exact H).
  assert (HQm : quot_model (IZR v) (SF2R (step_of range n)) Q).
  { apply nearest32_bounds in HQ. destruct HQ as (_ & HQ1 & HQ2).
    split.
    - apply Rle_trans with (IZR v / SF2R (step_of range n) * (1 - / 16777216)
                            * SF2R (step_of range n))%R;
        [right; field; lra | apply Rmult_le_compat_r; lra].
    - apply Rle_trans with (IZR v / SF2R (step_of range n) * (1 + / 16777216)
                            * SF2R (step_of range n))%R;
        [apply Rmult_le_compat_r; lra | right; field; lra]. }
  pose proof (quot_below_count _ _ _ _ _ HSm HQm Hn' Hr' Hv') as Hlt.
  assert (IZR z' < IZR n)%R by lra.
  apply lt_IZR in H. lia.
Qed.

(** *** From [bin_of] to [getRgb_bin] *)

Lemma getRgb_bin_bin_of (g : Gradient) (value : Z) :
  getRgb_bin g value
  = bin_of (getRgb_range g) (size_t (Z.of_nat (length (m_stops g)) - 1))
           (getRgb_v g value).
Proof. reflexivity. Qed.

Section Contract.
Variable g : Gradient.
Hypothesis Hmin : 0 <= m_min g.
Hypothesis Hlt : m_min g < m_max g.
Hypothesis Hmax : m_max g <= 65535.
Hypothesis Hstops : 2 <= Z.of_nat (length (m_stops g)) <= 2 ^ 30.

Lemma contract_range : getRgb_range g = m_max g - m_min g.
Proof using Hmin Hlt Hmax. unfold getRgb_range, uint16. apply Z.mod_small. lia. Qed.

Lemma contract_v value :
  m_min g <= value <= m_max g -> getRgb_v g value = value - m_min g.
Proof using Hmin Hmax. intros Hv. unfold getRgb_v, uint16. apply Z.mod_small. lia. Qed.

Lemma contract_count :
  size_t (Z.of_nat (length (m_stops g)) - 1) = Z.of_nat (length (m_stops g)) - 1.
Proof using Hstops. unfold size_t. apply Z.mod_small. lia. Qed.

Lemma getRgb_bin_defined value :
  m_min g <= value <= m_max g ->
  exists b, getRgb_bin g value = Ret b /\ 0 <= b.
Proof using Hmin Hlt Hmax Hstops.
  intros Hv. rewrite getRgb_bin_bin_of, contract_range, contract_count, contract_v by assumption.
  apply bin_of_defined; lia.
Qed.

Lemma getRgb_bin_at_min : getRgb_bin g (m_min g) = Ret 0.
Proof using Hmin Hlt Hmax Hstops.
  rewrite getRgb_bin_bin_of, contract_range, contract_count, contract_v by lia.
  rewrite Z.sub_diag. apply bin_of_zero; lia.
Qed.


Lemma getRgb_bin_below_max value b :
  m_min g <= value < m_max g -> getRgb_bin g value = Ret b ->
  0 <= b <= Z.of_nat (length (m_stops g)) - 2.
Proof using Hmin Hlt Hmax Hstops.
  intros Hv.
  rewrite getRgb_bin_bin_of, contract_range, contract_count, contract_v by lia.
  intros Hb. apply bin_of_below in Hb; lia.
Qed.

End Contract.

(** *** Counting distinct bins *)











(** *** A range that the stops divide evenly, and the ideal bin *)


Lemma normal_unique prec emax s f f' v :
  0 < prec ->
  normal prec emax s f v -> normal prec emax s f' v -> f = f'.
Proof.
  intros Hprec H H'.
  pose proof (normal_bounds prec emax Hprec _ _ _ H) as (e0 & _ & A1 & A2).
  pose proof (normal_bounds prec emax Hprec _ _ _ H') as (e0' & _ & B1 & B2).
  destruct H as (m & e & -> & Hd & He & Hv).
  destruct H' as (m' & e' & -> & Hd' & He' & Hv').
  pose proof (Zdigits2_bounds (Z.pos m) ltac:(lia)) as [D1 D2].
  pose proof (Zdigits2_bounds (Z.pos m') ltac:(lia)) as [D1' D2'].
  rewrite Hd in D1, D2. rewrite Hd' in D1', D2'.
  apply IZR_le in D1, D1'. apply IZR_lt in D2, D2'.
  rewrite !IZR_pow2_bpow in * by lia.
  pose proof (bpow_pos e) as Be. pose proof (bpow_pos e') as Be'.
  assert (L1 : (bpow (prec - 1 + e) <= v < bpow (prec + e))%R).
  { rewrite Hv. unfold F2R. rewrite !bpow_add.
    split; [apply Rmult_le_compat_r | apply Rmult_lt_compat_r]; lra. }
  assert (L2 : (bpow (prec - 1 + e') <= v < bpow (prec + e'))%R).
  { rewrite Hv'. unfold F2R. rewrite !bpow_add.
    split; [apply Rmult_le_compat_r | apply Rmult_lt_compat_r]; lra. }
  assert (E : e = e').
  { assert (bpow (prec - 1 + e) < bpow (prec + e'))%R by lra.
    assert (bpow (prec - 1 + e') < bpow (prec + e))%R by lra.
    apply bpow_lt_inv in H, H0. lia. }
  subst e'. f_equal.
  assert (IZR (Z.pos m) = IZR (Z.pos m')).
  { apply Rmult_eq_reg_r with (bpow e); [|lra]. unfold F2R in Hv, Hv'. lra. }
  apply eq_IZR in H. congruence.
Qed.

Lemma SFsub_self prec emax m e :
  SFsub prec emax (S754_finite false m e) (S754_finite false m e) = S754_zero false.
Proof.
  cbn [SFsub cond_Zopp]. rewrite Z.min_id, shl_align_keep by lia.
  cbn [fst]. rewrite Z.sub_diag. reflexivity.
Qed.


Section Even.
Variables n s : Z.
Hypothesis Hn : 1 <= n.
Hypothesis Hs : 1 <= s.
Hypothesis Hns : n * s <= 65535.

Lemma even_small j : 0 <= j <= n -> j * s <= 65535 /\ j <= 65535.
Proof using Hn Hs Hns. intros Hj. split; nia. Qed.

(** The step is the stop spacing [s], exactly. *)
Lemma step_of_even : normal 24 128 false (step_of (n * s) n) (IZR s).
Proof using Hn Hs Hns.
  pose proof (f32_of_Z_exact (n * s) ltac:(nia)) as HR.
  pose proof (f32_of_Z_exact n ltac:(nia)) as HN.
  assert (Hs' : (1 <= IZR s <= 65535)%R) by (split; apply IZR_le; nia).
  assert (Hn' : (1 <= IZR n)%R) by (apply IZR_le; lia).
  assert (E : (IZR (n * s) / IZR n = IZR s)%R) by (rewrite mult_IZR; field; lra).
  destruct (SFdiv_normal 24 128 ltac:(lia) false false _ _ _ _ HR HN) as (S & HS & HSn).
  - apply in_range32_intro. rewrite E. lra.
  - rewrite E in HSn.
    replace (IZR s) with (F2R s 0) in HSn by (unfold F2R; rewrite bpow_0; ring).
    apply (nearest_exact 24 ltac:(lia)) in HSn.
    + subst S. unfold F2R in HS. rewrite bpow_0, Rmult_1_r in HS. exact HS.
    + assert (2 ^ 16 < 2 ^ 24) by (apply Z.pow_lt_mono_r; lia). nia.
Qed.

(** The quotient at a stop position is the stop index, exactly. *)
Lemma quotient_even j :
  1 <= j <= n ->
  normal 24 128 false (f32_div (f32_of_Z (j * s)) (step_of (n * s) n)) (IZR j).
Proof using Hn Hs Hns.
  intros Hj. destruct (even_small j ltac:(lia)) as [Hjs Hj'].
  pose proof (f32_of_Z_exact (j * s) ltac:(nia)) as HV.
  pose proof step_of_even as HS.
  assert (Hs' : (1 <= IZR s <= 65535)%R) by (split; apply IZR_le; nia).
  assert (Hjr : (1 <= IZR j <= 65535)%R) by (split; apply IZR_le; lia).
  assert (E : (IZR (j * s) / IZR s = IZR j)%R) by (rewrite mult_IZR; field; lra).
  destruct (SFdiv_normal 24 128 ltac:(lia) false false _ _ _ _ HV HS) as (Q & HQ & HQn).
  - apply in_range32_intro. rewrite E. lra.
  - rewrite E in HQn.
    replace (IZR j) with (F2R j 0) in HQn by (unfold F2R; rewrite bpow_0; ring).
    apply (nearest_exact 24 ltac:(lia)) in HQn.
    + subst Q. unfold F2R in HQ. rewrite bpow_0, Rmult_1_r in HQ. exact HQ.
    + assert (2 ^ 16 < 2 ^ 24) by (apply Z.pow_lt_mono_r; lia). lia.
Qed.

Lemma bin_of_even j : 0 <= j <= n -> bin_of (n * s) n (j * s) = Ret j.
Proof using Hn Hs Hns.
  intros Hj. destruct (Z.eq_dec j 0) as [->|Hne].
  { apply bin_of_zero; [nia | split; [lia|]].
    assert (2 ^ 16 < 2 ^ 30) by (apply Z.pow_lt_mono_r; lia). nia. }
  pose proof (quotient_even j ltac:(lia)) as (m & e & HQe & _ & _ & HQv).
  assert (Hjr : (1 <= IZR j <= 65535)%R) by (split; apply IZR_le; nia).
  destruct (float_to_int_finite m e ltac:(rewrite <- HQv; lra)) as (z & Hz & _ & Hz1 & Hz2).
  unfold bin_of. fold (step_of (n * s) n). rewrite HQe, Hz. f_equal.
  rewrite <- HQv in Hz1, Hz2.
  apply le_IZR in Hz1.
  assert (IZR j < IZR (z + 1))%R by (rewrite plus_IZR; lra).
  apply lt_IZR in H. lia.
Qed.

(** At a stop position the normalized value is [+0]. *)
Lemma normalized_even j :
  0 <= j <= n ->
  f32_div (f32_sub (f32_of_Z (j * s)) (f32_mul (f32_of_Z j) (step_of (n * s) n)))
          (step_of (n * s) n)
  = S754_zero false.
Proof using Hn Hs Hns.
  intros Hj. pose proof step_of_even as HS.
  destruct (Z.eq_dec j 0) as [->|Hne].
  { destruct HS as (ms & es & -> & _). reflexivity. }
  destruct (even_small j ltac:(lia)) as [Hjs Hj'].
  pose proof (f32_of_Z_exact (j * s) ltac:(nia)) as HV.
  pose proof (f32_of_Z_exact j ltac:(lia)) as HJ.
  assert (Hs' : (1 <= IZR s <= 65535)%R) by (split; apply IZR_le; nia).
  assert (Hjr : (1 <= IZR j <= 65535)%R) by (split; apply IZR_le; lia).
  assert (Hjs' : (1 <= IZR (j * s) <= 65535)%R) by (split; apply IZR_le; nia).
  destruct (SFmul_normal 24 128 ltac:(lia) false false _ _ _ _ HJ HS) as (P & HP & HPn).
  { apply in_range32_intro. rewrite <- mult_IZR. lra. }
  rewrite <- mult_IZR in HPn.
  replace (IZR (j * s)) with (F2R (j * s) 0) in HPn by (unfold F2R; rewrite bpow_0; ring).
  apply (nearest_exact 24 ltac:(lia)) in HPn.
  2:{ assert (2 ^ 16 < 2 ^ 24) by (apply Z.pow_lt_mono_r; lia). nia. }
  subst P. unfold F2R in HP. rewrite bpow_0, Rmult_1_r in HP.
  cbn [xorb] in HP. fold f32_mul in HP.
  rewrite <- (normal_unique 24 128 false _ _ _ ltac:(lia) HV HP).
  destruct HV as (mv & ev & -> & _).
  unfold f32_sub. rewrite SFsub_self.
  destruct HS as (ms & es & -> & _). reflexivity.
Qed.


End Even.






(* ===================================================================== *)
(** * Part IV: [interpolate]                                              *)
(* ===================================================================== *)

Lemma bpow_m53 : bpow (-53) = (/ 9007199254740992)%R.
Proof. unfold bpow. simpl. lra. Qed.

Lemma bpow_11 : bpow 11 = 2048%R.
Proof. unfold bpow. simpl. lra. Qed.

Lemma nearest64_bounds x f :
  nearest 53 x f ->
  (0 < x /\ x * (1 - / 9007199254740992) <= f <= x * (1 + / 9007199254740992))%R.
Proof.
  intros H. rewrite <- bpow_m53.
  split; [apply (nearest_pos 53 ltac:(lia) x f H)|].
  split.
  - exact (nearest_lower 53 x f H).
  - exact (nearest_upper 53 x f H).
Qed.

Lemma in_range64_intro x :
  (bpow (-160) <= x <= 2048)%R -> in_range 53 1024 x.
Proof.
  intros [H1 H2]. unfold in_range.
  change (emin 53 1024 + 53) with (-1021). change (1024 - 1) with 1023.
  assert (bpow (-1021) <= bpow (-160))%R by (apply bpow_le; lia).
  assert (bpow 11 < bpow 1023)%R by (apply bpow_lt; lia).
  rewrite bpow_11 in *. lra.
Qed.

(** The smallest positive binary32 number bounds every magnitude below. *)
Lemma eta_facts :
  (0 < bpow (-149) /\ bpow (-160) <= bpow (-149) / 8 /\ bpow (-149) <= 1)%R.
Proof.
  split; [apply bpow_pos|]. split.
  - replace (bpow (-149) / 8)%R with (bpow (-152)).
    + apply bpow_le. lia.
    + change (-152) with (-149 + -3). rewrite bpow_add.
      replace (bpow (-3)) with (/ 8)%R by (unfold bpow; simpl; lra). lra.
  - change 1%R with (bpow 0). apply bpow_le. lia.
Qed.

Lemma valid_binary32_finite s m e :
  valid_binary 24 128 (S754_finite s m e) = true ->
  -149 <= e <= 104 /\ Z.pos m < 2 ^ 24.
Proof.
  unfold valid_binary, bounded, canonical_mantissa, fexp, emin.
  intros H. apply andb_prop in H. destruct H as [H1 H2].
  apply Z.eqb_eq in H1. apply Z.leb_le in H2.
  pose proof (digits2_pos_bounds m) as [_ D2].
  set (d := Z.pos (digits2_pos m)) in *.
  unfold SpecFloat.fexp, SpecFloat.emin in H1.
  assert (d <= 24) by lia.
  assert (2 ^ d <= 2 ^ 24) by (apply Z.pow_le_mono_r; lia).
  lia.
Qed.

Lemma F2R_pos_lower m e : (bpow e <= F2R (Z.pos m) e)%R.
Proof.
  unfold F2R. pose proof (bpow_pos e).
  assert (1 <= IZR (Z.pos m))%R by (apply IZR_le; lia). nra.
Qed.

(** Below one, a multiple of [2^e] stays a full [2^e] away from one. *)
Lemma F2R_below_one m e :
  (F2R (Z.pos m) e < 1)%R -> (bpow e <= 1 - F2R (Z.pos m) e)%R.
Proof.
  intros Hlt. pose proof (F2R_pos_lower m e) as Hlo. pose proof (bpow_pos e) as He.
  assert (Hneg : e < 0).
  { destruct (Z_lt_le_dec e 0) as [|Hge]; [assumption|exfalso].
    assert (bpow 0 <= bpow e)%R by (apply bpow_le; lia). rewrite bpow_0 in *. lra. }
  assert (E1 : (1 = IZR (2 ^ (- e)) * bpow e)%R).
  { rewrite IZR_pow2_bpow by lia. rewrite <- bpow_add.
    replace (- e + e) with 0 by lia. now rewrite bpow_0. }
  unfold F2R in *.
  assert (Hm : Z.pos m < 2 ^ (- e)).
  { apply lt_IZR. apply Rmult_lt_reg_r with (bpow e); [assumption|]. lra. }
  assert (Hm' : Z.pos m + 1 <= 2 ^ (- e)) by lia.
  apply IZR_le in Hm'. rewrite plus_IZR in Hm'. nra.
Qed.

Lemma f64_of_f32_normal s m e :
  valid_binary 24 128 (S754_finite s m e) = true ->
  normal 53 1024 s (f64_of_f32 (S754_finite s m e)) (F2R (Z.pos m) e).
Proof.
  intros Hv. destruct (valid_binary32_finite s m e Hv) as [He Hm].
  cbn [f64_of_f32].
  apply (binary_round_exact 53 1024 ltac:(lia)).
  - assert (2 ^ 24 < 2 ^ 53) by (apply Z.pow_lt_mono_r; lia). lia.
  - pose proof (F2R_pos_lower m e) as Hlo.
    assert (bpow (-1021) <= bpow e)%R by (apply bpow_le; lia).
    assert (Hup : (F2R (Z.pos m) e < bpow 128)%R).
    { unfold F2R. apply IZR_lt in Hm. rewrite IZR_pow2_bpow in Hm by lia.
      change 128 with (24 + 104). rewrite bpow_add.
      pose proof (bpow_pos e). pose proof (bpow_pos 24).
      assert (bpow e <= bpow 104)%R by (apply bpow_le; lia).
      assert (0 < IZR (Z.pos m))%R by (apply IZR_lt; lia).
      apply Rlt_le_trans with (bpow 24 * bpow e)%R; [nra|].
      apply Rmult_le_compat_l; lra. }
    assert (bpow 128 <= bpow 1023)%R by (apply bpow_le; lia).
    unfold in_range.
    change (emin 53 1024 + 53) with (-1021). change (1024 - 1) with 1023. lra.
Qed.

Lemma f64_one_normal : normal 53 1024 false f64_one 1.
Proof.
  unfold f64_one, f64_of_Z.
  apply (binary_normalize_Z_exact 53 1024 ltac:(lia) 1).
  - split; [lia|]. apply (Z.pow_gt_1 2 53); lia.
  - apply in_range64_intro. pose proof eta_facts.
    assert (bpow (-160) <= bpow 0)%R by (apply bpow_le; lia). rewrite bpow_0 in *. lra.
Qed.

Lemma normal_nonneg64 f v : normal 53 1024 false f v -> nonneg64 f /\ SF2R f = v.
Proof.
  intros H. pose proof (normal_SF2R _ _ _ _ H) as E. subst v.
  split; [right; assumption | reflexivity].
Qed.

Lemma f64_of_Z_channel c :
  is_uint8 c ->
  (c = 0 /\ f64_of_Z c = S754_zero false) \/
  (1 <= c /\ normal 53 1024 false (f64_of_Z c) (IZR c)).
Proof.
  intros [H0 H255]. destruct (Z.eq_dec c 0) as [->|Hne].
  - left. split; reflexivity.
  - right. split; [lia|].
    apply (binary_normalize_Z_exact 53 1024 ltac:(lia)).
    + assert (2 ^ 8 < 2 ^ 53) by (apply Z.pow_lt_mono_r; lia). lia.
    + apply in_range64_intro. pose proof eta_facts.
      assert (1 <= IZR c <= 255)%R by (split; apply IZR_le; lia).
      assert (bpow (-160) <= bpow 0)%R by (apply bpow_le; lia). rewrite bpow_0 in *. lra.
Qed.

(** One product [x * c] of [blend], [c] a channel. *)
Lemma f64_mul_channel X x c :
  normal 53 1024 false X x -> (bpow (-149) / 2 <= x <= 2)%R -> is_uint8 c ->
  nonneg64 (f64_mul X (f64_of_Z c)) /\
  (x * IZR c * (1 - / 9007199254740992) <= SF2R (f64_mul X (f64_of_Z c))
   <= x * IZR c * (1 + / 9007199254740992))%R /\
  (1 <= c -> (bpow (-149) / 4 <= SF2R (f64_mul X (f64_of_Z c)))%R).
Proof.
  intros HX Hx Hc. pose proof eta_facts as (E0 & E1 & E2).
  destruct (f64_of_Z_channel c Hc) as [[-> HC]|[Hc1 HC]].
  - rewrite HC. destruct HX as (m & e & -> & _).
    cbn. split; [left; reflexivity|]. split; [lra | lia].
  - assert (Hc' : (1 <= IZR c <= 255)%R) by (destruct Hc; split; apply IZR_le; lia).
    destruct (SFmul_normal 53 1024 ltac:(lia) false false _ _ _ _ HX HC) as (p & Hp & Hn).
    + apply in_range64_intro. split; nra.
    + cbn [xorb] in Hp. fold f64_mul in Hp.
      destruct (normal_nonneg64 _ _ Hp) as [Hnn Hval].
      apply nearest64_bounds in Hn. destruct Hn as (Hpos & Hl & Hu).
      rewrite Hval. split; [assumption|]. split; [lra|]. intros _. nra.
Qed.

Lemma f64_add_nonneg P1 P2 :
  nonneg64 P1 -> nonneg64 P2 ->
  (SF2R P1 <= 1024)%R -> (SF2R P2 <= 1024)%R ->
  (P1 <> S754_zero false -> bpow (-149) / 4 <= SF2R P1)%R ->
  (P2 <> S754_zero false -> bpow (-149) / 4 <= SF2R P2)%R ->
  nonneg64 (f64_add P1 P2) /\
  ((SF2R P1 + SF2R P2) * (1 - / 9007199254740992) <= SF2R (f64_add P1 P2)
   <= (SF2R P1 + SF2R P2) * (1 + / 9007199254740992))%R.
Proof.
  intros H1 H2 U1 U2 L1 L2. pose proof eta_facts as (E0 & E1 & E2).
  destruct H1 as [->|H1]; destruct H2 as [->|H2].
  - cbn. split; [left; reflexivity | lra].
  - assert (E : f64_add (S754_zero false) P2 = P2).
    { destruct H2 as (m & e & -> & _). reflexivity. }
    rewrite E. pose proof (normal_pos 53 1024 ltac:(lia) _ _ _ H2). cbn [SF2R].
    split; [right; assumption | lra].
  - assert (E : f64_add P1 (S754_zero false) = P1).
    { destruct H1 as (m & e & -> & _). reflexivity. }
    rewrite E. pose proof (normal_pos 53 1024 ltac:(lia) _ _ _ H1). cbn [SF2R].
    split; [right; assumption | lra].
  - assert (N1 : P1 <> S754_zero false) by (destruct H1 as (m & e & -> & _); discriminate).
    assert (N2 : P2 <> S754_zero false) by (destruct H2 as (m & e & -> & _); discriminate).
    specialize (L1 N1). specialize (L2 N2).
    destruct H1 as (m1 & e1 & -> & _). destruct H2 as (m2 & e2 & -> & _).
    cbn [SF2R cond_Zopp] in *.
    destruct (SFadd_finite 53 1024 ltac:(lia) m1 e1 m2 e2) as (z & Hz & Hn).
    + apply in_range64_intro. lra.
    + fold f64_add in Hz. destruct (normal_nonneg64 _ _ Hz) as [Hnn Hval].
      apply nearest64_bounds in Hn. destruct Hn as (_ & Hl & Hu).
      rewrite Hval. split; [assumption | lra].
Qed.

Lemma double_to_uint8_nonneg F :
  nonneg64 F -> (SF2R F < 256)%R ->
  exists r, double_to_uint8 F = Ret r /\ is_uint8 r /\
            (IZR r <= SF2R F < IZR r + 1)%R.
Proof.
  intros [->|H] Hlt.
  - exists 0. cbn. split; [reflexivity|]. split; [unfold is_uint8; lia | lra].
  - destruct H as (m & e & -> & _). cbn [SF2R cond_Zopp] in *.
    destruct (SFtrunc_floor m e) as (z & Hz & Hz0 & Hz1 & Hz2).
    exists z. unfold double_to_uint8. rewrite Hz.
    assert (z < 256) by (apply lt_IZR; lra).
    assert (Hb : (0 <=? z) && (z <=? 255) = true).
    { apply andb_true_intro. split; apply Z.leb_le; lia. }
    rewrite Hb. split; [reflexivity|]. split; [unfold is_uint8; lia | lra].
Qed.

(** The binary32 product [t * c] of [blend], [c] a channel, promoted to
    [double]: it is [+0] or a normal [double], and misses the exact
    product by the binary32 rounding error. *)
Lemma f32_mul_channel m e c :
  valid_binary 24 128 (S754_finite false m e) = true ->
  (F2R (Z.pos m) e < 1)%R -> is_uint8 c ->
  nonneg64 (f64_of_f32 (f32_mul (S754_finite false m e) (f32_of_Z c))) /\
  (Rabs (SF2R (f64_of_f32 (f32_mul (S754_finite false m e) (f32_of_Z c)))
         - F2R (Z.pos m) e * IZR c)
   <= F2R (Z.pos m) e * IZR c * / 16777216 + bpow (-149) / 2)%R /\
  (f64_of_f32 (f32_mul (S754_finite false m e) (f32_of_Z c)) <> S754_zero false ->
   (bpow (-149) <= SF2R (f64_of_f32 (f32_mul (S754_finite false m e) (f32_of_Z c))))%R).
Proof.
  intros Hv Hlt Hc. pose proof eta_facts as (E0 & E1 & E2).
  set (T := F2R (Z.pos m) e) in *.
  assert (HT : (0 < T)%R).
  { pose proof (F2R_pos_lower m e). pose proof (bpow_pos e). unfold T. lra. }
  destruct (Z.eq_dec c 0) as [->|Hne].
  - assert (E : f64_of_f32 (f32_mul (S754_finite false m e) (f32_of_Z 0))
                = S754_zero false) by reflexivity.
    rewrite E. cbn [SF2R].
    split; [left; reflexivity|]. split; [|intros H; now elim H].
    rewrite Rmult_0_r, Rminus_diag, Rabs_R0. lra.
  - assert (Hc1 : 1 <= c <= 65535) by (destruct Hc; lia).
    assert (Hc' : (1 <= IZR c <= 255)%R) by (destruct Hc; split; apply IZR_le; lia).
    destruct (f32_of_Z_exact c Hc1) as (mc & ec & EC & Hdc & Hec & Vc).
    rewrite EC.
    destruct (SFmul_positive 24 128 m e mc ec ltac:(lia) ltac:(vm_compute; discriminate)
                Hdc) as (M & e' & HM & He' & Hcan & Hr & Habs).
    { fold T. rewrite <- Vc.
      assert (bpow 8 <= bpow (128 - 1))%R by (apply bpow_le; lia).
      assert (bpow 8 = 256)%R by (unfold bpow; simpl; lra).
      assert (T * IZR c < 256)%R by nra. lra. }
    fold T in Habs. rewrite <- Vc in Habs.
    change (emin 24 128) with (-149) in *.
    change (Z.opp 24) with (Z.neg 24) in Habs. rewrite bpow_m24 in Habs.
    unfold f32_mul. rewrite Hr.
    destruct M as [|mp|mp]; try lia.
    + cbn [f64_of_f32 SF2R].
      split; [left; reflexivity|]. split; [|intros H; now elim H].
      unfold F2R in Habs. rewrite Rmult_0_l in Habs.
      rewrite Rminus_0_l, Rabs_Ropp in *. exact Habs.
    + assert (Hvp : valid_binary 24 128 (S754_finite false mp e') = true).
      { unfold valid_binary, bounded, canonical_mantissa.
        apply andb_true_intro. split.
        - apply Z.eqb_eq. apply (Hcan ltac:(lia)).
        - apply Z.leb_le. lia. }
      pose proof (f64_of_f32_normal false mp e' Hvp) as Hn.
      destruct (normal_nonneg64 _ _ Hn) as [Hnn Hval].
      rewrite Hval.
      split; [exact Hnn|]. split; [exact Habs|].
      intros _. apply Rle_trans with (bpow e'); [apply bpow_le; lia | apply F2R_pos_lower].
Qed.

(** One channel of [interpolate] for a fraction strictly between 0 and 1:
    the conversion is defined and takes the floor of the blended value,
    which is within [2^-16] of the exact linear blend. *)
Lemma blend_channel m e a b :
  valid_binary 24 128 (S754_finite false m e) = true ->
  (F2R (Z.pos m) e < 1)%R ->
  is_uint8 a -> is_uint8 b ->
  exists r,
    double_to_uint8 (blend (S754_finite false m e) a b) = Ret r /\ is_uint8 r /\
    truncated (SF2R (blend (S754_finite false m e) a b)) r /\
    blend_accurate (SF2R (blend (S754_finite false m e) a b))
                   (exact_blend (F2R (Z.pos m) e) a b).
Proof.
  intros Hv Hlt Ha Hb. pose proof eta_facts as (E0 & E1 & E2).
  pose proof (f64_of_f32_normal false m e Hv) as Htd.
  destruct (valid_binary32_finite false m e Hv) as [He _].
  set (T := F2R (Z.pos m) e) in *.
  set (t := S754_finite false m e) in *.
  assert (HT1 : (bpow (-149) <= T)%R).
  { apply Rle_trans with (bpow e); [apply bpow_le; lia | apply F2R_pos_lower]. }
  assert (HT2 : (bpow (-149) <= 1 - T)%R).
  { apply Rle_trans with (bpow e); [apply bpow_le; lia | now apply F2R_below_one]. }
  assert (Ha' : (0 <= IZR a <= 255)%R) by (destruct Ha; split; apply IZR_le; lia).
  assert (Hb' : (0 <= IZR b <= 255)%R) by (destruct Hb; split; apply IZR_le; lia).
  unfold blend, blend_accurate, exact_blend.
  (* 1.0 - t *)
  assert (HA : exists A, normal 53 1024 false (f64_sub f64_one (f64_of_f32 t)) A
                         /\ nearest 53 (1 - T) A).
  { pose proof f64_one_normal as (m1 & e1 & H1 & _ & _ & V1).
    destruct Htd as (mt & et & Ht & _ & _ & Vt).
    rewrite H1, Ht. rewrite V1, Vt in *.
    apply (SFsub_finite 53 1024 ltac:(lia)).
    apply in_range64_intro.
    pose proof (F2R_pos_lower mt et). pose proof (bpow_pos et). lra. }
  destruct HA as (A & HA & HAn).
  apply nearest64_bounds in HAn. destruct HAn as (_ & HAl & HAu).
  set (u := (/ 9007199254740992)%R) in *.
  assert (Hu : (0 < u < / 1000)%R) by (unfold u; lra).
  (* the binary64 product and the binary32 product *)
  destruct (f64_mul_channel _ A a HA ltac:(nra) Ha) as (N1 & [P1l P1u] & P1z).
  destruct (f32_mul_channel m e b Hv Hlt Hb) as (N2 & P2e & P2z).
  fold u in P1l, P1u. fold t T in N2, P2e, P2z.
  set (P1 := f64_mul (f64_sub f64_one (f64_of_f32 t)) (f64_of_Z a)) in *.
  set (P2 := f64_of_f32 (f32_mul t (f32_of_Z b))) in *.
  assert (X1 : (0 <= (1 - T) * IZR a <= 255 * (1 - T))%R) by nra.
  assert (X2 : (0 <= T * IZR b <= 255 * T)%R) by nra.
  assert (B1 : ((1 - T) * IZR a * ((1 - u) * (1 - u)) <= SF2R P1
                <= (1 - T) * IZR a * ((1 + u) * (1 + u)))%R).
  { assert (K1 : ((1 - T) * (1 - u) * (IZR a * (1 - u)) <= A * (IZR a * (1 - u)))%R)
      by (apply Rmult_le_compat_r; [nra | lra]).
    assert (K2 : (A * (IZR a * (1 + u)) <= (1 - T) * (1 + u) * (IZR a * (1 + u)))%R)
      by (apply Rmult_le_compat_r; [nra | lra]).
    split; nra. }
  assert (Heta : (bpow (-149) <= / 1099511627776)%R).
  { rewrite <- bpow_m40. apply bpow_le. lia. }
  apply Rabs_le_inv in P2e.
  assert (B2 : (T * IZR b - (T * IZR b * / 16777216 + / 1099511627776) <= SF2R P2
                <= T * IZR b + (T * IZR b * / 16777216 + / 1099511627776))%R) by lra.
  clear P2e.
  assert (S2 : (0 <= SF2R P2)%R).
  { destruct N2 as [E|N2]; [rewrite E; cbn [SF2R]; lra|].
    pose proof (normal_pos 53 1024 ltac:(lia) _ _ _ N2). lra. }
  set (Y1 := ((1 - T) * IZR a)%R) in *.
  set (Y2 := (T * IZR b)%R) in *.
  assert (HY : (Y1 + Y2 <= 255)%R) by (unfold Y1, Y2; nra).
  assert (HY2 : (Y2 * / 16777216 <= 255 * / 16777216)%R) by lra.
  clearbody Y1 Y2. clear P1l P1u HAl HAu. unfold u in *. clear u Hu.
  assert (U1 : (SF2R P1 <= 1024)%R) by lra.
  assert (U2 : (SF2R P2 <= 1024)%R) by lra.
  assert (Z1 : (P1 <> S754_zero false -> bpow (-149) / 4 <= SF2R P1)%R).
  { intros Hnz. apply P1z. destruct (f64_of_Z_channel a Ha) as [[-> Hz]|[H1 _]]; [|assumption].
    exfalso. apply Hnz. unfold P1. rewrite Hz.
    destruct HA as (ma & ea & -> & _). reflexivity. }
  assert (Z2 : (P2 <> S754_zero false -> bpow (-149) / 4 <= SF2R P2)%R).
  { intros Hnz. specialize (P2z Hnz). lra. }
  destruct (f64_add_nonneg P1 P2 N1 N2 U1 U2 Z1 Z2) as (NS & [Sl Su]).
  set (V := SF2R (f64_add P1 P2)) in *.
  assert (Acc : (- / 65536 <= V - (Y1 + Y2) <= / 65536)%R) by (split; lra).
  assert (Hlt256 : (V < 256)%R) by lra.
  destruct (double_to_uint8_nonneg _ NS Hlt256) as (r & Hr & Hr8 & Hfloor).
  exists r. split; [exact Hr|]. split; [exact Hr8|]. split; [exact Hfloor|].
  apply Rabs_le. fold P1 P2 V. lra.
Qed.

Lemma f64_leb_zero_finite s m e :
  f64_leb (S754_finite s m e) f64_zero = s.
Proof. destruct s; reflexivity. Qed.

Lemma f64_leb_one_normal td T :
  normal 53 1024 false td T ->
  f64_leb f64_one td = (if Rlt_dec T 1 then false else true).
Proof.
  intros Htd. unfold f64_leb, SFleb.
  rewrite (SFcompare_normal 53 1024 ltac:(lia) _ _ _ _ f64_one_normal Htd).
  destruct (Rlt_dec 1 T); destruct (Rlt_dec T 1); try reflexivity; lra.
Qed.

Lemma interpolate_inside_eq c1 c2 m e :
  valid_binary 24 128 (S754_finite false m e) = true ->
  (F2R (Z.pos m) e < 1)%R ->
  interpolate c1 c2 (S754_finite false m e)
  = (r ← double_to_uint8 (blend (S754_finite false m e) (red c1) (red c2));
     g ← double_to_uint8 (blend (S754_finite false m e) (green c1) (green c2));
     b ← double_to_uint8 (blend (S754_finite false m e) (blue c1) (blue c2));
     Ret (mk_rgb r g b)).
Proof.
  intros Hv Hlt.
  pose proof (f64_of_f32_normal false m e Hv) as Htd.
  unfold interpolate.
  set (td := f64_of_f32 (S754_finite false m e)) in *.
  cbv zeta.
  rewrite (f64_leb_one_normal td _ Htd).
  destruct (Rlt_dec (F2R (Z.pos m) e) 1) as [_|Hn]; [|contradiction].
  destruct Htd as (m' & e' & Etd & _).
  rewrite Etd at 1. rewrite f64_leb_zero_finite. reflexivity.
Qed.

Lemma interpolate_inside c1 c2 m e :
  valid_binary 24 128 (S754_finite false m e) = true ->
  rgb_wf c1 -> rgb_wf c2 ->
  (F2R (Z.pos m) e < 1)%R ->
  exists r g b,
    interpolate c1 c2 (S754_finite false m e) = Ret (mk_rgb r g b) /\
    rgb_wf (mk_rgb r g b) /\
    truncated (SF2R (blend (S754_finite false m e) (red c1) (red c2))) r /\
    truncated (SF2R (blend (S754_finite false m e) (green c1) (green c2))) g /\
    truncated (SF2R (blend (S754_finite false m e) (blue c1) (blue c2))) b /\
    blend_accurate (SF2R (blend (S754_finite false m e) (red c1) (red c2)))
                   (exact_blend (F2R (Z.pos m) e) (red c1) (red c2)) /\
    blend_accurate (SF2R (blend (S754_finite false m e) (green c1) (green c2)))
                   (exact_blend (F2R (Z.pos m) e) (green c1) (green c2)) /\
    blend_accurate (SF2R (blend (S754_finite false m e) (blue c1) (blue c2)))
                   (exact_blend (F2R (Z.pos m) e) (blue c1) (blue c2)).
Proof.
  intros Hv (R1 & G1 & B1) (R2 & G2 & B2) Hlt.
  destruct (blend_channel m e _ _ Hv Hlt R1 R2) as (r & Hr & Hr8 & Hrf & Hra).
  destruct (blend_channel m e _ _ Hv Hlt G1 G2) as (g & Hg & Hg8 & Hgf & Hga).
  destruct (blend_channel m e _ _ Hv Hlt B1 B2) as (b & Hb & Hb8 & Hbf & Hba).
  exists r, g, b.
  split.
  - rewrite (interpolate_inside_eq c1 c2 m e Hv Hlt).
    rewrite Hr. cbn [mbind result_bind]. rewrite Hg. cbn [mbind result_bind].
    rewrite Hb. reflexivity.
  - split; [exact (conj Hr8 (conj Hg8 Hb8))|].
    exact (conj Hrf (conj Hgf (conj Hbf (conj Hra (conj Hga Hba))))).
Qed.

Lemma f32_quarter_blend :
  SF2R (blend f32_quarter 0 255) = (255 / 4)%R.
Proof.
  assert (E : blend f32_quarter 0 255
              = S754_finite false 8972014882652160 (-47)) by (vm_compute; reflexivity).
  rewrite E. unfold SF2R, F2R, bpow, cond_Zopp. simpl. lra.
Qed.

Lemma interpolate_le_0 (c1 c2 : rgb) (t : spec_float) :
  valid_binary 24 128 t = true -> float_le_0 t -> interpolate c1 c2 t = Ret c1.
Proof.
  intros Hv Hle. destruct t as [s|s| |s m e]; cbn [float_le_0] in Hle.
  - destruct s; reflexivity.
  - subst s. reflexivity.
  - contradiction.
  - destruct s.
    + pose proof (f64_of_f32_normal true m e Hv) as (m' & e' & E & _).
      unfold interpolate. rewrite E, f64_leb_zero_finite. reflexivity.
    + exfalso. pose proof (F2R_pos_lower m e). pose proof (bpow_pos e).
      cbn [SF2R cond_Zopp] in Hle. lra.
Qed.

Lemma interpolate_ge_1 (c1 c2 : rgb) (t : spec_float) :
  valid_binary 24 128 t = true -> float_ge_1 t -> interpolate c1 c2 t = Ret c2.
Proof.
  intros Hv Hge. destruct t as [s|s| |s m e]; cbn [float_ge_1] in Hge.
  - contradiction.
  - subst s. reflexivity.
  - contradiction.
  - destruct s.
    + exfalso. pose proof (F2R_pos_lower m e). pose proof (bpow_pos e).
      cbn [SF2R cond_Zopp] in Hge. unfold F2R in *.
      rewrite opp_IZR in Hge. lra.
    + pose proof (f64_of_f32_normal false m e Hv) as Htd.
      cbn [SF2R cond_Zopp] in Hge.
      unfold interpolate.
      rewrite (f64_leb_one_normal _ _ Htd).
      destruct Htd as (m' & e' & E & _). rewrite E, f64_leb_zero_finite.
      destruct (Rlt_dec (F2R (Z.pos m) e) 1); [lra | reflexivity].
Qed.

(** NaN fails both tests, the blend is NaN and its conversion to
    [uint8_t] is undefined. *)
Lemma interpolate_nan (c1 c2 : rgb) :
  interpolate c1 c2 S754_nan = Undefined FloatToInt.
Proof.
  unfold interpolate. cbn [f64_of_f32].
  change (f64_leb S754_nan f64_zero) with false.
  change (f64_leb f64_one S754_nan) with false.
  cbv iota.
  assert (E : forall a b, double_to_uint8 (blend S754_nan a b) = Undefined FloatToInt).
  { intros a b. unfold blend. cbn [f64_of_f32].
    change (f32_mul S754_nan (f32_of_Z b)) with S754_nan. cbn [f64_of_f32].
    unfold f64_add.
    destruct (f64_mul (f64_sub f64_one S754_nan) (f64_of_Z a)); reflexivity. }
  rewrite E. reflexivity.
Qed.

(** The two tests and the blend cover every binary32 number. *)
Lemma interpolate_branches (t : spec_float) :
  float_le_0 t \/ float_ge_1 t \/ (0 < SF2R t < 1)%R \/ t = S754_nan.
Proof.
  destruct t as [s|s| |s m e].
  - left. exact I.
  - destruct s; [left | right; left]; reflexivity.
  - right. right. right. reflexivity.
  - destruct s.
    + left. cbn [float_le_0 SF2R cond_Zopp]. pose proof (F2R_pos_lower m e).
      pose proof (bpow_pos e). unfold F2R in *. rewrite opp_IZR. lra.
    + destruct (Rlt_dec (F2R (Z.pos m) e) 1) as [Hlt|Hge].
      * right. right. left. cbn [SF2R cond_Zopp]. split; [|assumption].
        pose proof (F2R_pos_lower m e). pose proof (bpow_pos e). lra.
      * right. left. cbn [float_ge_1 SF2R cond_Zopp]. lra.
Qed.

Lemma f32_tenth_value : SF2R f32_tenth = (13421773 / 134217728)%R.
Proof.
  unfold f32_tenth, SF2R, F2R, cond_Zopp.
  replace (bpow (-27)) with (/ 134217728)%R by (unfold bpow; simpl; lra).
  reflexivity.
Qed.

(** C7 (counterexample): the channel is not the truncation of the exact
    value of [(1-t)*c1.channel + t*c2.channel].  At [t = 0.1f] between
    [{10,20,30}] and [{200,100,50}] the exact values lie just above [29],
    [28] and [32] and truncate to these, but the binary32 products
    [t*200], [t*100] and [t*50] round down to [20], [10] and [5], the sums
    fall just below the three integers, and [interpolate] returns
    [{28,27,31}]. *)
Theorem interpolate_not_exact_truncation :
  valid_binary 24 128 f32_tenth = true
  /\ (0 < SF2R f32_tenth < 1)%R
  /\ truncated (exact_blend (SF2R f32_tenth) 10 200) 29
  /\ truncated (exact_blend (SF2R f32_tenth) 20 100) 28
  /\ truncated (exact_blend (SF2R f32_tenth) 30 50) 32
  /\ interpolate (mk_rgb 10 20 30) (mk_rgb 200 100 50) f32_tenth
     = Ret (mk_rgb 28 27 31).
Proof.
  split; [reflexivity|].
  unfold truncated, exact_blend. rewrite f32_tenth_value.
  split; [lra|]. split; [lra|]. split; [lra|]. split; [lra|].
  vm_compute. reflexivity.
Qed.

(** C7 (amended): for every binary32 number [t] and colours [c1], [c2]
    with 8-bit channels, [interpolate c1 c2 t] is [c1] when [t <= 0.0] and
    [c2] when [t >= 1.0].  Otherwise [t] is NaN, and the conversion of the
    blend is undefined, or [0 < t < 1], and then the result is defined and
    each channel is the blend as the code evaluates it ([(1.0 - t)*c1.ch]
    in binary64, [t*c2.ch] in binary32, their sum in binary64) with its
    fractional part discarded; that blend is within [2^-16] of the exact
    value of [(1-t)*c1.channel + t*c2.channel].  The conversion truncates
    and does not round to nearest: between black and white at [t = 0.25]
    the blend is [63.75] and the channel is [63], not [64]. *)
Theorem interpolate_cases (c1 c2 : rgb) (t : spec_float) :
  valid_binary 24 128 t = true -> rgb_wf c1 -> rgb_wf c2 ->
  (float_le_0 t \/ float_ge_1 t \/ (0 < SF2R t < 1)%R \/ t = S754_nan)
  /\ (float_le_0 t -> interpolate c1 c2 t = Ret c1)
  /\ (float_ge_1 t -> interpolate c1 c2 t = Ret c2)
  /\ (t = S754_nan -> interpolate c1 c2 t = Undefined FloatToInt)
  /\ ((0 < SF2R t < 1)%R ->
      exists r g b,
        interpolate c1 c2 t = Ret (mk_rgb r g b) /\
        rgb_wf (mk_rgb r g b) /\
        truncated (SF2R (blend t (red c1) (red c2))) r /\
        truncated (SF2R (blend t (green c1) (green c2))) g /\
        truncated (SF2R (blend t (blue c1) (blue c2))) b /\
        blend_accurate (SF2R (blend t (red c1) (red c2)))
                       (exact_blend (SF2R t) (red c1) (red c2)) /\
        blend_accurate (SF2R (blend t (green c1) (green c2)))
                       (exact_blend (SF2R t) (green c1) (green c2)) /\
        blend_accurate (SF2R (blend t (blue c1) (blue c2)))
                       (exact_blend (SF2R t) (blue c1) (blue c2)))
  /\ (interpolate black white f32_quarter = Ret (mk_rgb 63 63 63)
      /\ SF2R (blend f32_quarter 0 255) = (255 / 4)%R
      /\ truncated (255 / 4) 63
      /\ rounded_to_nearest (255 / 4) 64
      /\ ~ rounded_to_nearest (255 / 4) 63).
Proof.
  intros Hv Hc1 Hc2.
  split; [apply interpolate_branches|].
  split; [now apply interpolate_le_0|].
  split; [now apply interpolate_ge_1|].
  split; [intros ->; apply interpolate_nan|].
  split.
  - intros [H0 H1].
    destruct t as [s|s| |s m e]; cbn [SF2R] in H0, H1; try lra.
    destruct s.
    + exfalso. pose proof (F2R_pos_lower m e). pose proof (bpow_pos e).
      cbn [cond_Zopp] in H0. unfold F2R in *. rewrite opp_IZR in H0. lra.
    + cbn [cond_Zopp] in H1.
      exact (interpolate_inside c1 c2 m e Hv Hc1 Hc2 H1).
  - split; [vm_compute; reflexivity|].
    split; [apply f32_quarter_blend|].
    unfold truncated, rounded_to_nearest.
    split; [lra|]. split.
    + rewrite Rabs_left1; lra.
    + intros H. rewrite Rabs_pos_eq in H; lra.
Qed.

Lemma interpolate_cases_witness :
  exists r g b,
    interpolate (mk_rgb 10 20 30) (mk_rgb 200 100 50) f32_tenth = Ret (mk_rgb r g b) /\
    truncated (SF2R (blend f32_tenth 10 200)) r /\
    blend_accurate (SF2R (blend f32_tenth 10 200)) (exact_blend (SF2R f32_tenth) 10 200).
Proof.
  assert (Hv : valid_binary 24 128 f32_tenth = true) by reflexivity.
  assert (H1 : rgb_wf (mk_rgb 10 20 30)) by (unfold rgb_wf, is_uint8; simpl; lia).
  assert (H2 : rgb_wf (mk_rgb 200 100 50)) by (unfold rgb_wf, is_uint8; simpl; lia).
  assert (Ht : (0 < SF2R f32_tenth < 1)%R) by (rewrite f32_tenth_value; lra).
  destruct (interpolate_cases (mk_rgb 10 20 30) (mk_rgb 200 100 50) f32_tenth Hv H1 H2)
    as (_ & _ & _ & _ & H & _).
  destruct (H Ht) as (r & g & b & E & _ & Tr & _ & _ & Ar & _).
  exists r, g, b. exact (conj E (conj Tr Ar)).
Defined.

(* ===================================================================== *)
(** * Part V: the two ends of the range                                   *)
(* ===================================================================== *)

(** With two stops the step is the range itself and [value = max] lands in
    bin [1]. *)
Lemma step_of_one range :
  1 <= range <= 65535 -> normal 24 128 false (step_of range 1) (IZR range).
Proof.
  intros Hr.
  pose proof (f32_of_Z_exact range Hr) as HR.
  pose proof (f32_of_Z_exact 1 ltac:(lia)) as H1.
  assert (Hr' : (1 <= IZR range <= 65535)%R) by (split; apply IZR_le; lia).
  destruct (SFdiv_normal 24 128 ltac:(lia) false false _ _ _ _ HR H1) as (S & HS & HSn).
  - apply in_range32_intro. replace (IZR range / 1)%R with (IZR range) by field. lra.
  - replace (IZR range / 1)%R with (F2R range 0) in HSn
      by (unfold F2R; rewrite bpow_0; field).
    apply (nearest_exact 24 ltac:(lia)) in HSn.
    + subst S. unfold F2R in HS. rewrite bpow_0, Rmult_1_r in HS. exact HS.
    + assert (2 ^ 16 < 2 ^ 24) by (apply Z.pow_lt_mono_r; lia). lia.
Qed.

Lemma bin_of_top_two range :
  1 <= range <= 65535 -> bin_of range 1 range = Ret 1.
Proof.
  intros Hr.
  pose proof (f32_of_Z_exact range Hr) as HR.
  pose proof (step_of_one range Hr) as HS.
  assert (Hr' : (1 <= IZR range <= 65535)%R) by (split; apply IZR_le; lia).
  assert (E : (IZR range / IZR range = 1)%R) by (field; lra).
  destruct (SFdiv_normal 24 128 ltac:(lia) false false _ _ _ _ HR HS) as (Q & HQ & HQn).
  - apply in_range32_intro. rewrite E. lra.
  - rewrite E in HQn.
    replace 1%R with (F2R 1 0) in HQn by (unfold F2R; rewrite bpow_0; lra).
    apply (nearest_exact 24 ltac:(lia)) in HQn; [|lia].
    unfold F2R in HQn. rewrite bpow_0, Rmult_1_r in HQn. subst Q.
    cbn [xorb] in HQ.
    destruct HQ as (m & e & HQe & _ & _ & HQv).
    destruct (float_to_int_finite m e ltac:(rewrite <- HQv; lra)) as (z & Hz & Hz0 & Hz1 & Hz2).
    unfold bin_of. fold (step_of range 1). fold f32_div in HQe. rewrite HQe, Hz.
    rewrite <- HQv in Hz1, Hz2.
    assert (IZR z < IZR 2)%R by lra. assert (IZR 0 < IZR z)%R by lra.
    apply lt_IZR in H, H0. f_equal. lia.
Qed.

Lemma getRgb_two_stops_max (pl : placement) (g : Gradient) (A B : rgb) :
  0 <= m_min g -> m_min g < m_max g -> m_max g <= 65535 ->
  m_stops g = [A; B] ->
  getRgb_bin g (m_max g) = Ret 1 /\
  fst (getRgb pl (m_max g) g) = Undefined OutOfBounds.
Proof.
  intros Hmin Hlt Hmax Hst.
  assert (Hb : getRgb_bin g (m_max g) = Ret 1).
  { rewrite getRgb_bin_bin_of, Hst.
    unfold getRgb_range, getRgb_v, uint16, size_t.
    rewrite !Z.mod_small by (simpl; lia).
    apply bin_of_top_two. lia. }
  split; [exact Hb|].
  unfold getRgb.
  replace (m_max g <? m_min g) with false by (symmetry; apply Z.ltb_ge; lia).
  rewrite Z.ltb_irrefl. cbn [fst]. rewrite Hb, Hst. reflexivity.
Qed.

(** At [value = min] the bin is [0], the normalized value is [+0] and the
    first stop is returned as it is. *)
Lemma getRgb_at_min (pl : placement) (g : Gradient) (A B : rgb) (rest : list rgb) :
  0 <= m_min g -> m_min g < m_max g -> m_max g <= 65535 ->
  m_stops g = A :: B :: rest ->
  Z.of_nat (length (m_stops g)) <= 2 ^ 30 ->
  fst (getRgb pl (m_min g) g) = Ret A.
Proof.
  intros Hmin Hlt Hmax Hst Hk.
  assert (Hk2 : 2 <= Z.of_nat (length (m_stops g)) <= 2 ^ 30).
  { split; [|assumption]. rewrite Hst. cbn [length]. lia. }
  pose proof (getRgb_bin_at_min g Hmin Hlt Hmax Hk2) as Hb.
  unfold getRgb.
  rewrite Z.ltb_irrefl.
  replace (m_max g <? m_min g) with false by (symmetry; apply Z.ltb_ge; lia).
  cbn [fst]. rewrite Hb. cbn [mbind result_bind].
  unfold getRgb_normalized, getRgb_step.
  rewrite contract_range, contract_count, contract_v by lia.
  rewrite Z.sub_diag.
  destruct (step_normal (m_max g - m_min g) (Z.of_nat (length (m_stops g)) - 1)
              ltac:(lia) ltac:(lia)) as ((m & e & HS & _) & _).
  unfold step_of in HS. rewrite HS, Hst. reflexivity.
Qed.

(** *** Normal numbers are valid *)

Lemma normal32_valid f v :
  normal 24 128 false f v -> valid_binary 24 128 f = true.
Proof.
  intros (m & e & -> & Hd & He & _).
  unfold valid_binary, SpecFloat.bounded, SpecFloat.canonical_mantissa.
  cbn [Zdigits2] in Hd. rewrite Hd.
  unfold SpecFloat.fexp. apply andb_true_intro. split.
  - apply Z.eqb_eq. lia.
  - apply Z.leb_le. lia.
Qed.

(* ===================================================================== *)
(** * Part VI: the object, its outlier branches and the top edge          *)
(* ===================================================================== *)

(** ** [operator==] and the outlier branches *)

Lemma pass_by_value_fresh (lv : gset addr) (p : addr) :
  p ∈ lv -> p <> pass_by_value lv.
Proof.
  intros Hin Heq. subst p. exact (is_fresh lv Hin).
Qed.

Lemma rgb_operator_eq_live (lv : gset addr) (this : addr) (a b : rgb) :
  this ∈ lv -> rgb_operator_eq lv this a b = false.
Proof.
  intros Hin. unfold rgb_operator_eq.
  apply bool_decide_eq_false. now apply pass_by_value_fresh.
Qed.

Lemma rgb_same_refl (a : rgb) : rgb_same a a = true.
Proof. unfold rgb_same. now rewrite !Z.eqb_refl. Qed.

Lemma at_minOutlierColor_live (pl : placement) : at_minOutlierColor pl ∈ live pl.
Proof. unfold live. set_solver. Qed.

Lemma at_maxOutlierColor_live (pl : placement) : at_maxOutlierColor pl ∈ live pl.
Proof. unfold live. set_solver. Qed.

Lemma getRgb_below (pl : placement) (value : Z) (g : Gradient) :
  value < m_min g ->
  fst (getRgb pl value g) = Ret (m_minOutlierColor g).
Proof.
  intros Hlt. unfold getRgb.
  apply Z.ltb_lt in Hlt. rewrite Hlt. simpl.
  now rewrite rgb_operator_eq_live by apply at_minOutlierColor_live.
Qed.

Lemma getRgb_above (pl : placement) (value : Z) (g : Gradient) :
  m_min g <= value -> m_max g < value ->
  fst (getRgb pl value g) = Ret (m_maxOutlierColor g).
Proof.
  intros Hge Hgt. unfold getRgb.
  apply Z.ltb_ge in Hge. rewrite Hge.
  apply Z.ltb_lt in Hgt. rewrite Hgt. simpl.
  now rewrite rgb_operator_eq_live by apply at_maxOutlierColor_live.
Qed.

(** The result of [getRgb] does not depend on where the object lives. *)
Lemma getRgb_placement (pl pl' : placement) (value : Z) (g : Gradient) :
  fst (getRgb pl value g) = fst (getRgb pl' value g).
Proof.
  unfold getRgb.
  destruct (value <? m_min g) eqn:Hlo; simpl.
  - now rewrite !rgb_operator_eq_live by apply at_minOutlierColor_live.
  - destruct (m_max g <? value) eqn:Hhi; simpl.
    + now rewrite !rgb_operator_eq_live by apply at_maxOutlierColor_live.
    + reflexivity.
Qed.

(** [getRgb] reads [m_min], [m_max], the two outlier colours and the stops,
    and nothing else. *)
Lemma getRgb_reads (pl : placement) (value : Z) (g g' : Gradient) :
  m_min g = m_min g' -> m_max g = m_max g' ->
  m_minOutlierColor g = m_minOutlierColor g' ->
  m_maxOutlierColor g = m_maxOutlierColor g' ->
  m_stops g = m_stops g' ->
  fst (getRgb pl value g) = fst (getRgb pl value g').
Proof.
  intros Hmin Hmax Hlo Hhi Hst.
  unfold getRgb, getRgb_bin, getRgb_normalized, getRgb_step, getRgb_v, getRgb_range.
  rewrite Hmin, Hmax, Hlo, Hhi, Hst.
  destruct (value <? m_min g'); [reflexivity |].
  destruct (m_max g' <? value); reflexivity.
Qed.

Lemma getRgb_state (pl : placement) (value : Z) (g : Gradient) :
  snd (getRgb pl value g) = g.
Proof.
  unfold getRgb.
  destruct (value <? m_min g); [reflexivity |].
  destruct (m_max g <? value); reflexivity.
Qed.

(** C2 (as the code behaves): with both outlier colours left at their
    default [INVALID_COLOR], the stored outlier colour has the channel
    values of the sentinel, yet the sentinel test is false, and a value
    below [min] is answered with [INVALID_COLOR] itself, that is [{0,0,0}],
    and not with [stops.front()], which is [{1,2,3}] here; the same holds
    above [max] for [stops.back()]. *)
Theorem getRgb_default_outlier_not_front :
  let g := Gradient_init 10 20 [mk_rgb 1 2 3; mk_rgb 4 5 6]
             INVALID_COLOR INVALID_COLOR junk0 in
  rgb_same (m_minOutlierColor g) INVALID_COLOR = true
  /\ rgb_operator_eq (live pl0) (at_minOutlierColor pl0)
       (m_minOutlierColor g) INVALID_COLOR = false
  /\ fst (getRgb pl0 5 g) = Ret (mk_rgb 0 0 0)
  /\ vec_front (m_stops g) = Ret (mk_rgb 1 2 3)
  /\ rgb_same (m_maxOutlierColor g) INVALID_COLOR = true
  /\ rgb_operator_eq (live pl0) (at_maxOutlierColor pl0)
       (m_maxOutlierColor g) INVALID_COLOR = false
  /\ fst (getRgb pl0 25 g) = Ret (mk_rgb 0 0 0)
  /\ vec_back (m_stops g) = Ret (mk_rgb 4 5 6).
Proof. vm_compute. repeat split; reflexivity. Qed.

(** C3: [a == b] is false for every receiver [a] that is a live object and
    every argument [b], whatever the channel values (also for [a == a],
    whose channels do match, and for [a == INVALID_COLOR]), because the
    receiver's address is compared with the address of the by-value copy;
    hence the sentinel tests of [getRgb] never succeed: below [min] the
    stored [m_minOutlierColor] is returned, above [max] the stored
    [m_maxOutlierColor]. *)
Theorem rgb_operator_eq_never (lv : gset addr) (this : addr) (a b : rgb)
    (pl : placement) (value : Z) (g : Gradient) :
  this ∈ lv ->
  rgb_operator_eq lv this a b = false
  /\ (rgb_same a a = true /\ rgb_operator_eq lv this a a = false)
  /\ rgb_operator_eq lv this a INVALID_COLOR = false
  /\ rgb_operator_eq (live pl) (at_minOutlierColor pl)
       (m_minOutlierColor g) INVALID_COLOR = false
  /\ rgb_operator_eq (live pl) (at_maxOutlierColor pl)
       (m_maxOutlierColor g) INVALID_COLOR = false
  /\ (value < m_min g -> fst (getRgb pl value g) = Ret (m_minOutlierColor g))
  /\ (m_min g <= value -> m_max g < value ->
      fst (getRgb pl value g) = Ret (m_maxOutlierColor g)).
Proof.
  intros Hin.
  repeat split.
  - now apply rgb_operator_eq_live.
  - apply rgb_same_refl.
  - now apply rgb_operator_eq_live.
  - now apply rgb_operator_eq_live.
  - apply rgb_operator_eq_live, at_minOutlierColor_live.
  - apply rgb_operator_eq_live, at_maxOutlierColor_live.
  - apply getRgb_below.
  - apply getRgb_above.
Qed.

Lemma rgb_operator_eq_never_witness :
  (5%positive : addr) ∈ ({[ 5%positive ]} : gset addr)
  /\ rgb_operator_eq {[ 5%positive ]} 5%positive INVALID_COLOR INVALID_COLOR = false.
Proof.
  split.
  - apply elem_of_singleton_2. reflexivity.
  - apply (rgb_operator_eq_never {[ 5%positive ]} 5%positive
             INVALID_COLOR INVALID_COLOR pl0 5 g_two).
    apply elem_of_singleton_2. reflexivity.
Defined.

(** C5: a gradient initialised over [min < max] with the explicit outlier
    colours [C] and [D] answers every value below [min] with [C] and every
    value above [max] with [D]. *)
Theorem getRgb_explicit_outliers (pl : placement) (junk : Gradient)
    (min max : Z) (stops : list rgb) (C D : rgb) (value : Z) :
  min < max ->
  (value < min ->
   fst (getRgb pl value (Gradient_init min max stops C D junk)) = Ret C)
  /\ (max < value ->
      fst (getRgb pl value (Gradient_init min max stops C D junk)) = Ret D).
Proof.
  intros Hmm. split; intros Hv.
  - now rewrite getRgb_below.
  - rewrite getRgb_above; simpl; [reflexivity | lia | lia].
Qed.

Lemma getRgb_explicit_outliers_witness :
  fst (getRgb pl0 5 (Gradient_init 10 20 [black; white] (mk_rgb 1 2 3) (mk_rgb 4 5 6) junk0))
    = Ret (mk_rgb 1 2 3).
Proof.
  apply (getRgb_explicit_outliers pl0 junk0 10 20 [black; white]
           (mk_rgb 1 2 3) (mk_rgb 4 5 6) 5); lia.
Defined.

(** C9: a call of [getRgb] leaves every member of the object as it was,
    and a second call with the same value, wherever the temporaries of
    that call are placed, gives the same outcome as the first. *)
Theorem getRgb_pure (pl pl' : placement) (value : Z) (g : Gradient) :
  snd (getRgb pl value g) = g
  /\ m_min (snd (getRgb pl value g)) = m_min g
  /\ m_max (snd (getRgb pl value g)) = m_max g
  /\ m_stops (snd (getRgb pl value g)) = m_stops g
  /\ m_minOutlierColor (snd (getRgb pl value g)) = m_minOutlierColor g
  /\ m_maxOutlierColor (snd (getRgb pl value g)) = m_maxOutlierColor g
  /\ fst (getRgb pl' value (snd (getRgb pl value g))) = fst (getRgb pl value g).
Proof.
  rewrite getRgb_state. repeat split.
  apply getRgb_placement.
Qed.

(** C10: for every parameter set, the object built by the five-argument
    constructor and the object built by the default constructor followed by
    [initialize] give the same [getRgb] outcome for every value, whatever
    the uninitialised members held and wherever the two objects live. *)
Theorem ctor_equiv_default_initialize (pl pl' : placement) (junk junk' : Gradient)
    (min max : Z) (stops : list rgb) (cmin cmax : rgb) (value : Z) :
  fst (getRgb pl value (Gradient_init min max stops cmin cmax junk))
  = fst (getRgb pl' value
           (snd (initialize min max stops cmin cmax (Gradient_default junk')))).
Proof.
  rewrite (getRgb_placement pl pl').
  apply getRgb_reads; reflexivity.
Qed.

(** ** The top edge *)

(** C1 (as the code behaves): for the two-stop gradient over [0, 100] the
    bin index computed for [value = max] is [1 = stops.size() - 1]; it is
    not clamped to [stops.size() - 2 = 0], and the read of
    [m_stops[bin + 1]] leaves the vector. *)
Theorem getRgb_max_unclamped :
  getRgb_bin g_two 100 = Ret 1
  /\ Z.of_nat (length (m_stops g_two)) - 2 = 0
  /\ vec_at (m_stops g_two) (1 + 1) = Undefined OutOfBounds
  /\ fst (getRgb pl0 100 g_two) = Undefined OutOfBounds.
Proof. vm_compute. repeat split; reflexivity. Qed.

(** C4 (as the code behaves): for the stops [[A; B]] = [[{1,2,3}; {4,5,6}]]
    over [0, 100], [getRgb(min)] is [A], but [getRgb(max)] does not return
    [B]: it reads past the end of the stops. *)
Theorem getRgb_two_stops_endpoints :
  fst (getRgb pl0 0 g_two) = Ret (mk_rgb 1 2 3)
  /\ fst (getRgb pl0 100 g_two) = Undefined OutOfBounds.
Proof. vm_compute. split; reflexivity. Qed.

(** C6 (as the code behaves): with the two identical stops [{10,20,30}]
    over [0, 7], only [value = 0] gives [{10,20,30}].  For the values
    [1 .. 6] the blend [(1.0 - t)*c + t*c] of a channel with itself, whose
    second product is a binary32 one, falls just below [c] in one or two
    channels and is truncated to [c - 1]; and [value = max] reads past the
    end of the stops. *)
Theorem getRgb_identical_stops_not_exact :
  map (fun v => fst (getRgb pl0 v g_same)) [0; 1; 2; 3; 4; 5; 6]
    = [Ret (mk_rgb 10 20 30); Ret (mk_rgb 9 19 30); Ret (mk_rgb 9 19 30);
       Ret (mk_rgb 9 19 30); Ret (mk_rgb 9 19 30); Ret (mk_rgb 10 20 29);
       Ret (mk_rgb 9 19 30)]
  /\ fst (getRgb pl0 7 g_same) = Undefined OutOfBounds.
Proof. vm_compute. split; reflexivity. Qed.

(* ===================================================================== *)
(** * Part VII: out-of-contract objects                                   *)
(* ===================================================================== *)

Lemma in_range32_wide x :
  (bpow (-100) <= x < bpow 100)%R -> in_range 24 128 x.
Proof.
  intros [H1 H2]. unfold in_range.
  change (emin 24 128 + 24) with (-125). change (128 - 1) with 127.
  assert (bpow (-125) <= bpow (-100))%R by (apply bpow_le; lia).
  assert (bpow 100 <= bpow 127)%R by (apply bpow_le; lia).
  lra.
Qed.

Lemma IZR_bounds_bpow n a b :
  0 <= a -> 0 <= b -> 2 ^ a <= n < 2 ^ b -> (bpow a <= IZR n < bpow b)%R.
Proof.
  intros Ha Hb [H1 H2]. rewrite !bpow_IZR by lia.
  split; [apply IZR_le | apply IZR_lt]; assumption.
Qed.

(** Every positive [size_t] converts to a normal binary32 number. *)
Lemma f32_of_Z_size n :
  1 <= n < 2 ^ 64 ->
  exists N, normal 24 128 false (f32_of_Z n) N /\ nearest 24 (IZR n) N.
Proof.
  intros Hn. apply binary_normalize_Z; try lia.
  apply in_range32_wide.
  destruct (IZR_bounds_bpow n 0 64 ltac:(lia) ltac:(lia) ltac:(simpl; lia)) as [H1 H2].
  assert (bpow (-100) <= bpow 0)%R by (apply bpow_le; lia).
  assert (bpow 64 <= bpow 100)%R by (apply bpow_le; lia).
  lra.
Qed.

Lemma float_to_int_large m e :
  (2147483648 <= F2R (Z.pos m) e)%R ->
  float_to_int (S754_finite false m e) = Undefined FloatToInt.
Proof.
  intros Hge. destruct (SFtrunc_floor m e) as (z & Hz & Hz0 & Hz1 & Hz2).
  unfold float_to_int. rewrite Hz.
  assert (IZR 2147483648 < IZR (z + 1))%R by (rewrite plus_IZR; lra).
  apply lt_IZR in H.
  assert (Hb : (z <=? INT_MAX) = false) by (apply Z.leb_gt; unfold INT_MAX; lia).
  rewrite Hb, andb_false_r. reflexivity.
Qed.

(** *** A range of width zero *)

(** With [min == max] the step is [0/n = +0] (or NaN without stops), the
    quotient [0/0] is NaN and its conversion to [int] is undefined. *)
Lemma bin_of_zero_range n :
  0 <= n < 2 ^ 64 -> bin_of 0 n 0 = Undefined FloatToInt.
Proof.
  intros Hn. unfold bin_of.
  destruct (Z.eq_dec n 0) as [->|Hne]; [reflexivity|].
  destruct (f32_of_Z_size n ltac:(lia)) as (N & (m & e & HN & _) & _).
  rewrite HN. reflexivity.
Qed.

Lemma getRgb_at_min_zero_width (pl : placement) (g : Gradient) :
  0 <= m_min g <= 65535 -> m_max g = m_min g ->
  fst (getRgb pl (m_min g) g) = Undefined FloatToInt.
Proof.
  intros Hmin Hmax.
  unfold getRgb. rewrite Hmax, Z.ltb_irrefl. cbn [fst].
  rewrite getRgb_bin_bin_of.
  unfold getRgb_range, getRgb_v, uint16. rewrite Hmax, Z.sub_diag.
  change (0 mod 2 ^ 16) with 0.
  rewrite bin_of_zero_range; [reflexivity|].
  unfold size_t. apply Z.mod_pos_bound. reflexivity.
Qed.

(** X1: a gradient over a range of width zero cannot be queried inside its
    range: whatever the stops, [getRgb(min)] converts NaN to [int]. *)
Theorem getRgb_zero_width (pl : placement) (g : Gradient) :
  0 <= m_min g <= 65535 -> m_max g = m_min g ->
  fst (getRgb pl (m_min g) g) = Undefined FloatToInt.
Proof. exact (getRgb_at_min_zero_width pl g). Qed.

Lemma getRgb_zero_width_witness :
  fst (getRgb pl0 5 (Gradient_init 5 5 [black; white] INVALID_COLOR INVALID_COLOR junk0))
  = Undefined FloatToInt.
Proof.
  apply (getRgb_zero_width pl0
           (Gradient_init 5 5 [black; white] INVALID_COLOR INVALID_COLOR junk0)).
  - simpl. lia.
  - reflexivity.
Defined.

(** *** Fewer than two stops *)

(** Without stops, [stops.size() - 1] wraps to [2^64 - 1]: the step is
    about [range * 2^-64], the quotient of a positive [v] exceeds every
    [int], and [v = 0] selects bin 0 of an empty vector. *)
Lemma bin_of_no_stops range v :
  1 <= range <= 65535 -> 1 <= v <= range ->
  bin_of range (2 ^ 64 - 1) v = Undefined FloatToInt.
Proof.
  intros Hr Hv.
  pose proof (f32_of_Z_exact range Hr) as HR.
  pose proof (f32_of_Z_exact v ltac:(lia)) as HV.
  destruct (f32_of_Z_size (2 ^ 64 - 1) ltac:(simpl; lia)) as (N & HN & HNn).
  apply nearest32_bounds in HNn. destruct HNn as (_ & HN1 & HN2).
  assert (Hr' : (1 <= IZR range <= 65535)%R) by (split; apply IZR_le; lia).
  assert (Hv' : (1 <= IZR v <= 65535)%R) by (split; apply IZR_le; lia).
  replace (IZR (2 ^ 64 - 1)) with 18446744073709551615%R in HN1, HN2 by reflexivity.
  assert (HNb : (9223372036854775808 <= N <= 36893488147419103232)%R) by lra.
  assert (B60 : bpow 60 = 1152921504606846976%R) by apply bpow_60.
  assert (B100 : (bpow 70 <= bpow 100)%R) by (apply bpow_le; lia).
  assert (B70 : bpow 70 = 1180591620717411303424%R) by (unfold bpow; simpl; lra).
  assert (Bm100 : (bpow (-100) <= bpow (-70))%R) by (apply bpow_le; lia).
  assert (Bm70 : bpow (-70) = (/ 1180591620717411303424)%R) by (unfold bpow; simpl; lra).
  destruct (SFdiv_normal 24 128 ltac:(lia) false false _ _ _ _ HR HN) as (S & HS & HSn).
  { apply in_range32_wide. split.
    - apply Rle_trans with (1 := Bm100). rewrite Bm70.
      apply Rmult_le_reg_r with N; [lra|]. rewrite Rdiv_mul_id by lra. nra.
    - apply Rlt_le_trans with (2 := B100). rewrite B70.
      apply Rmult_lt_reg_r with N; [lra|]. rewrite Rdiv_mul_id by lra. nra. }
  apply nearest32_bounds in HSn. destruct HSn as (Hqpos & HS1 & HS2).
  assert (HSN1 : (IZR range * (1 - / 16777216) <= S * N)%R).
  { apply Rle_trans with (IZR range / N * (1 - / 16777216) * N)%R;
      [right; field; lra | apply Rmult_le_compat_r; lra]. }
  assert (HSN2 : (S * N <= IZR range * (1 + / 16777216))%R).
  { apply Rle_trans with (IZR range / N * (1 + / 16777216) * N)%R;
      [apply Rmult_le_compat_r; lra | right; field; lra]. }
  assert (HSpos : (0 < S)%R).
  { apply Rlt_le_trans with (2 := HS1). apply Rmult_lt_0_compat; lra. }
  assert (HSup : (S <= / 70368744177664)%R).
  { destruct (Rle_lt_dec S (/ 70368744177664)); [assumption|exfalso].
    assert (/ 70368744177664 * 9223372036854775808 < S * N)%R; [|lra].
    apply Rmult_le_0_lt_compat; lra. }
  assert (HSlo : (/ 73786976294838206464 <= S)%R).
  { destruct (Rle_lt_dec (/ 73786976294838206464) S); [assumption|exfalso].
    assert (S * N <= / 73786976294838206464 * 36893488147419103232)%R; [|lra].
    apply Rmult_le_compat; lra. }
  cbn [xorb] in HS.
  destruct (SFdiv_normal 24 128 ltac:(lia) false false _ _ _ _ HV HS) as (Q & HQ & HQn).
  { apply in_range32_wide. split.
    - apply Rle_trans with (1 := Bm100). rewrite Bm70.
      apply Rmult_le_reg_r with S; [lra|]. rewrite Rdiv_mul_id by lra. nra.
    - assert (B100' : (bpow 90 <= bpow 100)%R) by (apply bpow_le; lia).
      assert (B90 : bpow 90 = 1237940039285380274899124224%R) by (unfold bpow; simpl; lra).
      apply Rlt_le_trans with (2 := B100'). rewrite B90.
      apply Rmult_lt_reg_r with S; [lra|]. rewrite Rdiv_mul_id by lra. nra. }
  apply nearest32_bounds in HQn. destruct HQn as (_ & HQ1 & _).
  assert (HQbig : (2147483648 <= Q)%R).
  { assert (70368744177664 <= IZR v / S)%R.
    { apply Rmult_le_reg_r with S; [lra|]. rewrite Rdiv_mul_id by lra. nra. }
    nra. }
  cbn [xorb] in HQ. destruct HQ as (m & e & HQe & _ & _ & HQv).
  unfold bin_of, f32_div. rewrite HQe.
  apply float_to_int_large. rewrite <- HQv. exact HQbig.
Qed.

Lemma bin_of_no_stops_zero range :
  1 <= range <= 65535 -> bin_of range (2 ^ 64 - 1) 0 = Ret 0.
Proof.
  intros Hr.
  pose proof (f32_of_Z_exact range Hr) as HR.
  destruct (f32_of_Z_size (2 ^ 64 - 1) ltac:(simpl; lia)) as (N & HN & HNn).
  apply nearest32_bounds in HNn. destruct HNn as (_ & HN1 & HN2).
  assert (Hr' : (1 <= IZR range <= 65535)%R) by (split; apply IZR_le; lia).
  replace (IZR (2 ^ 64 - 1)) with 18446744073709551615%R in HN1, HN2 by reflexivity.
  assert (HNb : (9223372036854775808 <= N <= 36893488147419103232)%R) by lra.
  assert (B100 : (bpow 70 <= bpow 100)%R) by (apply bpow_le; lia).
  assert (B70 : bpow 70 = 1180591620717411303424%R) by (unfold bpow; simpl; lra).
  assert (Bm100 : (bpow (-100) <= bpow (-70))%R) by (apply bpow_le; lia).
  assert (Bm70 : bpow (-70) = (/ 1180591620717411303424)%R) by (unfold bpow; simpl; lra).
  destruct (SFdiv_normal 24 128 ltac:(lia) false false _ _ _ _ HR HN) as (S & HS & _).
  { apply in_range32_wide. split.
    - apply Rle_trans with (1 := Bm100). rewrite Bm70.
      apply Rmult_le_reg_r with N; [lra|]. rewrite Rdiv_mul_id by lra. nra.
    - apply Rlt_le_trans with (2 := B100). rewrite B70.
      apply Rmult_lt_reg_r with N; [lra|]. rewrite Rdiv_mul_id by lra. nra. }
  destruct HS as (m & e & HSe & _).
  unfold bin_of, f32_div. rewrite HSe. reflexivity.
Qed.

(** With one stop, [stops.size() - 1] is zero: the step is [+inf], every
    quotient is [+0] and bin 0 is selected, whose right neighbour
    [m_stops[1]] does not exist. *)
Lemma bin_of_one_stop range v :
  1 <= range <= 65535 -> 0 <= v <= range -> bin_of range 0 v = Ret 0.
Proof.
  intros Hr Hv.
  pose proof (f32_of_Z_exact range Hr) as (mr & er & HR & _).
  unfold bin_of. rewrite HR.
  destruct (Z.eq_dec v 0) as [->|Hne]; [reflexivity|].
  pose proof (f32_of_Z_exact v ltac:(lia)) as (mv & ev & HV & _).
  rewrite HV. reflexivity.
Qed.

(** X2: a gradient with fewer than two stops (so also a default-constructed
    one, which has none) cannot be queried inside its range: every value of
    [min, max] ends in undefined behaviour, an out-of-bounds read of the
    stops or a conversion to [int] that does not fit. *)
Theorem getRgb_few_stops (pl : placement) (g : Gradient) (value : Z) :
  0 <= m_min g -> m_max g <= 65535 ->
  (length (m_stops g) < 2)%nat ->
  m_min g <= value <= m_max g ->
  fst (getRgb pl value g) = Undefined OutOfBounds
  \/ fst (getRgb pl value g) = Undefined FloatToInt.
Proof.
  intros Hmin Hmax Hk Hv.
  destruct (Z.eq_dec (m_max g) (m_min g)) as [E|Hne].
  { right. assert (value = m_min g) by lia. subst value.
    apply getRgb_at_min_zero_width; lia. }
  unfold getRgb.
  replace (value <? m_min g) with false by (symmetry; apply Z.ltb_ge; lia).
  replace (m_max g <? value) with false by (symmetry; apply Z.ltb_ge; lia).
  cbn [fst]. rewrite getRgb_bin_bin_of.
  unfold getRgb_range, getRgb_v, uint16.
  rewrite !Z.mod_small by lia.
  destruct (m_stops g) as [|c [|c' rest]] eqn:Hst; cbn [length] in Hk; try lia.
  - (* no stops *)
    change (size_t (Z.of_nat (length (@nil rgb)) - 1)) with (2 ^ 64 - 1).
    destruct (Z.eq_dec value (m_min g)) as [->|Hv0].
    + left. rewrite Z.sub_diag, bin_of_no_stops_zero by lia. reflexivity.
    + right. rewrite bin_of_no_stops by lia. reflexivity.
  - (* one stop *)
    change (size_t (Z.of_nat (length [c]) - 1)) with 0.
    left. rewrite bin_of_one_stop by lia. reflexivity.
Qed.

Lemma getRgb_few_stops_witness :
  fst (getRgb pl0 50 (Gradient_default g_two)) = Undefined OutOfBounds
  \/ fst (getRgb pl0 50 (Gradient_default g_two)) = Undefined FloatToInt.
Proof.
  apply (getRgb_few_stops pl0 (Gradient_default g_two) 50).
  - simpl. lia.
  - simpl. lia.
  - simpl. lia.
  - simpl. lia.
Defined.

(* ===================================================================== *)
(** * Part VIII: stop positions and the top edge                          *)
(* ===================================================================== *)

(** X3: when [max - min] is a multiple [(k-1) * s] of the number of bins, a
    query at the position [min + j * s] of stop [j < k - 1] returns that
    stop exactly, whatever the other stops are. *)
Theorem getRgb_at_stop (pl : placement) (g : Gradient) (s j : Z) (c : rgb) :
  0 <= m_min g -> m_max g <= 65535 ->
  2 <= Z.of_nat (length (m_stops g)) -> 1 <= s ->
  m_max g - m_min g = (Z.of_nat (length (m_stops g)) - 1) * s ->
  0 <= j < Z.of_nat (length (m_stops g)) - 1 ->
  nth_error (m_stops g) (Z.to_nat j) = Some c ->
  fst (getRgb pl (m_min g + j * s) g) = Ret c.
Proof.
  intros Hmin Hmax Hk Hs Hrange Hj Hc.
  set (n := Z.of_nat (length (m_stops g)) - 1) in *.
  assert (Hn : 1 <= n) by (unfold n; lia).
  assert (Hns : n * s <= 65535) by lia.
  assert (Hjs : 0 <= j * s <= n * s) by nia.
  assert (Hn16 : n <= 65535) by nia.
  unfold getRgb.
  replace (m_min g + j * s <? m_min g) with false by (symmetry; apply Z.ltb_ge; lia).
  replace (m_max g <? m_min g + j * s) with false by (symmetry; apply Z.ltb_ge; lia).
  cbn [fst]. rewrite getRgb_bin_bin_of.
  unfold getRgb_normalized, getRgb_step, getRgb_range, getRgb_v, uint16, size_t.
  fold n. rewrite Hrange.
  replace (m_min g + j * s - m_min g) with (j * s) by lia.
  rewrite !Z.mod_small by lia.
  rewrite (bin_of_even n s Hn Hs Hns j) by lia.
  cbn [mbind result_bind].
  fold (step_of (n * s) n).
  rewrite (normalized_even n s Hn Hs Hns j) by lia.
  assert (Hv1 : vec_at (m_stops g) j = Ret c).
  { unfold vec_at. replace (0 <=? j) with true by (symmetry; apply Z.leb_le; lia).
    now rewrite Hc. }
  assert (Hv2 : exists c', vec_at (m_stops g) (j + 1) = Ret c').
  { unfold vec_at. replace (0 <=? j + 1) with true by (symmetry; apply Z.leb_le; lia).
    destruct (nth_error (m_stops g) (Z.to_nat (j + 1))) as [c'|] eqn:E; [eauto|].
    apply nth_error_None in E. unfold n in Hj. lia. }
  destruct Hv2 as (c' & Hv2).
  assert (Hsucc : int_succ j = Ret (j + 1)).
  { unfold int_succ, INT_MAX.
    replace (j + 1 <=? 2 ^ 31 - 1) with true by (symmetry; apply Z.leb_le; lia).
    reflexivity. }
  rewrite Hv1. cbn [mbind result_bind]. rewrite Hsucc. cbn [mbind result_bind].
  rewrite Hv2. reflexivity.
Qed.

Lemma getRgb_at_stop_witness :
  fst (getRgb pl0 50 (Gradient_init 0 100 [black; white; black] INVALID_COLOR
                        INVALID_COLOR junk0)) = Ret white.
Proof.
  apply (getRgb_at_stop pl0
           (Gradient_init 0 100 [black; white; black] INVALID_COLOR INVALID_COLOR junk0)
           50 1 white); simpl; try lia; reflexivity.
Defined.

(** X4: when [max - min] is a multiple of the number of bins, the query at
    [max] selects bin [k - 1] and reads [m_stops[k]], past the end of the
    stops; with two stops this is every range. *)
Theorem getRgb_top_even (pl : placement) (g : Gradient) (s : Z) :
  0 <= m_min g -> m_max g <= 65535 ->
  2 <= Z.of_nat (length (m_stops g)) -> 1 <= s ->
  m_max g - m_min g = (Z.of_nat (length (m_stops g)) - 1) * s ->
  getRgb_bin g (m_max g) = Ret (Z.of_nat (length (m_stops g)) - 1)
  /\ fst (getRgb pl (m_max g) g) = Undefined OutOfBounds.
Proof.
  intros Hmin Hmax Hk Hs Hrange.
  set (n := Z.of_nat (length (m_stops g)) - 1) in *.
  assert (Hn : 1 <= n) by (unfold n; lia).
  assert (Hns : n * s <= 65535) by lia.
  assert (Hn16 : n <= 65535) by nia.
  assert (Hb : getRgb_bin g (m_max g) = Ret n).
  { rewrite getRgb_bin_bin_of.
    unfold getRgb_range, getRgb_v, uint16, size_t. fold n. rewrite Hrange.
    rewrite !Z.mod_small by lia.
    apply (bin_of_even n s Hn Hs Hns n). lia. }
  split; [exact Hb|].
  unfold getRgb.
  replace (m_max g <? m_min g) with false by (symmetry; apply Z.ltb_ge; nia).
  rewrite Z.ltb_irrefl. cbn [fst]. rewrite Hb. cbn [mbind result_bind].
  assert (Hv1 : exists c, vec_at (m_stops g) n = Ret c).
  { unfold vec_at. replace (0 <=? n) with true by (symmetry; apply Z.leb_le; lia).
    destruct (nth_error (m_stops g) (Z.to_nat n)) as [c|] eqn:E; [eauto|].
    apply nth_error_None in E. unfold n in E. lia. }
  destruct Hv1 as (c & Hv1). rewrite Hv1. cbn [mbind result_bind].
  assert (Hsucc : int_succ n = Ret (n + 1)).
  { unfold int_succ, INT_MAX.
    replace (n + 1 <=? 2 ^ 31 - 1) with true by (symmetry; apply Z.leb_le; lia).
    reflexivity. }
  rewrite Hsucc. cbn [mbind result_bind].
  assert (Hv2 : vec_at (m_stops g) (n + 1) = Undefined OutOfBounds).
  { unfold vec_at. replace (0 <=? n + 1) with true by (symmetry; apply Z.leb_le; lia).
    replace (nth_error (m_stops g) (Z.to_nat (n + 1))) with (@None rgb); [reflexivity|].
    symmetry. apply nth_error_None. unfold n. lia. }
  rewrite Hv2. reflexivity.
Qed.

Lemma getRgb_top_even_witness :
  fst (getRgb pl0 100 (Gradient_init 0 100 [black; white; black] INVALID_COLOR
                         INVALID_COLOR junk0)) = Undefined OutOfBounds.
Proof.
  apply (getRgb_top_even pl0
           (Gradient_init 0 100 [black; white; black] INVALID_COLOR INVALID_COLOR junk0)
           50); simpl; try lia; reflexivity.
Defined.

(* ===================================================================== *)
(** * Part IX: what [interpolate] and [getRgb] return inside the range    *)
(* ===================================================================== *)

(** ** [interpolate] on every binary32 number *)

Lemma channel_between_left a b : channel_between a b a.
Proof. unfold channel_between. lia. Qed.

Lemma channel_between_right a b : channel_between a b b.
Proof. unfold channel_between. lia. Qed.

(** A truncated blend that is within [2^-16] of the exact one cannot
    leave the interval of its two channels by more than the unit
    truncation costs. *)
Lemma truncated_blend_between T a b x r :
  (0 < T < 1)%R -> is_uint8 a -> is_uint8 b ->
  truncated x r -> blend_accurate x (exact_blend T a b) ->
  channel_between a b r.
Proof.
  intros HT Ha Hb [Hr1 Hr2] Hx. unfold blend_accurate, exact_blend in *.
  apply Rabs_le_inv in Hx.
  unfold is_uint8 in Ha, Hb.
  assert (Hlo : (IZR (Z.min a b) <= (1 - T) * IZR a + T * IZR b)%R).
  { assert (IZR (Z.min a b) <= IZR a)%R by (apply IZR_le; lia).
    assert (IZR (Z.min a b) <= IZR b)%R by (apply IZR_le; lia). nra. }
  assert (Hhi : ((1 - T) * IZR a + T * IZR b <= IZR (Z.max a b))%R).
  { assert (IZR a <= IZR (Z.max a b))%R by (apply IZR_le; lia).
    assert (IZR b <= IZR (Z.max a b))%R by (apply IZR_le; lia). nra. }
  set (E := ((1 - T) * IZR a + T * IZR b)%R) in *.
  unfold channel_between. split.
  - assert (IZR (Z.min a b - 1) < IZR (r + 1))%R.
    { rewrite minus_IZR, plus_IZR. lra. }
    apply lt_IZR in H. lia.
  - assert (IZR r < IZR (Z.max a b + 1))%R.
    { rewrite plus_IZR. lra. }
    apply lt_IZR in H. lia.
Qed.

(** [interpolate] returns a colour for every binary32 number but NaN. *)
Lemma interpolate_defined (c1 c2 : rgb) (t : spec_float) :
  valid_binary 24 128 t = true -> t <> S754_nan -> rgb_wf c1 -> rgb_wf c2 ->
  exists c, interpolate c1 c2 t = Ret c /\ rgb_wf c /\ rgb_between c1 c2 c.
Proof.
  intros Hv Hnan H1 H2.
  assert (B1 : rgb_between c1 c2 c1)
    by (repeat split; apply channel_between_left || idtac; unfold channel_between; lia).
  assert (B2 : rgb_between c1 c2 c2)
    by (repeat split; unfold channel_between; lia).
  destruct t as [s|s| |s m e].
  - exists c1. split; [apply interpolate_le_0; [assumption | exact I] | auto].
  - destruct s.
    + exists c1. split; [apply interpolate_le_0; [assumption | reflexivity] | auto].
    + exists c2. split; [apply interpolate_ge_1; [assumption | reflexivity] | auto].
  - contradiction.
  - destruct s.
    + exists c1. split; [|auto]. apply interpolate_le_0; [assumption|].
      cbn [float_le_0 SF2R cond_Zopp]. pose proof (F2R_pos_lower m e).
      pose proof (bpow_pos e). unfold F2R in *. rewrite opp_IZR. lra.
    + destruct (Rlt_dec (F2R (Z.pos m) e) 1) as [Hlt|Hge].
      * destruct (interpolate_inside c1 c2 m e Hv H1 H2 Hlt)
          as (r & g & b & Hi & Hwf & Tr & Tg & Tb & Ar & Ag & Ab).
        exists (mk_rgb r g b). split; [exact Hi|]. split; [exact Hwf|].
        assert (HT : (0 < F2R (Z.pos m) e < 1)%R).
        { split; [|assumption]. pose proof (F2R_pos_lower m e).
          pose proof (bpow_pos e). lra. }
        destruct H1 as (R1 & G1 & Bl1). destruct H2 as (R2 & G2 & Bl2).
        unfold rgb_between. cbn [red green blue].
        split; [|split].
        -- exact (truncated_blend_between _ _ _ _ _ HT R1 R2 Tr Ar).
        -- exact (truncated_blend_between _ _ _ _ _ HT G1 G2 Tg Ag).
        -- exact (truncated_blend_between _ _ _ _ _ HT Bl1 Bl2 Tb Ab).
      * exists c2. split; [|auto]. apply interpolate_ge_1; [assumption|].
        cbn [float_ge_1 SF2R cond_Zopp]. lra.
Qed.

(** X5: [interpolate] returns a colour for every binary32 number [t]
    other than NaN; each channel of that colour is at most the larger of
    the two given channels and at least the smaller one less one. *)
Theorem interpolate_total (c1 c2 : rgb) (t : spec_float) :
  valid_binary 24 128 t = true -> t <> S754_nan -> rgb_wf c1 -> rgb_wf c2 ->
  exists c, interpolate c1 c2 t = Ret c /\ rgb_wf c /\ rgb_between c1 c2 c.
Proof. exact (interpolate_defined c1 c2 t). Qed.

Lemma interpolate_total_witness :
  exists c, interpolate (mk_rgb 10 20 30) (mk_rgb 200 100 50) f32_tenth = Ret c
            /\ rgb_wf c /\ rgb_between (mk_rgb 10 20 30) (mk_rgb 200 100 50) c.
Proof.
  apply (interpolate_total (mk_rgb 10 20 30) (mk_rgb 200 100 50) f32_tenth).
  - reflexivity.
  - discriminate.
  - unfold rgb_wf, is_uint8; simpl; lia.
  - unfold rgb_wf, is_uint8; simpl; lia.
Defined.

Lemma f32_tiny_inside : (0 < SF2R f32_tiny < 1)%R.
Proof.
  unfold f32_tiny, SF2R, F2R. cbn [cond_Zopp].
  pose proof (bpow_pos (-77)).
  assert (bpow (-77) * bpow 77 = 1)%R by (rewrite <- bpow_add; apply bpow_0).
  assert (bpow 77 = IZR (2 ^ 77)) by (apply bpow_IZR; lia).
  assert (IZR 8388609 * bpow (-77) * bpow 77 = 8388609)%R by (rewrite Rmult_assoc, H0; ring).
  assert (IZR 8388609 < IZR (2 ^ 77))%R by (apply IZR_lt; reflexivity).
  split; [nra|].
  apply Rmult_lt_reg_r with (bpow 77); [rewrite H1; apply IZR_lt; reflexivity|].
  rewrite H2, H1, Rmult_1_l. exact H3.
Qed.

(** X6: blending a colour with itself does not always return it: there is
    a binary32 number [0 < t < 1] and a colour [c] with 8-bit channels for
    which [interpolate c c t] is darker than [c] by one unit in every
    channel (white at [t = 2^-54 * (1 + 2^-23)]).  The lower bound of
    [rgb_between] is met. *)
Theorem interpolate_identical_darker :
  exists (t : spec_float) (c : rgb),
    valid_binary 24 128 t = true /\ (0 < SF2R t < 1)%R /\ rgb_wf c /\
    interpolate c c t = Ret (mk_rgb (red c - 1) (green c - 1) (blue c - 1)).
Proof.
  exists f32_tiny, white.
  split; [reflexivity|]. split; [exact f32_tiny_inside|].
  split; [unfold rgb_wf, is_uint8, white; simpl; lia|].
  vm_compute. reflexivity.
Qed.

(** ** The normalized value of [getRgb] *)

Lemma normal_valid32 s f v :
  normal 24 128 s f v -> valid_binary 24 128 f = true.
Proof.
  intros (m & e & -> & Hd & He & _).
  unfold valid_binary, SpecFloat.bounded, SpecFloat.canonical_mantissa.
  cbn [Zdigits2] in Hd. rewrite Hd.
  unfold SpecFloat.fexp. apply andb_true_intro. split.
  - apply Z.eqb_eq. lia.
  - apply Z.leb_le. lia.
Qed.

Lemma normal_not_nan prec emax s f v : normal prec emax s f v -> f <> S754_nan.
Proof. intros (m & e & -> & _). discriminate. Qed.

(** Subtraction of a larger number: the result is negative. *)
Lemma SFsub_finite_neg prec emax mx ex my ey :
  0 < prec ->
  in_range prec emax (F2R (Z.pos my) ey - F2R (Z.pos mx) ex) ->
  exists z,
    normal prec emax true
      (SFsub prec emax (S754_finite false mx ex) (S754_finite false my ey)) z /\
    nearest prec (F2R (Z.pos my) ey - F2R (Z.pos mx) ex) z.
Proof.
  intros Hprec HR. cbn [SFsub cond_Zopp].
  destruct (shl_align_spec mx ex (Z.min ex ey) ltac:(lia)) as (ax & Hax & Vax).
  destruct (shl_align_spec my ey (Z.min ex ey) ltac:(lia)) as (ay & Hay & Vay).
  rewrite Hax, Hay. cbn [fst].
  assert (E : (F2R (Z.pos my) ey - F2R (Z.pos mx) ex)%R
              = F2R (Z.pos ay - Z.pos ax) (Z.min ex ey)).
  { unfold F2R. rewrite minus_IZR, Vax, Vay, !mult_IZR.
    rewrite !IZR_pow2_bpow by lia.
    rewrite Rmult_minus_distr_r, !Rmult_assoc, <- !bpow_add.
    f_equal; f_equal; f_equal; lia. }
  rewrite E in *.
  assert (Hpos : 0 < Z.pos ay - Z.pos ax).
  { destruct HR as [R1 _]. pose proof (bpow_pos (emin prec emax + prec)).
    pose proof (bpow_pos (Z.min ex ey)). unfold F2R in R1.
    apply lt_IZR. nra. }
  destruct (Z.pos ax - Z.pos ay) as [|k|k] eqn:Hk; try lia.
  cbn [binary_normalize].
  replace (Z.pos ay - Z.pos ax) with (Z.pos k) in * by lia.
  now apply binary_round_normal.
Qed.

(** Two positive numbers differ by at least one unit of the smaller
    exponent. *)
Lemma F2R_diff_grid mx ex my ey :
  (F2R (Z.pos my) ey < F2R (Z.pos mx) ex)%R ->
  (bpow (Z.min ex ey) <= F2R (Z.pos mx) ex - F2R (Z.pos my) ey)%R.
Proof.
  intros Hlt.
  destruct (shl_align_spec mx ex (Z.min ex ey) ltac:(lia)) as (ax & _ & Vax).
  destruct (shl_align_spec my ey (Z.min ex ey) ltac:(lia)) as (ay & _ & Vay).
  assert (E : (F2R (Z.pos mx) ex - F2R (Z.pos my) ey)%R
              = F2R (Z.pos ax - Z.pos ay) (Z.min ex ey)).
  { unfold F2R. rewrite minus_IZR, Vax, Vay, !mult_IZR.
    rewrite !IZR_pow2_bpow by lia.
    rewrite Rmult_minus_distr_r, !Rmult_assoc, <- !bpow_add.
    f_equal; f_equal; f_equal; lia. }
  rewrite E. pose proof (bpow_pos (Z.min ex ey)) as Hb.
  assert (Hpos : 0 < Z.pos ax - Z.pos ay).
  { apply lt_IZR.
    assert (0 < F2R (Z.pos ax - Z.pos ay) (Z.min ex ey))%R by (rewrite <- E; lra).
    unfold F2R in H. nra. }
  assert (1 <= IZR (Z.pos ax - Z.pos ay))%R by (apply IZR_le; lia).
  unfold F2R. nra.
Qed.

(** The exponent of a normal binary32 number that is at least [2^a]. *)
Lemma normal32_exponent m e a :
  Zdigits2 (Z.pos m) = 24 -> (bpow a <= F2R (Z.pos m) e)%R -> a - 24 < e.
Proof.
  intros Hd Hx.
  pose proof (Zdigits2_bounds (Z.pos m) ltac:(lia)) as [_ D2]. rewrite Hd in D2.
  apply IZR_lt in D2. rewrite IZR_pow2_bpow in D2 by lia.
  pose proof (bpow_pos e).
  assert (bpow a < bpow (24 + e))%R.
  { rewrite bpow_add. unfold F2R in Hx. nra. }
  apply bpow_lt_inv in H0. lia.
Qed.

(** The difference of two binary32 numbers of moderate size is [+0] or a
    normal number of either sign. *)
Lemma f32_sub_cases X Y x y :
  normal 24 128 false X x -> normal 24 128 false Y y ->
  (bpow (-40) <= x < bpow 60)%R -> (bpow (-40) <= y < bpow 60)%R ->
  f32_sub X Y = S754_zero false
  \/ exists s d, normal 24 128 s (f32_sub X Y) d /\ (bpow (-65) <= d < bpow 61)%R.
Proof.
  intros HX HY Bx By.
  destruct (Rtotal_order x y) as [Hlt|[Heq|Hgt]].
  - (* x < y *)
    right. exists true.
    destruct HX as (mx & ex & -> & Hdx & Hex & Hx).
    destruct HY as (my & ey & -> & Hdy & Hey & Hy).
    subst x y.
    pose proof (normal32_exponent mx ex (-40) Hdx ltac:(lra)).
    pose proof (normal32_exponent my ey (-40) Hdy ltac:(lra)).
    pose proof (F2R_diff_grid my ey mx ex Hlt) as Hg.
    assert (G1 : (bpow (-64) <= bpow (Z.min ey ex))%R) by (apply bpow_le; lia).
    pose proof (bpow_pos (-40)).
    destruct (SFsub_finite_neg 24 128 mx ex my ey ltac:(lia)) as (d & Hd & Hn).
    { apply in_range32_wide.
      assert (bpow (-100) <= bpow (-64))%R by (apply bpow_le; lia).
      assert (bpow 60 <= bpow 100)%R by (apply bpow_le; lia). lra. }
    exists d. split; [exact Hd|].
    apply nearest32_bounds in Hn. destruct Hn as (_ & N1 & N2).
    assert (bpow (-64) = 2 * bpow (-65))%R
      by (rewrite <- bpow_succ; f_equal).
    assert (bpow 61 = 2 * bpow 60)%R by (rewrite <- bpow_succ; f_equal).
    pose proof (bpow_pos (-65)). pose proof (bpow_pos 60). nra.
  - (* x = y *)
    left. subst y. rewrite <- (normal_unique 24 128 false X Y x ltac:(lia) HX HY).
    destruct HX as (mx & ex & -> & _). unfold f32_sub. apply SFsub_self.
  - (* y < x *)
    right. exists false.
    destruct HX as (mx & ex & -> & Hdx & Hex & Hx).
    destruct HY as (my & ey & -> & Hdy & Hey & Hy).
    subst x y.
    pose proof (normal32_exponent mx ex (-40) Hdx ltac:(lra)).
    pose proof (normal32_exponent my ey (-40) Hdy ltac:(lra)).
    pose proof (F2R_diff_grid mx ex my ey Hgt) as Hg.
    assert (G1 : (bpow (-64) <= bpow (Z.min ex ey))%R) by (apply bpow_le; lia).
    pose proof (bpow_pos (-40)).
    destruct (SFsub_finite 24 128 ltac:(lia) mx ex my ey) as (d & Hd & Hn).
    { apply in_range32_wide.
      assert (bpow (-100) <= bpow (-64))%R by (apply bpow_le; lia).
      assert (bpow 60 <= bpow 100)%R by (apply bpow_le; lia). lra. }
    exists d. split; [exact Hd|].
    apply nearest32_bounds in Hn. destruct Hn as (_ & N1 & N2).
    assert (bpow (-64) = 2 * bpow (-65))%R
      by (rewrite <- bpow_succ; f_equal).
    assert (bpow 61 = 2 * bpow 60)%R by (rewrite <- bpow_succ; f_equal).
    pose proof (bpow_pos (-65)). pose proof (bpow_pos 60). nra.
Qed.

Lemma step_bounds range n S :
  step_model range n S ->
  (1 <= n <= 1073741824)%R -> (1 <= range <= 65535)%R ->
  (/ 4294967296 <= S <= 262144)%R.
Proof.
  intros (N & [HN1 HN2] & [HS1 HS2] & HNpos & HSpos) Hn Hr.
  assert (B1 : (S * N <= 131072)%R) by lra.
  assert (B2 : (/ 2 <= N <= 2147483648)%R) by lra.
  split.
  - destruct (Rle_lt_dec (/ 4294967296) S); [assumption|exfalso].
    assert (S * N <= / 4294967296 * 2147483648)%R; [|lra].
    apply Rmult_le_compat; lra.
  - destruct (Rle_lt_dec S 262144); [assumption|exfalso].
    assert (262144 * / 2 < S * N)%R; [|lra].
    apply Rmult_le_0_lt_compat; lra.
Qed.

Lemma bpow_m32 : bpow (-32) = (/ 4294967296)%R.
Proof. unfold bpow. simpl. lra. Qed.

Lemma bpow_18 : bpow 18 = 262144%R.
Proof. unfold bpow. simpl. lra. Qed.

(** A quotient by [step] stays in the binary32 range. *)
Lemma div_step_range d S a b :
  (bpow a <= d < bpow b)%R -> (/ 4294967296 <= S <= 262144)%R ->
  -82 <= a -> b <= 68 ->
  in_range 24 128 (d / S).
Proof.
  intros [D1 D2] [S1 S2] Ha Hb. apply in_range32_wide.
  rewrite <- bpow_m32 in S1. rewrite <- bpow_18 in S2.
  pose proof (bpow_pos (-32)). pose proof (bpow_pos a).
  assert (HS : (0 < S)%R) by lra.
  split.
  - apply Rmult_le_reg_r with S; [assumption|].
    rewrite Rdiv_mul_id by lra.
    apply Rle_trans with (bpow (-100) * bpow 18)%R.
    + apply Rmult_le_compat_l; [pose proof (bpow_pos (-100)); lra | assumption].
    + rewrite <- bpow_add. apply Rle_trans with (bpow a); [apply bpow_le; lia | assumption].
  - apply Rmult_lt_reg_r with S; [assumption|].
    rewrite Rdiv_mul_id by lra.
    apply Rlt_le_trans with (bpow b); [assumption|].
    apply Rle_trans with (bpow 100 * bpow (-32))%R.
    + rewrite <- bpow_add. apply bpow_le. lia.
    + apply Rmult_le_compat_l; [pose proof (bpow_pos 100); lra | assumption].
Qed.

(** [normalized_v] is never NaN inside the contract, whatever bin index
    enters it. *)
Lemma normalized_defined range n v b :
  1 <= range <= 65535 -> 1 <= n <= 2 ^ 30 -> 0 <= v <= range -> 0 <= b <= 2 ^ 30 ->
  valid_binary 24 128
    (f32_div (f32_sub (f32_of_Z v) (f32_mul (f32_of_Z b) (step_of range n)))
             (step_of range n)) = true
  /\ f32_div (f32_sub (f32_of_Z v) (f32_mul (f32_of_Z b) (step_of range n)))
             (step_of range n) <> S754_nan.
Proof.
  intros Hr Hn Hv Hb.
  destruct (step_normal range n Hr Hn) as (HS & HSm).
  assert (Hr' : (1 <= IZR range <= 65535)%R) by (split; apply IZR_le; lia).
  assert (Hn' : (1 <= IZR n <= 1073741824)%R) by (split; apply IZR_le; lia).
  pose proof (step_bounds _ _ _ HSm Hn' Hr') as HSb.
  set (S := SF2R (step_of range n)) in *.
  assert (Bm40 : (bpow (-40) <= / 1099511627776)%R) by (rewrite bpow_m40; lra).
  assert (B60 : (1152921504606846976 <= bpow 60)%R) by (rewrite bpow_60; lra).
  destruct (Z.eq_dec b 0) as [->|Hb0].
  - (* bin = 0: the product is +0 *)
    destruct (Z.eq_dec v 0) as [->|Hv0].
    + destruct HS as (ms & es & -> & _). split; [reflexivity | discriminate].
    + pose proof (f32_of_Z_exact v ltac:(lia)) as HV.
      assert (E : f32_sub (f32_of_Z v) (f32_mul (f32_of_Z 0) (step_of range n))
                  = f32_of_Z v).
      { destruct HS as (ms & es & -> & _). destruct HV as (mv & ev & -> & _).
        reflexivity. }
      rewrite E.
      assert (Hv' : (1 <= IZR v <= 65535)%R) by (split; apply IZR_le; lia).
      destruct (SFdiv_normal 24 128 ltac:(lia) false false _ _ _ _ HV HS) as (Q & HQ & _).
      { apply in_range32_intro.
        apply (step_quot_range (IZR range) (IZR n) S (IZR v) HSm); lra. }
      fold f32_div in HQ.
      split; [exact (normal_valid32 _ _ _ HQ) | exact (normal_not_nan _ _ _ _ _ HQ)].
  - (* bin >= 1: the product is a normal number *)
    destruct (f32_of_Z_count b ltac:(lia)) as (N & HN & HNn).
    apply nearest32_bounds in HNn. destruct HNn as (_ & HN1 & HN2).
    assert (Hb' : (1 <= IZR b <= 1073741824)%R) by (split; apply IZR_le; lia).
    assert (HNb : (/ 2 <= N <= 2147483648)%R) by lra.
    assert (HNS : (/ 8589934592 <= N * S <= 562949953421312)%R).
    { split.
      - apply Rle_trans with (/ 2 * / 4294967296)%R; [lra|].
        apply Rmult_le_compat; lra.
      - apply Rle_trans with (2147483648 * 262144)%R; [|lra].
        apply Rmult_le_compat; lra. }
    destruct (SFmul_normal 24 128 ltac:(lia) false false _ _ _ _ HN HS) as (P & HP & HPn).
    { apply in_range32_intro. lra. }
    cbn [xorb] in HP. fold f32_mul in HP.
    apply nearest32_bounds in HPn. destruct HPn as (_ & HP1 & HP2).
    assert (HPb : (/ 17179869184 <= P <= 1125899906842624)%R) by lra.
    destruct (Z.eq_dec v 0) as [->|Hv0].
    + (* 0 - P = -P *)
      assert (HX : normal 24 128 true
                     (f32_sub (f32_of_Z 0) (f32_mul (f32_of_Z b) (step_of range n))) P).
      { destruct HP as (mp & ep & EP & Hd & He & HPv). rewrite EP.
        exists mp, ep. split; [reflexivity|]. split; [exact Hd|]. split; [exact He | exact HPv]. }
      destruct (SFdiv_normal 24 128 ltac:(lia) true false _ _ _ _ HX HS) as (Q & HQ & _).
      { apply (div_step_range P S (-40) 60); try lia; [|exact HSb]. lra. }
      fold f32_div in HQ.
      split; [exact (normal_valid32 _ _ _ HQ) | exact (normal_not_nan _ _ _ _ _ HQ)].
    + pose proof (f32_of_Z_exact v ltac:(lia)) as HV.
      assert (Hv' : (1 <= IZR v <= 65535)%R) by (split; apply IZR_le; lia).
      destruct (f32_sub_cases _ _ _ _ HV HP ltac:(lra) ltac:(lra))
        as [E | (s & d & HX & Hd)].
      * rewrite E. destruct HS as (ms & es & -> & _).
        split; [reflexivity | discriminate].
      * destruct (SFdiv_normal 24 128 ltac:(lia) s false _ _ _ _ HX HS) as (Q & HQ & _).
        { apply (div_step_range d S (-65) 61); try lia; [exact Hd | exact HSb]. }
        fold f32_div in HQ.
        split; [exact (normal_valid32 _ _ _ HQ) | exact (normal_not_nan _ _ _ _ _ HQ)].
Qed.

(** ** [getRgb] inside the range *)

Lemma vec_at_nth (l : list rgb) (i : Z) (c : rgb) :
  0 <= i -> nth_error l (Z.to_nat i) = Some c -> vec_at l i = Ret c.
Proof.
  intros Hi Hc. unfold vec_at.
  replace (0 <=? i) with true by (symmetry; apply Z.leb_le; lia).
  now rewrite Hc.
Qed.

Lemma vec_at_defined (l : list rgb) (i : Z) :
  0 <= i < Z.of_nat (length l) -> exists c, nth_error l (Z.to_nat i) = Some c.
Proof.
  intros Hi. destruct (nth_error l (Z.to_nat i)) as [c|] eqn:E; [eauto|].
  apply nth_error_None in E. lia.
Qed.

Lemma vec_at_outside (l : list rgb) (i : Z) :
  Z.of_nat (length l) <= i -> vec_at l i = Undefined OutOfBounds.
Proof.
  intros Hi. unfold vec_at. destruct (0 <=? i); [|reflexivity].
  replace (nth_error l (Z.to_nat i)) with (@None rgb); [reflexivity|].
  symmetry. apply nth_error_None. lia.
Qed.

Lemma int_succ_small (i : Z) : i <= 2 ^ 30 -> int_succ i = Ret (i + 1).
Proof.
  intros Hi. unfold int_succ, INT_MAX.
  replace (i + 1 <=? 2 ^ 31 - 1) with true by (symmetry; apply Z.leb_le; lia).
  reflexivity.
Qed.

Lemma stops_wf_nth (l : list rgb) (i : nat) (c : rgb) :
  Forall rgb_wf l -> nth_error l i = Some c -> rgb_wf c.
Proof.
  intros Hl Hc. rewrite List.Forall_forall in Hl. apply Hl.
  eapply nth_error_In. exact Hc.
Qed.

Section Inside.
Variable g : Gradient.
Hypothesis Hmin : 0 <= m_min g.
Hypothesis Hlt : m_min g < m_max g.
Hypothesis Hmax : m_max g <= 65535.
Hypothesis Hstops : 2 <= Z.of_nat (length (m_stops g)) <= 2 ^ 30.

(** A query whose bin has a right neighbour blends the two stops of that
    bin. *)
Lemma getRgb_in_bin (pl : placement) (value b : Z) :
  Forall rgb_wf (m_stops g) ->
  m_min g <= value <= m_max g ->
  getRgb_bin g value = Ret b -> 0 <= b <= Z.of_nat (length (m_stops g)) - 2 ->
  exists c1 c2 c,
    nth_error (m_stops g) (Z.to_nat b) = Some c1 /\
    nth_error (m_stops g) (Z.to_nat (b + 1)) = Some c2 /\
    fst (getRgb pl value g) = Ret c /\ rgb_wf c /\ rgb_between c1 c2 c.
Proof using Hmin Hlt Hmax Hstops.
  intros Hwf Hv Hb Hb2.
  destruct (vec_at_defined (m_stops g) b ltac:(lia)) as (c1 & H1).
  destruct (vec_at_defined (m_stops g) (b + 1) ltac:(lia)) as (c2 & H2).
  pose proof (stops_wf_nth _ _ _ Hwf H1) as W1.
  pose proof (stops_wf_nth _ _ _ Hwf H2) as W2.
  destruct (normalized_defined (m_max g - m_min g)
              (Z.of_nat (length (m_stops g)) - 1) (value - m_min g) b
              ltac:(lia) ltac:(lia) ltac:(lia) ltac:(lia)) as (Hval & Hnan).
  destruct (interpolate_defined c1 c2 _ Hval Hnan W1 W2) as (c & Hc & Wc & Bc).
  exists c1, c2, c. split; [exact H1|]. split; [exact H2|].
  split; [|exact (conj Wc Bc)].
  unfold getRgb.
  replace (value <? m_min g) with false by (symmetry; apply Z.ltb_ge; lia).
  replace (m_max g <? value) with false by (symmetry; apply Z.ltb_ge; lia).
  cbn [fst]. rewrite Hb. cbn [mbind result_bind].
  rewrite (vec_at_nth (m_stops g) b c1 ltac:(lia) H1). cbn [mbind result_bind].
  rewrite int_succ_small by lia. cbn [mbind result_bind].
  rewrite (vec_at_nth (m_stops g) (b + 1) c2 ltac:(lia) H2). cbn [mbind result_bind].
  unfold getRgb_normalized, getRgb_step.
  rewrite contract_range, contract_count, contract_v by lia.
  exact Hc.
Qed.

(** A query whose bin is the last index reads past the stops. *)
Lemma getRgb_in_last (pl : placement) (value : Z) :
  m_min g <= value <= m_max g ->
  getRgb_bin g value = Ret (Z.of_nat (length (m_stops g)) - 1) ->
  fst (getRgb pl value g) = Undefined OutOfBounds.
Proof using Hmin Hlt Hmax Hstops.
  intros Hv Hb.
  destruct (vec_at_defined (m_stops g) (Z.of_nat (length (m_stops g)) - 1)
              ltac:(lia)) as (c1 & H1).
  unfold getRgb.
  replace (value <? m_min g) with false by (symmetry; apply Z.ltb_ge; lia).
  replace (m_max g <? value) with false by (symmetry; apply Z.ltb_ge; lia).
  cbn [fst]. rewrite Hb. cbn [mbind result_bind].
  rewrite (vec_at_nth (m_stops g) (Z.of_nat (length (m_stops g)) - 1) c1
             ltac:(lia) H1).
  cbn [mbind result_bind].
  rewrite int_succ_small by lia. cbn [mbind result_bind].
  rewrite vec_at_outside by lia. reflexivity.
Qed.

End Inside.

(** X7: inside the contract and below [max], [getRgb] has no undefined
    step: the bin [b] has a right neighbour, and the result is a colour
    with 8-bit channels, each at most the larger channel of stops [b] and
    [b + 1] and at least the smaller one less one. *)
Theorem getRgb_below_max_defined (pl : placement) (g : Gradient) (value : Z) :
  0 <= m_min g -> m_min g < m_max g -> m_max g <= 65535 ->
  2 <= Z.of_nat (length (m_stops g)) <= 2 ^ 30 ->
  Forall rgb_wf (m_stops g) ->
  m_min g <= value < m_max g ->
  exists b c1 c2 c,
    getRgb_bin g value = Ret b /\
    0 <= b <= Z.of_nat (length (m_stops g)) - 2 /\
    nth_error (m_stops g) (Z.to_nat b) = Some c1 /\
    nth_error (m_stops g) (Z.to_nat (b + 1)) = Some c2 /\
    fst (getRgb pl value g) = Ret c /\ rgb_wf c /\ rgb_between c1 c2 c.
Proof.
  intros Hmin Hlt Hmax Hk Hwf Hv.
  destruct (getRgb_bin_defined g Hmin Hlt Hmax Hk value ltac:(lia)) as (b & Hb & _).
  pose proof (getRgb_bin_below_max g Hmin Hlt Hmax Hk value b Hv Hb) as Hb2.
  destruct (getRgb_in_bin g Hmin Hlt Hmax Hk pl value b Hwf ltac:(lia) Hb Hb2)
    as (c1 & c2 & c & H1 & H2 & Hc).
  exists b, c1, c2, c. auto.
Qed.

Lemma getRgb_below_max_defined_witness :
  exists b c1 c2 c,
    getRgb_bin g_two 50 = Ret b /\
    0 <= b <= Z.of_nat (length (m_stops g_two)) - 2 /\
    nth_error (m_stops g_two) (Z.to_nat b) = Some c1 /\
    nth_error (m_stops g_two) (Z.to_nat (b + 1)) = Some c2 /\
    fst (getRgb pl0 50 g_two) = Ret c /\ rgb_wf c /\ rgb_between c1 c2 c.
Proof.
  apply (getRgb_below_max_defined pl0 g_two 50); simpl; try lia.
  repeat constructor; simpl; lia.
Defined.

(** *** The top edge *)

(** The quotient [range / step] misses the divisor [n] by less than one
    when [n] has at most 22 bits. *)
Lemma quot_top range n S Q :
  step_model range n S -> quot_model range S Q ->
  (1 <= n <= 4194304)%R -> (1 <= range)%R ->
  (n - 1 < Q < n + 1)%R.
Proof.
  intros (N & [HN1 HN2] & [HS1 HS2] & HNpos & HSpos) [HQ1 HQ2] Hn Hr.
  assert (HSN : (0 < S * N)%R) by (apply Rmult_lt_0_compat; assumption).
  split.
  - destruct (Rlt_le_dec (n - 1) Q) as [|Hle]; [assumption|exfalso].
    assert (A1 : (Q * (S * N) <= (n - 1) * (S * N))%R)
      by (apply Rmult_le_compat_r; lra).
    assert (A2 : ((n - 1) * (S * N) <= (n - 1) * (range * (1 + / 16777216)))%R)
      by (apply Rmult_le_compat_l; lra).
    assert (A3 : (range * (1 - / 16777216) * N <= Q * S * N)%R)
      by (apply Rmult_le_compat_r; lra).
    assert (A4 : (range * (1 - / 16777216) * (n * (1 - / 16777216))
                  <= range * (1 - / 16777216) * N)%R)
      by (apply Rmult_le_compat_l; [apply Rmult_le_pos; lra | lra]).
    assert (A5 : (range * ((1 - / 16777216) * (n * (1 - / 16777216))
                           - (n - 1) * (1 + / 16777216)) <= 0)%R) by lra.
    assert (A6 : (0 < (1 - / 16777216) * (n * (1 - / 16777216))
                     - (n - 1) * (1 + / 16777216))%R) by lra.
    assert (A7 : (0 < range * ((1 - / 16777216) * (n * (1 - / 16777216))
                           - (n - 1) * (1 + / 16777216)))%R)
      by (apply Rmult_lt_0_compat; lra).
    lra.
  - destruct (Rlt_le_dec Q (n + 1)) as [|Hge]; [assumption|exfalso].
    assert (A1 : ((n + 1) * (S * N) <= Q * (S * N))%R)
      by (apply Rmult_le_compat_r; lra).
    assert (A2 : ((n + 1) * (range * (1 - / 16777216)) <= (n + 1) * (S * N))%R)
      by (apply Rmult_le_compat_l; lra).
    assert (A3 : (Q * S * N <= range * (1 + / 16777216) * N)%R)
      by (apply Rmult_le_compat_r; lra).
    assert (A4 : (range * (1 + / 16777216) * N
                  <= range * (1 + / 16777216) * (n * (1 + / 16777216)))%R)
      by (apply Rmult_le_compat_l; [apply Rmult_le_pos; lra | lra]).
    assert (A5 : (range * ((n + 1) * (1 - / 16777216)
                           - (1 + / 16777216) * (n * (1 + / 16777216))) <= 0)%R) by lra.
    assert (A6 : (0 < (n + 1) * (1 - / 16777216)
                     - (1 + / 16777216) * (n * (1 + / 16777216)))%R) by lra.
    assert (A7 : (0 < range * ((n + 1) * (1 - / 16777216)
                           - (1 + / 16777216) * (n * (1 + / 16777216))))%R)
      by (apply Rmult_lt_0_compat; lra).
    lra.
Qed.

Lemma nearest_quot_model v S Q :
  (0 < S)%R -> nearest 24 (v / S) Q -> quot_model v S Q.
Proof.
  intros HS HQ. apply nearest32_bounds in HQ. destruct HQ as (_ & HQ1 & HQ2).
  unfold quot_model. split.
  - apply Rle_trans with (v / S * (1 - / 16777216) * S)%R;
      [right; field; lra | apply Rmult_le_compat_r; lra].
  - apply Rle_trans with (v / S * (1 + / 16777216) * S)%R;
      [apply Rmult_le_compat_r; lra | right; field; lra].
Qed.

Lemma bin_of_top range n :
  1 <= range <= 65535 -> 1 <= n <= 2 ^ 22 ->
  bin_of range n range = Ret (n - 1) \/ bin_of range n range = Ret n.
Proof.
  intros Hr Hn.
  assert (2 ^ 22 < 2 ^ 30) by (apply Z.pow_lt_mono_r; lia).
  destruct (bin_of_positive range n range Hr ltac:(lia) ltac:(lia))
    as (Q & z & HQ & Hz & Hz0 & Hz1 & Hz2).
  destruct (step_normal range n Hr ltac:(lia)) as (_ & HSm).
  assert (HSpos : (0 < SF2R (step_of range n))%R)
    by (destruct HSm as (N & _ & _ & _ & HS); exact HS).
  pose proof (nearest_quot_model _ _ _ HSpos HQ) as HQm.
  assert (Hr' : (1 <= IZR range)%R) by (apply IZR_le; lia).
  assert (Hn' : (1 <= IZR n <= 4194304)%R)
    by (split; apply IZR_le; [lia | change 4194304 with (2 ^ 22); lia]).
  destruct (quot_top _ _ _ _ HSm HQm Hn' Hr') as [Q1 Q2].
  assert (Z1 : (IZR (n - 1) < IZR (z + 1))%R) by (rewrite minus_IZR, plus_IZR; lra).
  assert (Z2 : (IZR z < IZR (n + 1))%R) by (rewrite plus_IZR; lra).
  apply lt_IZR in Z1, Z2.
  rewrite Hz. destruct (Z.eq_dec z n) as [->|]; [right; reflexivity|].
  left. f_equal. lia.
Qed.

(** X8: at [value == max], with at most [2^22 + 1] stops, the bin is the
    last index [k - 1] or the one before.  In the first case [getRgb]
    reads [m_stops[k]], past the end; in the second it returns a colour
    between the last two stops.  Which case holds depends on the rounding
    of [range / (k - 1)]. *)
Theorem getRgb_top_edge (pl : placement) (g : Gradient) :
  0 <= m_min g -> m_min g < m_max g -> m_max g <= 65535 ->
  2 <= Z.of_nat (length (m_stops g)) <= 2 ^ 22 + 1 ->
  Forall rgb_wf (m_stops g) ->
  (getRgb_bin g (m_max g) = Ret (Z.of_nat (length (m_stops g)) - 1) /\
   fst (getRgb pl (m_max g) g) = Undefined OutOfBounds)
  \/ (getRgb_bin g (m_max g) = Ret (Z.of_nat (length (m_stops g)) - 2) /\
      exists c1 c2 c,
        nth_error (m_stops g) (length (m_stops g) - 2) = Some c1 /\
        nth_error (m_stops g) (length (m_stops g) - 1) = Some c2 /\
        fst (getRgb pl (m_max g) g) = Ret c /\ rgb_wf c /\ rgb_between c1 c2 c).
Proof.
  intros Hmin Hlt Hmax Hk Hwf.
  assert (P22 : 2 ^ 22 + 1 <= 2 ^ 30) by (vm_compute; discriminate).
  assert (Hk' : 2 <= Z.of_nat (length (m_stops g)) <= 2 ^ 30) by lia.
  assert (Hb : getRgb_bin g (m_max g)
               = bin_of (m_max g - m_min g) (Z.of_nat (length (m_stops g)) - 1)
                        (m_max g - m_min g)).
  { rewrite getRgb_bin_bin_of, contract_range, contract_count, contract_v by lia.
    reflexivity. }
  destruct (bin_of_top (m_max g - m_min g) (Z.of_nat (length (m_stops g)) - 1)
              ltac:(lia) ltac:(lia)) as [E|E]; rewrite E in Hb.
  - right.
    replace (Z.of_nat (length (m_stops g)) - 1 - 1)
      with (Z.of_nat (length (m_stops g)) - 2) in Hb by lia.
    split; [exact Hb|].
    destruct (getRgb_in_bin g Hmin Hlt Hmax Hk' pl (m_max g) _ Hwf ltac:(lia) Hb
                ltac:(lia)) as (c1 & c2 & c & H1 & H2 & Hc).
    exists c1, c2, c.
    replace (Z.to_nat (Z.of_nat (length (m_stops g)) - 2))
      with (length (m_stops g) - 2)%nat in H1 by lia.
    replace (Z.to_nat (Z.of_nat (length (m_stops g)) - 2 + 1))
      with (length (m_stops g) - 1)%nat in H2 by lia.
    auto.
  - left. split; [exact Hb|].
    apply (getRgb_in_last g Hmin Hlt Hmax Hk' pl (m_max g)); [lia | exact Hb].
Qed.

Lemma getRgb_top_edge_witness :
  (getRgb_bin g_eight (m_max g_eight) = Ret (Z.of_nat (length (m_stops g_eight)) - 1) /\
   fst (getRgb pl0 (m_max g_eight) g_eight) = Undefined OutOfBounds)
  \/ (getRgb_bin g_eight (m_max g_eight) = Ret (Z.of_nat (length (m_stops g_eight)) - 2) /\
      exists c1 c2 c,
        nth_error (m_stops g_eight) (length (m_stops g_eight) - 2) = Some c1 /\
        nth_error (m_stops g_eight) (length (m_stops g_eight) - 1) = Some c2 /\
        fst (getRgb pl0 (m_max g_eight) g_eight) = Ret c /\ rgb_wf c
        /\ rgb_between c1 c2 c).
Proof.
  apply (getRgb_top_edge pl0 g_eight); simpl; try lia.
  repeat constructor; simpl; lia.
Defined.

(** X9: both cases of the top edge occur inside the contract: there is a
    gradient whose query at [max] reads past the stops (two stops over
    [0, 100]) and one whose query at [max] returns a colour (eight stops
    over [0, 1], where the bin at [max] is [6 = k - 2]). *)
Theorem getRgb_top_edge_both :
  (exists g,
     0 <= m_min g /\ m_min g < m_max g /\ m_max g <= 65535 /\
     2 <= Z.of_nat (length (m_stops g)) <= 2 ^ 22 + 1 /\
     Forall rgb_wf (m_stops g) /\
     fst (getRgb pl0 (m_max g) g) = Undefined OutOfBounds)
  /\ (exists g c,
        0 <= m_min g /\ m_min g < m_max g /\ m_max g <= 65535 /\
        2 <= Z.of_nat (length (m_stops g)) <= 2 ^ 22 + 1 /\
        Forall rgb_wf (m_stops g) /\
        getRgb_bin g (m_max g) = Ret (Z.of_nat (length (m_stops g)) - 2) /\
        fst (getRgb pl0 (m_max g) g) = Ret c).
Proof.
  assert (W2 : Forall rgb_wf (m_stops g_two))
    by (repeat constructor; simpl; lia).
  assert (W8 : Forall rgb_wf (m_stops g_eight))
    by (repeat constructor; simpl; lia).
  split.
  - exists g_two.
    split; [simpl; lia|]. split; [simpl; lia|]. split; [simpl; lia|].
    split; [simpl; lia|]. split; [exact W2|].
    vm_compute. reflexivity.
  - exists g_eight, black.
    split; [simpl; lia|]. split; [simpl; lia|]. split; [simpl; lia|].
    split; [simpl; lia|]. split; [exact W8|].
    split; vm_compute; reflexivity.
Qed.

(** ** An inverted range *)

(** X10: on an object with [m_min > m_max] every query is an outlier query:
    the stops are never read and the result is the minimum outlier colour
    below [m_min] and the maximum outlier colour from [m_min] on. *)
Theorem getRgb_inverted_range (pl : placement) (g : Gradient) (value : Z) :
  m_max g < m_min g ->
  fst (getRgb pl value g)
  = Ret (if value <? m_min g then m_minOutlierColor g else m_maxOutlierColor g).
Proof.
  intros Hinv. destruct (value <? m_min g) eqn:E.
  - apply getRgb_below. now apply Z.ltb_lt.
  - apply Z.ltb_ge in E. apply getRgb_above; lia.
Qed.

Lemma getRgb_inverted_range_witness :
  fst (getRgb pl0 7 (Gradient_init 10 5 [] black white junk0)) = Ret black.
Proof.
  apply (getRgb_inverted_range pl0 (Gradient_init 10 5 [] black white junk0) 7).
  simpl. lia.
Defined.

(** ** The first stop and two identical stops *)

(** X11: inside the contract [getRgb(min)] is the first stop, unchanged,
    for every range and every number of stops. *)
Theorem getRgb_min_first_stop (pl : placement) (g : Gradient) (A B : rgb)
    (rest : list rgb) :
  0 <= m_min g -> m_min g < m_max g -> m_max g <= 65535 ->
  m_stops g = A :: B :: rest ->
  Z.of_nat (length (m_stops g)) <= 2 ^ 30 ->
  fst (getRgb pl (m_min g) g) = Ret A.
Proof. exact (getRgb_at_min pl g A B rest). Qed.

Lemma getRgb_min_first_stop_witness :
  fst (getRgb pl0 (m_min g_five) g_five) = Ret black.
Proof.
  apply (getRgb_min_first_stop pl0 g_five black white [black; white; black]);
    simpl; try lia; reflexivity.
Defined.

(** X12: a gradient of two identical stops [c] returns, for every value
    from [min] up to but not including [max], a colour whose channels are
    those of [c] or one unit less; at [min] it returns [c] itself. *)
Theorem getRgb_two_identical_stops (pl : placement) (g : Gradient) (c : rgb)
    (value : Z) :
  0 <= m_min g -> m_min g < m_max g -> m_max g <= 65535 ->
  m_stops g = [c; c] -> rgb_wf c ->
  m_min g <= value < m_max g ->
  fst (getRgb pl (m_min g) g) = Ret c
  /\ exists c',
       fst (getRgb pl value g) = Ret c' /\
       red c - 1 <= red c' <= red c /\
       green c - 1 <= green c' <= green c /\
       blue c - 1 <= blue c' <= blue c.
Proof.
  intros Hmin Hlt Hmax Hst Hc Hv.
  assert (Hk : 2 <= Z.of_nat (length (m_stops g)) <= 2 ^ 30)
    by (rewrite Hst; cbn [length]; lia).
  split.
  { apply (getRgb_at_min pl g c c []); try assumption. lia. }
  assert (Hwf : Forall rgb_wf (m_stops g)).
  { rewrite Hst. constructor; [exact Hc|]. constructor; [exact Hc | constructor]. }
  destruct (getRgb_bin_defined g Hmin Hlt Hmax Hk value ltac:(lia)) as (b & Hb & _).
  pose proof (getRgb_bin_below_max g Hmin Hlt Hmax Hk value b Hv Hb) as Hb2.
  destruct (getRgb_in_bin g Hmin Hlt Hmax Hk pl value b Hwf ltac:(lia) Hb Hb2)
    as (c1 & c2 & c' & H1 & H2 & Hr & _ & Br & Bg & Bb).
  assert (b = 0) by (rewrite Hst in Hb2; cbn [length] in Hb2; lia). subst b.
  rewrite Hst in H1, H2. cbn in H1, H2.
  injection H1 as <-. injection H2 as <-.
  exists c'. split; [exact Hr|].
  unfold channel_between in Br, Bg, Bb. lia.
Qed.

Lemma getRgb_two_identical_stops_witness :
  fst (getRgb pl0 (m_min g_same) g_same) = Ret (mk_rgb 10 20 30)
  /\ exists c',
       fst (getRgb pl0 3 g_same) = Ret c' /\
       10 - 1 <= red c' <= 10 /\ 20 - 1 <= green c' <= 20 /\ 30 - 1 <= blue c' <= 30.
Proof.
  apply (getRgb_two_identical_stops pl0 g_same (mk_rgb 10 20 30) 3);
    simpl; try lia; try reflexivity.
  unfold rgb_wf, is_uint8; simpl; lia.
Defined.

(** ** What [initialize] writes *)

(** X13: [initialize] overwrites [m_min], [m_max], the stops and the two
    outlier colours and leaves [m_minColor] and [m_maxColor] as they were;
    [getRgb] reads neither of these two.  So a second [initialize]
    replaces the first, and after [initialize] every query depends on the
    arguments alone, whatever the object held before. *)
Theorem initialize_replaces (pl : placement) (g g' : Gradient)
    (min max min' max' : Z) (stops stops' : list rgb) (C D C' D' : rgb)
    (value : Z) :
  snd (initialize min max stops C D (snd (initialize min' max' stops' C' D' g)))
  = snd (initialize min max stops C D g)
  /\ m_minColor (snd (initialize min max stops C D g)) = m_minColor g
  /\ m_maxColor (snd (initialize min max stops C D g)) = m_maxColor g
  /\ fst (getRgb pl value (snd (initialize min max stops C D g)))
     = fst (getRgb pl value (snd (initialize min max stops C D g'))).
Proof.
  split; [reflexivity|]. split; [reflexivity|]. split; [reflexivity|].
  apply getRgb_reads; reflexivity.
Qed.

(** ** Accuracy of a two-stop gradient *)

(** From the blend at the rounded position to the blend at the exact one. *)
Lemma truncated_blend_accurate q Q a b x r :
  (0 <= q <= 1)%R -> (q * (1 - / 16777216) <= Q <= q * (1 + / 16777216))%R ->
  (0 < Q < 1)%R ->
  is_uint8 a -> is_uint8 b ->
  truncated x r -> blend_accurate x (exact_blend Q a b) ->
  channel_accurate (exact_blend q a b) r.
Proof.
  intros Hq HQ HQ1 Ha Hb [Hr1 Hr2] Hx. unfold blend_accurate, exact_blend in *.
  apply Rabs_le_inv in Hx.
  assert (Ha' : (0 <= IZR a <= 255)%R) by (destruct Ha; split; apply IZR_le; lia).
  assert (Hb' : (0 <= IZR b <= 255)%R) by (destruct Hb; split; apply IZR_le; lia).
  set (EQ := ((1 - Q) * IZR a + Q * IZR b)%R) in *.
  set (Eq := ((1 - q) * IZR a + q * IZR b)%R).
  assert (Hd : (- (/ 16777216) <= Q - q <= / 16777216)%R) by nra.
  assert (HE : (Eq - 255 * / 16777216 <= EQ <= Eq + 255 * / 16777216)%R).
  { assert (E : (EQ - Eq = (Q - q) * (IZR b - IZR a))%R) by (unfold EQ, Eq; ring).
    assert (- 255 <= IZR b - IZR a <= 255)%R by lra.
    split; nra. }
  unfold channel_accurate. fold Eq. split; lra.
Qed.

(** X14: a two-stop gradient [[A; B]] is accurate below [max]: the result
    at [value] is, channel by channel, the exact linear interpolation
    [(1 - q) * A + q * B] at [q = (value - min) / (max - min)] with its
    fractional part discarded, up to an error of [2^-15] on the exact
    value (the roundings of the position and of the binary32 product). *)
Theorem getRgb_two_stops_accurate (pl : placement) (g : Gradient) (A B : rgb)
    (value : Z) :
  0 <= m_min g -> m_min g < m_max g -> m_max g <= 65535 ->
  m_stops g = [A; B] -> rgb_wf A -> rgb_wf B ->
  m_min g <= value < m_max g ->
  exists c,
    fst (getRgb pl value g) = Ret c /\ rgb_wf c /\
    rgb_accurate (IZR (value - m_min g) / IZR (m_max g - m_min g)) A B c.
Proof.
  intros Hmin Hlt Hmax Hst HA HB Hv.
  assert (Hrange : (1 <= IZR (m_max g - m_min g))%R) by (apply IZR_le; lia).
  destruct (Z.eq_dec value (m_min g)) as [->|Hne].
  { exists A. split.
    - apply (getRgb_at_min pl g A B []); try assumption.
      rewrite Hst. cbn [length]. lia.
    - split; [exact HA|].
      rewrite Z.sub_diag. unfold Rdiv. rewrite Rmult_0_l.
      unfold rgb_accurate, channel_accurate, exact_blend.
      repeat split; lra. }
  assert (Hk : 2 <= Z.of_nat (length (m_stops g)) <= 2 ^ 30)
    by (rewrite Hst; cbn [length]; lia).
  destruct (getRgb_bin_defined g Hmin Hlt Hmax Hk value ltac:(lia)) as (b & Hb & Hb0).
  pose proof (getRgb_bin_below_max g Hmin Hlt Hmax Hk value b ltac:(lia) Hb) as Hb1.
  assert (b = 0) by (rewrite Hst in Hb1; cbn [length] in Hb1; lia). subst b.
  set (range := m_max g - m_min g) in *.
  set (v := value - m_min g) in *.
  assert (Hr : 1 <= range <= 65535) by (unfold range; lia).
  assert (Hv1 : 1 <= v < range) by (unfold v, range; lia).
  pose proof (f32_of_Z_exact v ltac:(lia)) as HV.
  pose proof (step_of_one range Hr) as HS.
  assert (Hr' : (2 <= IZR range <= 65535)%R) by (split; apply IZR_le; lia).
  assert (Hv' : (1 <= IZR v <= IZR range - 1)%R).
  { split; [apply IZR_le; lia|]. rewrite <- minus_IZR. apply IZR_le. lia. }
  assert (Hq : (/ 65535 <= IZR v / IZR range <= 1 - / 65535)%R).
  { split.
    - apply Rmult_le_reg_r with (IZR range); [lra|].
      rewrite Rdiv_mul_id by lra. nra.
    - apply Rmult_le_reg_r with (IZR range); [lra|].
      rewrite Rdiv_mul_id by lra. nra. }
  destruct (SFdiv_normal 24 128 ltac:(lia) false false _ _ _ _ HV HS) as (Q & HQ & HQn).
  { apply in_range32_intro. lra. }
  cbn [xorb] in HQ. fold f32_div in HQ.
  pose proof (normal32_valid _ _ HQ) as Hvalid.
  apply nearest32_bounds in HQn. destruct HQn as (_ & HQl & HQu).
  destruct HQ as (mq & eq & HQe & Hd & He & HQv).
  rewrite HQe in Hvalid.
  assert (HQ1 : (0 < Q < 1)%R) by (split; nra).
  assert (Hlt1 : (F2R (Z.pos mq) eq < 1)%R) by (rewrite <- HQv; lra).
  destruct (interpolate_inside A B mq eq Hvalid HA HB Hlt1)
    as (r & gr & bl & Hi & Hwf & Tr & Tg & Tb & Ar & Ag & Ab).
  rewrite <- HQv in Ar, Ag, Ab.
  exists (mk_rgb r gr bl). split; [|split; [exact Hwf|]].
  - unfold getRgb.
    replace (value <? m_min g) with false by (symmetry; apply Z.ltb_ge; lia).
    replace (m_max g <? value) with false by (symmetry; apply Z.ltb_ge; lia).
    cbn [fst]. rewrite Hb. cbn [mbind result_bind].
    unfold getRgb_normalized, getRgb_step.
    rewrite contract_range, contract_count, contract_v by lia.
    rewrite Hst. cbn [length]. change (Z.of_nat 2 - 1) with 1.
    fold range. fold v. fold (step_of range 1).
    assert (En : f32_div (f32_sub (f32_of_Z v) (f32_mul (f32_of_Z 0) (step_of range 1)))
                         (step_of range 1)
                 = S754_finite false mq eq).
    { rewrite <- HQe. destruct HS as (ms & es & -> & _).
      destruct HV as (mv & ev & -> & _). reflexivity. }
    rewrite En.
    change (vec_at [A; B] 0) with (Ret A). cbn [mbind result_bind].
    change (int_succ 0) with (Ret 1). cbn [mbind result_bind].
    change (vec_at [A; B] 1) with (Ret B). cbn [mbind result_bind].
    exact Hi.
  - destruct HA as (R1 & G1 & B1). destruct HB as (R2 & G2 & B2).
    assert (Hq01 : (0 <= IZR v / IZR range <= 1)%R) by lra.
    unfold rgb_accurate. cbn [red green blue].
    split; [|split].
    + exact (truncated_blend_accurate _ Q _ _ _ _ Hq01 (conj HQl HQu) HQ1 R1 R2 Tr Ar).
    + exact (truncated_blend_accurate _ Q _ _ _ _ Hq01 (conj HQl HQu) HQ1 G1 G2 Tg Ag).
    + exact (truncated_blend_accurate _ Q _ _ _ _ Hq01 (conj HQl HQu) HQ1 B1 B2 Tb Ab).
Qed.

Lemma getRgb_two_stops_accurate_witness :
  exists c,
    fst (getRgb pl0 50 g_two) = Ret c /\ rgb_wf c /\
    rgb_accurate (IZR (50 - m_min g_two) / IZR (m_max g_two - m_min g_two))
                 (mk_rgb 1 2 3) (mk_rgb 4 5 6) c.
Proof.
  apply (getRgb_two_stops_accurate pl0 g_two (mk_rgb 1 2 3) (mk_rgb 4 5 6) 50);
    simpl; try lia; try reflexivity;
    unfold rgb_wf, is_uint8; simpl; lia.
Defined.
